(** * QuoteSlate: the quote retrieval and matching engine of [src/api.js]

    The development embeds the engine of the service: the normalisation of
    author names, the four predicates over a quote, the two matchers
    [getQuotes] and [searchQuotes] and the sampling loop they share.

    - Strings are JavaScript strings: sequences of UTF-16 code units.
    - A call that throws is a [Throw] completion; [null] and [undefined] are
      explicit values.
    - The pure model of the matchers works on the contents of the corpus; a
      second model runs the same statements on a store of arrays and quote
      objects, where [push] and [splice] update an array in place.  The two
      are related by [getQuotesH_spec] and [searchQuotesH_spec].
    - The four routes that serve quotes are functions from the query of a
      request (each parameter absent or given once, as a string) to the
      response sent, or to the exception that escapes the handler; they
      call the matchers with the numbers [parseInt] reads. *)

From Stdlib Require Import String Ascii.
From stdpp Require Import base numbers option list sets gmap.

Set Default Proof Using "Type".

(* ===================================================================== *)
(** * Completions *)
(* ===================================================================== *)

(** The two exceptions the engine can meet: [decodeURIComponent] throws a
    [URIError] on a malformed escape, a property read on [undefined] throws
    a [TypeError]. *)
Inductive Error := URIError | TypeError.

Inductive Completion (A : Type) : Type :=
  | Return (a : A)
  | Throw (e : Error).
Arguments Return {A} a.
Arguments Throw {A} e.

#[global] Instance Completion_ret : MRet Completion := @Return.
#[global] Instance Completion_bind : MBind Completion := fun A B f m =>
  match m with
  | Return a => f a
  | Throw e => Throw e
  end.

#[global] Instance Error_eq_dec : EqDecision Error.
Proof. solve_decision. Defined.

(* ===================================================================== *)
(** * JavaScript strings and the built-ins the engine calls *)
(* ===================================================================== *)

(** A string is its sequence of UTF-16 code units. *)
Abbreviation jsstring := (list N).

(** Literals of the Basic Latin block, one code unit per character. *)
Definition str (s : string) : jsstring :=
  map N_of_ascii (list_ascii_of_string s).
Arguments str s%_string.

Module URI.

(** [ParseHexOctet]: the value of two hexadecimal digits. *)
Definition hexDigit (c : N) : option N :=
  if (48 <=? c)%N && (c <=? 57)%N then Some (c - 48)%N
  else if (65 <=? c)%N && (c <=? 70)%N then Some (c - 55)%N
  else if (97 <=? c)%N && (c <=? 102)%N then Some (c - 87)%N
  else None.

Definition ParseHexOctet (hi lo : N) : Completion N :=
  match hexDigit hi, hexDigit lo with
  | Some h, Some l => Return (16 * h + l)%N
  | _, _ => Throw URIError
  end.

(** The number of leading 1 bits of an octet (5 stands for "more than 4"). *)
Definition leadingOnes (B : N) : nat :=
  if (B <? 0x80)%N then 0
  else if (B <? 0xC0)%N then 1
  else if (B <? 0xE0)%N then 2
  else if (B <? 0xF0)%N then 3
  else if (B <? 0xF8)%N then 4
  else 5.

(** One more escape [%XX] of a multi-octet sequence. *)
Definition continuationByte (percent hi lo : N) : Completion N :=
  if (percent =? 0x25)%N then ParseHexOctet hi lo else Throw URIError.

Definition isContinuation (b : N) : bool := (0x80 <=? b)%N && (b <=? 0xBF)%N.

(** The smallest code point whose shortest UTF-8 form has [n] octets. *)
Definition shortest (n : nat) : N :=
  match n with
  | 2%nat => 0x80%N
  | 3%nat => 0x800%N
  | _ => 0x10000%N
  end.

(** The UTF-8 transformation of the octets [B :: rest] into a code point;
    the octets must be the well-formed (shortest, non-surrogate, at most
    U+10FFFF) encoding of it. *)
Definition codePoint (B : N) (rest : list N) : Completion N :=
  let n := S (List.length rest) in
  let payload := N.land B (N.shiftr 0xFF (N.of_nat (S n))) in
  let V := fold_left (fun acc b => N.lor (N.shiftl acc 6) (N.land b 0x3F))
                     rest payload in
  if forallb isContinuation rest
     && (shortest n <=? V)%N
     && negb ((0xD800 <=? V)%N && (V <=? 0xDFFF)%N)
     && (V <=? 0x10FFFF)%N
  then Return V else Throw URIError.

Definition UTF16EncodeCodePoint (V : N) : jsstring :=
  if (V <=? 0xFFFF)%N then [V]
  else [((V - 0x10000) / 0x400 + 0xD800)%N;
        ((V - 0x10000) mod 0x400 + 0xDC00)%N].

(** [Decode] with an empty set of preserved escapes. *)
Fixpoint Decode (s : jsstring) : Completion jsstring :=
  match s with
  | [] => Return []
  | C :: s1 =>
    if (C =? 0x25)%N then
      match s1 with
      | hi :: lo :: s2 =>
        B ← ParseHexOctet hi lo;
        match leadingOnes B with
        | 0 => R ← Decode s2; Return (B :: R)
        | 2 =>
          match s2 with
          | p1 :: h1 :: l1 :: s3 =>
            b1 ← continuationByte p1 h1 l1;
            V ← codePoint B [b1];
            R ← Decode s3; Return (UTF16EncodeCodePoint V ++ R)
          | _ => Throw URIError
          end
        | 3 =>
          match s2 with
          | p1 :: h1 :: l1 :: p2 :: h2 :: l2 :: s3 =>
            b1 ← continuationByte p1 h1 l1;
            b2 ← continuationByte p2 h2 l2;
            V ← codePoint B [b1; b2];
            R ← Decode s3; Return (UTF16EncodeCodePoint V ++ R)
          | _ => Throw URIError
          end
        | 4 =>
          match s2 with
          | p1 :: h1 :: l1 :: p2 :: h2 :: l2 :: p3 :: h3 :: l3 :: s3 =>
            b1 ← continuationByte p1 h1 l1;
            b2 ← continuationByte p2 h2 l2;
            b3 ← continuationByte p3 h3 l3;
            V ← codePoint B [b1; b2; b3];
            R ← Decode s3; Return (UTF16EncodeCodePoint V ++ R)
          | _ => Throw URIError
          end
        | _ => Throw URIError
        end
      | _ => Throw URIError
      end
    else R ← Decode s1; Return (C :: R)
  end.

End URI.

(** [decodeURIComponent(s)] *)
Definition decodeURIComponent (s : jsstring) : Completion jsstring :=
  URI.Decode s.

(** White space and line terminators, as [String.prototype.trim] strips. *)
Definition isWhiteSpace (c : N) : bool :=
  bool_decide (c ∈ [0x9; 0xA; 0xB; 0xC; 0xD; 0x20; 0xA0; 0x1680; 0x2028;
                    0x2029; 0x202F; 0x205F; 0x3000; 0xFEFF]%N)
  || ((0x2000 <=? c)%N && (c <=? 0x200A)%N).

Fixpoint trimStart (s : jsstring) : jsstring :=
  match s with
  | c :: s' => if isWhiteSpace c then trimStart s' else s
  | [] => []
  end.

Definition trimEnd (s : jsstring) : jsstring := rev (trimStart (rev s)).

(** [s.trim()] *)
Definition trim (s : jsstring) : jsstring := trimEnd (trimStart s).

(** [s.includes(t)]: [t] occurs in [s] as a run of consecutive code units. *)
Fixpoint startsWith (s t : jsstring) {struct t} : bool :=
  match t, s with
  | [], _ => true
  | _ :: _, [] => false
  | b :: t', a :: s' => (a =? b)%N && startsWith s' t'
  end.

Fixpoint includes (s t : jsstring) : bool :=
  startsWith s t ||
  match s with
  | [] => false
  | _ :: s' => includes s' t
  end.

Definition lowerBasicLatin (c : N) : N :=
  if (65 <=? c)%N && (c <=? 90)%N then (c + 32)%N else c.

Definition isBasicLatin (c : N) : bool := (c <? 128)%N.

(* ===================================================================== *)
(** * Data model *)
(* ===================================================================== *)

Module Quote.
(** An entry of [data/quotes.json]. *)
Record t : Type := Build {
  text : jsstring;
  author : jsstring;
  tags : list jsstring;
  length : Z
}.
End Quote.

#[global] Instance Quote_eq_dec : EqDecision Quote.t.
Proof. solve_decision. Defined.

(** [Math.random()] returns a number of the interval [0, 1): the fraction
    [numer / (numer + gap + 1)].  *)
Record Fraction : Type := { numer : nat; gap : nat }.

(** [Math.floor(r * n)], with the product taken exactly: the result is below
    [n] when [n] is positive, and every index below [n] is the result for
    some [r] ([floorScale_lt], [floorScale_onto]). *)
Definition floorScale (r : Fraction) (n : nat) : nat :=
  (numer r * n) `div` (numer r + gap r + 1).

(** The value [getQuotes] and [searchQuotes] return: [null], or an array
    whose entries are quotes ([None] stands for [undefined], which an
    out-of-range read [tempQuotes[randomIndex]] would produce). *)
Inductive Quotes : Type :=
  | Null
  | Array (quotes : list (option Quote.t)).

#[global] Instance Quotes_eq_dec : EqDecision Quotes.
Proof. solve_decision. Defined.

(** Array methods whose callback may throw: the callback runs on the
    elements in order and an exception ends the call. *)
Module Arr.
Section Methods.
Context {A : Type}.

Fixpoint some (p : A → Completion bool) (l : list A) : Completion bool :=
  match l with
  | [] => Return false
  | x :: l' => b ← p x; if b : bool then Return true else some p l'
  end.

Fixpoint every (p : A → Completion bool) (l : list A) : Completion bool :=
  match l with
  | [] => Return true
  | x :: l' => b ← p x; if b : bool then every p l' else Return false
  end.

Fixpoint filter (p : A → Completion bool) (l : list A)
  : Completion (list A) :=
  match l with
  | [] => Return []
  | x :: l' =>
    b ← p x; kept ← filter p l';
    Return (if b : bool then x :: kept else kept)
  end.

(** [l.splice(i, 1)]: nothing is removed when [i] is past the end. *)
Definition splice1 (i : nat) (l : list A) : list A := delete i l.
End Methods.
End Arr.

(* ===================================================================== *)
(** * The engine (api.js, lines 24-183) *)
(* ===================================================================== *)

Module Api.

Section Engine.

(** [toLowerCase] on a string that leaves the Basic Latin block follows
    the case tables of the runtime, which are no part of the repository:
    the development holds for every such mapping. *)
Variable unicodeLower : jsstring → jsstring.

(** [random i] is the value of the [i]-th call of [Math.random()] made by
    the invocation under study. *)
Variable random : nat → Fraction.

(** [s.toLowerCase()] *)
Definition toLowerCase (s : jsstring) : jsstring :=
  if forallb isBasicLatin s then map lowerBasicLatin s else unicodeLower s.

(** lines 25-27 *)
Definition normalizeAuthorName (author : jsstring) : Completion jsstring :=
  decoded ← decodeURIComponent author;
  Return (toLowerCase (trim decoded)).

(** lines 30-36; an array, even an empty one, is truthy. *)
Definition hasMatchingAuthor (quote : Quote.t)
    (requestedAuthors : option (list jsstring)) : Completion bool :=
  match requestedAuthors with
  | None => Return true
  | Some requestedAuthors =>
    quoteAuthor ← normalizeAuthorName (Quote.author quote);
    Arr.some (fun author =>
                normalized ← normalizeAuthorName author;
                Return (bool_decide (normalized = quoteAuthor)))
             requestedAuthors
  end.

(** lines 39-48 *)
Definition hasPartialAuthorMatch (quote : Quote.t)
    (searchTerms : option (list jsstring)) : Completion bool :=
  match searchTerms with
  | None => Return true
  | Some searchTerms =>
    if decide (length searchTerms = 0) then Return true
    else
      quoteAuthor ← normalizeAuthorName (Quote.author quote);
      Arr.every (fun term =>
                   normalized ← normalizeAuthorName term;
                   Return (includes quoteAuthor normalized))
                searchTerms
  end.

(** lines 51-55 *)
Definition hasMatchingTags (quote : Quote.t)
    (requestedTags : option (list jsstring)) : bool :=
  match requestedTags with
  | None => true
  | Some requestedTags =>
    let quoteTags : gset jsstring := list_to_set (Quote.tags quote) in
    forallb (fun tag => bool_decide (tag ∈ quoteTags)) requestedTags
  end.

(** lines 58-69 *)
Definition hasPartialTagMatch (quote : Quote.t)
    (tagTerms : option (list jsstring)) : bool :=
  match tagTerms with
  | None => true
  | Some tagTerms =>
    if decide (length tagTerms = 0) then true
    else
      let quoteTags := map toLowerCase (Quote.tags quote) in
      forallb (fun term =>
                 let normalizedTerm := toLowerCase term in
                 existsb (fun tag => includes tag normalizedTerm) quoteTags)
              tagTerms
  end.

(** lines 98-105 and 156-163: the two length filters. *)
Definition filterLength (minLength maxLength : option Z)
    (validQuotes : list Quote.t) : list Quote.t :=
  let validQuotes :=
    match minLength with
    | Some minLength =>
      List.filter (fun quote => (Quote.length quote >=? minLength)%Z)
                  validQuotes
    | None => validQuotes
    end in
  match maxLength with
  | Some maxLength =>
    List.filter (fun quote => (Quote.length quote <=? maxLength)%Z)
                validQuotes
  | None => validQuotes
  end.

(** One turn of the loop of lines 118-122 (and 176-180): the state is the
    pair of [quotes] and [tempQuotes]. *)
Definition draw {A : Type} (r : Fraction)
    (st : list (option A) * list A) : list (option A) * list A :=
  let '(quotes, tempQuotes) := st in
  let randomIndex := floorScale r (length tempQuotes) in
  (quotes ++ [tempQuotes !! randomIndex], Arr.splice1 randomIndex tempQuotes).

(** [n] turns of the loop, the first of them with loop index [i]. *)
Fixpoint drawLoop {A : Type} (i n : nat)
    (st : list (option A) * list A) : list (option A) * list A :=
  match n with
  | 0 => st
  | S n' => drawLoop (S i) n' (draw (random i) st)
  end.

(** lines 111-124 (and 169-182): clamp the count, then draw. *)
Definition drawQuotes {A : Type} (count : Z) (validQuotes : list A)
    : list (option A) :=
  let count := Z.min count (Z.of_nat (length validQuotes)) in
  let quotes := [] in
  let tempQuotes := validQuotes in
  fst (drawLoop 0 (Z.to_nat count) (quotes, tempQuotes)).

Section Matchers.

(** The corpus, parsed from [data/quotes.json] when the module loads. *)
Variable quotesData : list Quote.t.

(** lines 79-109: the candidates handed to the sampling loop, [None]
    when the function returns [null] at one of its two checkpoints. *)
Definition getQuotes_candidates (maxLength minLength : option Z)
    (tags authors : option (list jsstring))
  : Completion (option (list Quote.t)) :=
  let validQuotes := quotesData in
  validQuotes ←
    match authors with
    | Some _ =>
      Arr.filter (fun quote => hasMatchingAuthor quote authors) validQuotes
    | None => Return validQuotes
    end;
  let validQuotes :=
    match tags with
    | Some _ =>
      List.filter (fun quote => hasMatchingTags quote tags) validQuotes
    | None => validQuotes
    end in
  if decide (length validQuotes = 0) then Return None
  else
    let validQuotes := filterLength minLength maxLength validQuotes in
    if decide (length validQuotes = 0) then Return None
    else Return (Some validQuotes).

(** lines 72-125 *)
Definition getQuotes (maxLength minLength : option Z)
    (tags : option (list jsstring)) (count : Z)
    (authors : option (list jsstring)) : Completion Quotes :=
  candidates ← getQuotes_candidates maxLength minLength tags authors;
  match candidates with
  | None => Return Null
  | Some validQuotes => Return (Array (drawQuotes count validQuotes))
  end.

(** An array is "given" to [searchQuotes] when it is not [null] and not
    empty (lines 138 and 145). *)
Definition given (terms : option (list jsstring)) : bool :=
  match terms with
  | Some terms => 0 <? length terms
  | None => false
  end.

(** lines 135-167 *)
Definition searchQuotes_candidates (maxLength minLength : option Z)
    (tagTerms authorTerms : option (list jsstring))
  : Completion (option (list Quote.t)) :=
  let validQuotes := quotesData in
  validQuotes ←
    (if given authorTerms then
       Arr.filter (fun quote => hasPartialAuthorMatch quote authorTerms)
                  validQuotes
     else Return validQuotes);
  let validQuotes :=
    if given tagTerms then
      List.filter (fun quote => hasPartialTagMatch quote tagTerms)
                  validQuotes
    else validQuotes in
  if decide (length validQuotes = 0) then Return None
  else
    let validQuotes := filterLength minLength maxLength validQuotes in
    if decide (length validQuotes = 0) then Return None
    else Return (Some validQuotes).

(** lines 128-183 *)
Definition searchQuotes (maxLength minLength : option Z)
    (tagTerms : option (list jsstring)) (limit : Z)
    (authorTerms : option (list jsstring)) : Completion Quotes :=
  candidates ←
    searchQuotes_candidates maxLength minLength tagTerms authorTerms;
  match candidates with
  | None => Return Null
  | Some validQuotes => Return (Array (drawQuotes limit validQuotes))
  end.

End Matchers.

End Engine.

End Api.

Export Api.

(* ===================================================================== *)
(** * The engine on a store of objects *)
(* ===================================================================== *)

(** The engine works on references: an array holds references to quote
    objects, [push] and [splice] change an array in place, and a spread
    [[...a]] or a [filter] allocates a new array.  The store keeps the quote
    objects and the arrays of the process. *)

Abbreviation loc := positive.

Inductive value : Type :=
  | Undefined
  | Ref (l : loc).

#[global] Instance value_eq_dec : EqDecision value.
Proof. solve_decision. Defined.

Record Store : Type := {
  objects : gmap loc Quote.t;
  arrays : gmap loc (list value)
}.

(** A computation reads and updates the store and completes normally or
    throws. *)
Definition M (A : Type) : Type := Store → Completion A * Store.

#[global] Instance M_ret : MRet M := fun A a s => (Return a, s).
#[global] Instance M_bind : MBind M := fun A B k m s =>
  match m s with
  | (Return a, s') => k a s'
  | (Throw e, s') => (Throw e, s')
  end.

(** A computation without effect on the store. *)
Definition lift {A : Type} (c : Completion A) : M A := fun s => (c, s).

Definition setArray (l : loc) (vs : list value) (s : Store) : Store :=
  {| objects := objects s; arrays := <[l := vs]> (arrays s) |}.

(** A new array with the elements [vs]. *)
Definition allocArray (vs : list value) : M loc := fun s =>
  let l := fresh (dom (arrays s)) in
  (Return l, setArray l vs s).

Definition readArray (a : loc) : M (list value) := fun s =>
  match arrays s !! a with
  | Some vs => (Return vs, s)
  | None => (Throw TypeError, s)
  end.

(** [[...a]] *)
Definition spread (a : loc) : M loc :=
  vs ← readArray a; allocArray vs.

(** [a.length] *)
Definition lengthOf (a : loc) : M nat :=
  vs ← readArray a; mret (length vs).

(** [a[i]] *)
Definition index (a : loc) (i : nat) : M value :=
  vs ← readArray a; mret (default Undefined (vs !! i)).

Definition writeArray (a : loc) (vs : list value) : M unit := fun s =>
  (Return (), setArray a vs s).

(** [a.push(v)] *)
Definition push (a : loc) (v : value) : M unit :=
  vs ← readArray a; writeArray a (vs ++ [v]).

(** [a.splice(i, 1)] *)
Definition splice (a : loc) (i : nat) : M unit :=
  vs ← readArray a; writeArray a (Arr.splice1 i vs).

(** The object behind [quote], for a property read [quote.author],
    [quote.tags] or [quote.length]. *)
Definition readQuote (quote : value) : M Quote.t := fun s =>
  match quote with
  | Ref r =>
    match objects s !! r with
    | Some q => (Return q, s)
    | None => (Throw TypeError, s)
    end
  | Undefined => (Throw TypeError, s)
  end.

Fixpoint filterM (p : value → M bool) (vs : list value) : M (list value) :=
  match vs with
  | [] => mret []
  | v :: vs' =>
    b ← p v; kept ← filterM p vs';
    mret (if b : bool then v :: kept else kept)
  end.

(** [a.filter(p)] *)
Definition filterH (p : value → M bool) (a : loc) : M loc :=
  vs ← readArray a; kept ← filterM p vs; allocArray kept.

(** [for (let i = i0; i < i0 + n; i++) body(i)] *)
Fixpoint forLoop (i n : nat) (body : nat → M unit) : M unit :=
  match n with
  | 0 => mret ()
  | S n' => body i;; forLoop (S i) n' body
  end.

Section EngineH.

Variable unicodeLower : jsstring → jsstring.
Variable random : nat → Fraction.

(** The global [quotesData] refers to the corpus array. *)
Variable quotesData : loc.

Definition hasMatchingAuthorH (quote : value)
    (requestedAuthors : option (list jsstring)) : M bool :=
  match requestedAuthors with
  | None => mret true
  | Some _ =>
    q ← readQuote quote;
    lift (hasMatchingAuthor unicodeLower q requestedAuthors)
  end.

Definition hasPartialAuthorMatchH (quote : value)
    (searchTerms : option (list jsstring)) : M bool :=
  match searchTerms with
  | None => mret true
  | Some terms =>
    if decide (length terms = 0) then mret true
    else
      q ← readQuote quote;
      lift (hasPartialAuthorMatch unicodeLower q searchTerms)
  end.

Definition hasMatchingTagsH (quote : value)
    (requestedTags : option (list jsstring)) : M bool :=
  match requestedTags with
  | None => mret true
  | Some _ => q ← readQuote quote; mret (hasMatchingTags q requestedTags)
  end.

Definition hasPartialTagMatchH (quote : value)
    (tagTerms : option (list jsstring)) : M bool :=
  match tagTerms with
  | None => mret true
  | Some terms =>
    if decide (length terms = 0) then mret true
    else
      q ← readQuote quote;
      mret (hasPartialTagMatch unicodeLower q tagTerms)
  end.

Definition filterLengthH (minLength maxLength : option Z)
    (validQuotes : loc) : M loc :=
  validQuotes ←
    match minLength with
    | Some minLength =>
      filterH (fun quote =>
                 q ← readQuote quote;
                 mret (Quote.length q >=? minLength)%Z) validQuotes
    | None => mret validQuotes
    end;
  match maxLength with
  | Some maxLength =>
    filterH (fun quote =>
               q ← readQuote quote;
               mret (Quote.length q <=? maxLength)%Z) validQuotes
  | None => mret validQuotes
  end.

(** The body of the loop of lines 118-122 (and 176-180) on the arrays
    [quotes] and [tempQuotes]. *)
Definition drawBody (quotes tempQuotes : loc) (i : nat) : M unit :=
  n ← lengthOf tempQuotes;
  let randomIndex := floorScale (random i) n in
  picked ← index tempQuotes randomIndex;
  push quotes picked;;
  splice tempQuotes randomIndex.

(** lines 111-124 and 169-182 *)
Definition drawQuotesH (count : Z) (validQuotes : loc) : M loc :=
  n ← lengthOf validQuotes;
  let count := Z.min count (Z.of_nat n) in
  quotes ← allocArray [];
  tempQuotes ← spread validQuotes;
  forLoop 0 (Z.to_nat count) (drawBody quotes tempQuotes);;
  mret quotes.

(** lines 72-125; the result is [null] or the reference of [quotes]. *)
Definition getQuotesH (maxLength minLength : option Z)
    (tags : option (list jsstring)) (count : Z)
    (authors : option (list jsstring)) : M (option loc) :=
  validQuotes ← spread quotesData;
  validQuotes ←
    match authors with
    | Some _ =>
      filterH (fun quote => hasMatchingAuthorH quote authors) validQuotes
    | None => mret validQuotes
    end;
  validQuotes ←
    match tags with
    | Some _ =>
      filterH (fun quote => hasMatchingTagsH quote tags) validQuotes
    | None => mret validQuotes
    end;
  n ← lengthOf validQuotes;
  if decide (n = 0) then mret None
  else
    validQuotes ← filterLengthH minLength maxLength validQuotes;
    n ← lengthOf validQuotes;
    if decide (n = 0) then mret None
    else quotes ← drawQuotesH count validQuotes; mret (Some quotes).

(** lines 128-183 *)
Definition searchQuotesH (maxLength minLength : option Z)
    (tagTerms : option (list jsstring)) (limit : Z)
    (authorTerms : option (list jsstring)) : M (option loc) :=
  validQuotes ← spread quotesData;
  validQuotes ←
    (if given authorTerms then
       filterH (fun quote => hasPartialAuthorMatchH quote authorTerms)
               validQuotes
     else mret validQuotes);
  validQuotes ←
    (if given tagTerms then
       filterH (fun quote => hasPartialTagMatchH quote tagTerms) validQuotes
     else mret validQuotes);
  n ← lengthOf validQuotes;
  if decide (n = 0) then mret None
  else
    validQuotes ← filterLengthH minLength maxLength validQuotes;
    n ← lengthOf validQuotes;
    if decide (n = 0) then mret None
    else quotes ← drawQuotesH limit validQuotes; mret (Some quotes).

End EngineH.

(* ===================================================================== *)
(** * Vocabulary of the statements *)
(* ===================================================================== *)

(** [t] occurs in [s]. *)
Definition substring (t s : jsstring) : Prop :=
  ∃ pre post, s = pre ++ t ++ post.

(** [s] has no malformed escape: [decodeURIComponent(s)] returns. *)
Definition wellFormed (s : jsstring) : bool :=
  match decodeURIComponent s with
  | Return _ => true
  | Throw _ => false
  end.

(** A predicate call that returned [true]. *)
Definition holds (c : Completion bool) : bool :=
  match c with
  | Return b => b
  | Throw _ => false
  end.

Definition withinLength (minLength maxLength : option Z) (quote : Quote.t)
  : bool :=
  match minLength with
  | Some minLength => (Quote.length quote >=? minLength)%Z
  | None => true
  end
  &&
  match maxLength with
  | Some maxLength => (Quote.length quote <=? maxLength)%Z
  | None => true
  end.

(** The strings of a filter, none when the filter is [null]. *)
Definition listed (filter : option (list jsstring)) : list jsstring :=
  default [] filter.

(** The author names an author filter decodes have no malformed escape: the
    authors of the corpus and the requested ones, when a filter is passed. *)
Definition authorsDecode (corpus : list Quote.t)
    (authors : option (list jsstring)) : bool :=
  match authors with
  | None => true
  | Some requested =>
    forallb wellFormed (map Quote.author corpus)
    && forallb wellFormed requested
  end.

(** The same for the search terms of [searchQuotes], which are looked at
    when the array is not empty. *)
Definition termsDecode (corpus : list Quote.t)
    (authorTerms : option (list jsstring)) : bool :=
  if given authorTerms then
    forallb wellFormed (map Quote.author corpus)
    && forallb wellFormed (listed authorTerms)
  else true.

Section Vocabulary.

Variable unicodeLower : jsstring → jsstring.

(** The conjunction of the three filters of [getQuotes] at one quote. *)
Definition getQuotes_matches (maxLength minLength : option Z)
    (tags authors : option (list jsstring)) (quote : Quote.t) : bool :=
  holds (hasMatchingAuthor unicodeLower quote authors)
  && hasMatchingTags quote tags
  && withinLength minLength maxLength quote.

(** The conjunction of the three filters of [searchQuotes]. *)
Definition searchQuotes_matches (maxLength minLength : option Z)
    (tagTerms authorTerms : option (list jsstring)) (quote : Quote.t)
  : bool :=
  holds (hasPartialAuthorMatch unicodeLower quote authorTerms)
  && hasPartialTagMatch unicodeLower quote tagTerms
  && withinLength minLength maxLength quote.

(** The normalised author of [quote] is the normalised form of one of the
    requested authors. *)
Definition authorAmong (quote : Quote.t) (requested : list jsstring)
  : Prop :=
  ∃ author n,
    author ∈ requested
    ∧ normalizeAuthorName unicodeLower author = Return n
    ∧ normalizeAuthorName unicodeLower (Quote.author quote) = Return n.

(** The three filters of [getQuotes] as stages that can be applied in any
    order. *)
Inductive Stage : Type := ByAuthor | ByTags | ByLength.

Definition applyStage (maxLength minLength : option Z)
    (tags authors : option (list jsstring)) (stage : Stage)
    (validQuotes : list Quote.t) : Completion (list Quote.t) :=
  match stage with
  | ByAuthor =>
    match authors with
    | Some _ =>
      Arr.filter (fun quote => hasMatchingAuthor unicodeLower quote authors)
                 validQuotes
    | None => Return validQuotes
    end
  | ByTags =>
    Return match tags with
           | Some _ =>
             List.filter (fun quote => hasMatchingTags quote tags)
                         validQuotes
           | None => validQuotes
           end
  | ByLength => Return (filterLength minLength maxLength validQuotes)
  end.

Fixpoint applyStages (maxLength minLength : option Z)
    (tags authors : option (list jsstring)) (stages : list Stage)
    (validQuotes : list Quote.t) : Completion (list Quote.t) :=
  match stages with
  | [] => Return validQuotes
  | stage :: stages' =>
    validQuotes ←
      applyStage maxLength minLength tags authors stage validQuotes;
    applyStages maxLength minLength tags authors stages' validQuotes
  end.

(** The predicate a stage filters by. *)
Definition stageKeeps (maxLength minLength : option Z)
    (tags authors : option (list jsstring)) (stage : Stage)
    (quote : Quote.t) : bool :=
  match stage with
  | ByAuthor => holds (hasMatchingAuthor unicodeLower quote authors)
  | ByTags => hasMatchingTags quote tags
  | ByLength => withinLength minLength maxLength quote
  end.

(** The author predicate returns on every quote of [validQuotes]. *)
Definition authorReturns (authors : option (list jsstring))
    (validQuotes : list Quote.t) : Prop :=
  ∀ q, q ∈ validQuotes →
       ∃ b, hasMatchingAuthor unicodeLower q authors = Return b.

End Vocabulary.

(** Sample data: the quotes the specification uses in its examples. *)
Module Sample.
Definition twain : Quote.t :=
  Quote.Build (str "The secret of getting ahead is getting started.")
              (str "Mark Twain") [str "wisdom"; str "life"] 50.
Definition wilde : Quote.t :=
  Quote.Build (str "Be yourself; everyone else is already taken.")
              (str "Oscar Wilde") [str "humor"] 44.
Definition hooks : Quote.t :=
  Quote.Build (str "Love is an action, never simply a feeling.")
              (str "bell hooks") [str "tough-love"; str "lifestyle"] 42.
Definition corpus : list Quote.t := [twain; wilde; hooks].

(** A source of draws: 1/3, 2/4, 3/5, ... *)
Definition draws (i : nat) : Fraction := {| numer := i + 1; gap := 1 |}.

(** A case mapping that leaves strings outside Basic Latin alone. *)
Definition noTables (s : jsstring) : jsstring := s.
End Sample.

(** What is left of a filtered corpus once an empty result has become
    [null]. *)
Definition nonEmpty (validQuotes : list Quote.t) : option (list Quote.t) :=
  if decide (length validQuotes = 0) then None else Some validQuotes.

(** What a matcher returns once its candidates are known. *)
Definition outcome (random : nat → Fraction) (count : Z)
    (candidates : list Quote.t) : Quotes :=
  match nonEmpty candidates with
  | None => Null
  | Some validQuotes => Array (drawQuotes random count validQuotes)
  end.

(* ===================================================================== *)
(** * Vocabulary of the statements on the store *)
(* ===================================================================== *)

(** The store [s] has the objects of [s0] and every array of [s0] with the
    elements it has in [s0]. *)
Definition extends (s0 s : Store) : Prop :=
  objects s = objects s0 ∧ arrays s0 ⊆ arrays s.

(** The array [l] did not exist in [s0]: it belongs to the call. *)
Definition callLocal (s0 : Store) (l : loc) : Prop := arrays s0 !! l = None.

(** The computation [m] keeps the objects and the arrays of [s0], and its
    value satisfies [post]. *)
Definition keeps (s0 : Store) {A : Type} (m : M A) (post : A → Prop) : Prop :=
  ∀ s, extends s0 s →
       extends s0 (m s).2 ∧ ∀ a, (m s).1 = Return a → post a.

(** The value [v] is a reference to the quote [q]. *)
Definition refersTo (objs : gmap loc Quote.t) (v : value) (q : Quote.t)
  : Prop :=
  ∃ r, v = Ref r ∧ objs !! r = Some q.

(** The value [v] is the entry [entry] of a returned array. *)
Definition holdsEntry (objs : gmap loc Quote.t) (v : value)
    (entry : option Quote.t) : Prop :=
  match v, entry with
  | Undefined, None => True
  | Ref r, Some q => objs !! r = Some q
  | _, _ => False
  end.

(** The array [l] of the store [s] holds references to the quotes [qs]. *)
Definition arrayOf (objs : gmap loc Quote.t) (s : Store) (l : loc)
    (qs : list Quote.t) : Prop :=
  ∃ vs, arrays s !! l = Some vs ∧ Forall2 (refersTo objs) vs qs.

Definition entriesOf (objs : gmap loc Quote.t) (s : Store) (l : loc)
    (quotes : list (option Quote.t)) : Prop :=
  ∃ vs, arrays s !! l = Some vs ∧ Forall2 (holdsEntry objs) vs quotes.

(** The result of a matcher on the store is the result [expected]. *)
Definition resultOf (objs : gmap loc Quote.t) (s : Store)
    (result : option loc) (expected : Quotes) : Prop :=
  match result, expected with
  | None, Null => True
  | Some l, Array quotes => entriesOf objs s l quotes
  | _, _ => False
  end.

(** The computation [m], run in [s], completes as [c] does, with values
    related by [R], and leaves the quote objects [objs] in place. *)
Definition sim (objs : gmap loc Quote.t) {A B : Type}
    (R : Store → A → B → Prop) (m : M A) (s : Store) (c : Completion B)
  : Prop :=
  objects (m s).2 = objs
  ∧ match (m s).1, c with
    | Return a, Return b => R (m s).2 a b
    | Throw e, Throw e' => e = e'
    | _, _ => False
    end.

(** [undefined] for a read past the end. *)
Definition toValue (entry : option value) : value := default Undefined entry.

(** The callback [pH] of a filter reads the quote behind its argument and
    computes what [p] computes on the quote. *)
Definition callbackOf (objs : gmap loc Quote.t) (pH : value → M bool)
    (p : Quote.t → Completion bool) : Prop :=
  ∀ v q s, objects s = objs → refersTo objs v q → pH v s = (p q, s).

(** A store with the sample corpus: three quote objects and the corpus
    array, at the reference 1. *)
Module SampleStore.
Definition quotesData : loc := 1%positive.
Definition store : Store :=
  {| objects := {[ 1%positive := Sample.twain;
                   2%positive := Sample.wilde;
                   3%positive := Sample.hooks ]};
     arrays := {[ quotesData := [Ref 1; Ref 2; Ref 3] ]} |}.
End SampleStore.

(** A call of one of the two matchers, with its arguments and the values
    [Math.random()] takes during it. *)
Inductive Call : Type :=
  | CallGetQuotes (random : nat → Fraction) (maxLength minLength : option Z)
      (tags : option (list jsstring)) (count : Z)
      (authors : option (list jsstring))
  | CallSearchQuotes (random : nat → Fraction)
      (maxLength minLength : option Z) (tagTerms : option (list jsstring))
      (limit : Z) (authorTerms : option (list jsstring)).

Section Calls.

Variable unicodeLower : jsstring → jsstring.

(** The call on the store, where [quotesData] refers to the corpus. *)
Definition callOnStore (quotesData : loc) (call : Call) : M (option loc) :=
  match call with
  | CallGetQuotes random maxLength minLength tags count authors =>
    getQuotesH unicodeLower random quotesData maxLength minLength tags count
               authors
  | CallSearchQuotes random maxLength minLength tagTerms limit authorTerms =>
    searchQuotesH unicodeLower random quotesData maxLength minLength tagTerms
                  limit authorTerms
  end.

(** The call on the contents of the corpus. *)
Definition callOnContents (corpus : list Quote.t) (call : Call)
  : Completion Quotes :=
  match call with
  | CallGetQuotes random maxLength minLength tags count authors =>
    getQuotes unicodeLower random corpus maxLength minLength tags count
              authors
  | CallSearchQuotes random maxLength minLength tagTerms limit authorTerms =>
    searchQuotes unicodeLower random corpus maxLength minLength tagTerms
                 limit authorTerms
  end.

(** The store after a sequence of calls, whether they return or throw. *)
Fixpoint storeAfter (quotesData : loc) (calls : list Call) (s : Store)
  : Store :=
  match calls with
  | [] => s
  | call :: calls' =>
    storeAfter quotesData calls' (callOnStore quotesData call s).2
  end.

End Calls.

(* ===================================================================== *)
(** * The routes (api.js, lines 213-500) *)
(* ===================================================================== *)

(** A number as the routes meet it: what [parseInt] returns or a literal.
    An integer stands for the double of that value, the two zeros being
    one. *)
Inductive Num : Type :=
  | NaN
  | NegInfinity
  | PosInfinity
  | Int (z : Z).

#[global] Instance Num_eq_dec : EqDecision Num.
Proof. solve_decision. Defined.

(** [isNaN(n)] *)
Definition isNaN (n : Num) : bool :=
  match n with
  | NaN => true
  | _ => false
  end.

(** [a < b] *)
Definition ltNum (a b : Num) : bool :=
  match a, b with
  | NaN, _ | _, NaN => false
  | _, NegInfinity => false
  | NegInfinity, _ => true
  | PosInfinity, _ => false
  | Int _, PosInfinity => true
  | Int x, Int y => (x <? y)%Z
  end.

(** [a <= b] *)
Definition leNum (a b : Num) : bool :=
  match a, b with
  | NaN, _ | _, NaN => false
  | NegInfinity, _ => true
  | _, NegInfinity => false
  | _, PosInfinity => true
  | PosInfinity, _ => false
  | Int x, Int y => (x <=? y)%Z
  end.

(** [a > b] and [a >= b] *)
Definition gtNum (a b : Num) : bool := ltNum b a.
Definition geNum (a b : Num) : bool := leNum b a.

(** [Math.min(a, b)] *)
Definition minNum (a b : Num) : Num :=
  match a, b with
  | NaN, _ | _, NaN => NaN
  | _, _ => if ltNum b a then b else a
  end.

(** The value of a digit in the radix [R], for the digits and letters
    [parseInt] reads when the radix is 10 or 16. *)
Definition digitOf (R : N) (c : N) : option N :=
  match URI.hexDigit c with
  | Some d => if (d <? R)%N then Some d else None
  | None => None
  end.

(** The values of the digits [S] starts with. *)
Fixpoint digitPrefix (R : N) (S : jsstring) : list N :=
  match S with
  | [] => []
  | c :: S' =>
    match digitOf R c with
    | Some d => d :: digitPrefix R S'
    | None => []
    end
  end.

Definition radixValue (R : N) (digits : list N) : N :=
  fold_left (fun acc d => (acc * R + d)%N) digits 0%N.

(** [s.split(sep)] for a separator of one code unit: the pieces between
    the separators, at least one. *)
Fixpoint splitOn (sep : N) (s : jsstring) : list jsstring :=
  match s with
  | [] => [[]]
  | c :: s' =>
    if (c =? sep)%N then [] :: splitOn sep s'
    else
      match splitOn sep s' with
      | piece :: pieces => (c :: piece) :: pieces
      | [] => [[c]]
      end
  end.

(** [l.join(sep)] *)
Fixpoint join (sep : jsstring) (l : list jsstring) : jsstring :=
  match l with
  | [] => []
  | x :: l' =>
    match l' with
    | [] => x
    | _ :: _ => x ++ sep ++ join sep l'
    end
  end.

Module Query.
(** [req.query], each parameter absent or given once, as a string. *)
Record t : Type := Build {
  maxLength : option jsstring;
  minLength : option jsstring;
  tags : option jsstring;
  authors : option jsstring;
  count : option jsstring;
  limit : option jsstring;
  exactTags : option jsstring;
  terms : option jsstring
}.
End Query.

(** [p ? f(p) : d] for a query parameter [p]: the empty string is falsy. *)
Definition ifPresent {A : Type} (p : option jsstring) (f : jsstring → A)
    (d : A) : A :=
  match p with
  | Some (c :: s) => f (c :: s)
  | _ => d
  end.

(** The body of a response. *)
Inductive Json : Type :=
  | ErrorJson (error : jsstring)
  | QuoteJson (quote : option Quote.t)
  | QuotesJson (quotes : list (option Quote.t)).

Inductive Response : Type :=
  | Respond (status : Z) (body : Json).

#[global] Instance Json_eq_dec : EqDecision Json.
Proof. solve_decision. Defined.
#[global] Instance Response_eq_dec : EqDecision Response.
Proof. solve_decision. Defined.

Definition status (r : Response) : Z :=
  match r with
  | Respond status _ => status
  end.

(** The names [Object.prototype] defines: a property read [authorMap[k]] on
    the object [authorMap = {}] finds them when [k] is no own property. *)
Definition objectPrototypeNames : list jsstring :=
  [str "constructor"; str "__defineGetter__"; str "__defineSetter__";
   str "hasOwnProperty"; str "__lookupGetter__"; str "__lookupSetter__";
   str "isPrototypeOf"; str "propertyIsEnumerable"; str "toString";
   str "valueOf"; str "__proto__"; str "toLocaleString"].

(** What a property read on [authorMap] gives, [undefined] apart: the
    author name stored under the key, or the function or object that
    [Object.prototype] holds under that name. *)
Inductive Property : Type :=
  | Own (author : jsstring)
  | Inherited (name : jsstring).

(** [authorMap[k]] *)
Definition getProperty (authorMap : gmap jsstring jsstring) (k : jsstring)
  : option Property :=
  match authorMap !! k with
  | Some author => Some (Own author)
  | None =>
    if decide (k ∈ objectPrototypeNames) then Some (Inherited k) else None
  end.

(** The truth value of what a property read gives: an empty string is
    falsy, a function or an object is truthy. *)
Definition truthy (p : Property) : bool :=
  match p with
  | Own author => negb (bool_decide (author = []))
  | Inherited _ => true
  end.

(** What a validation step of a route leaves: the response it sent, or
    what the route goes on with. *)
Inductive Validation (A : Type) : Type :=
  | Rejected (response : Response)
  | Accepted (a : A).
Arguments Rejected {A} response.
Arguments Accepted {A} a.

Section Routes.

Variable unicodeLower : jsstring → jsstring.

(** The number [parseInt] makes of the digits of an integer beyond 2^53,
    read in the radix [R]: the rounding to a double belongs to the
    runtime. *)
Variable toDouble : N → Z → Num.

(** The text [decodeURIComponent] sees for the function or object that
    [Object.prototype] holds under a name. *)
Variable inheritedText : jsstring → jsstring.

Variable random : nat → Fraction.

(** The corpus, and what reading and parsing the two data files gives at
    the time of the request: [None] when [fs.readFileSync] or [JSON.parse]
    (or the use of the parsed value) throws, the keys of [authors.json] in
    the order of [Object.keys], the strings of [tags.json]. *)
Variable quotesData : list Quote.t.
Variable authorsFile : option (list jsstring).
Variable tagsFile : option (list jsstring).

(** The number value of an integer read in the radix [R]. *)
Definition numberOf (R : N) (z : Z) : Num :=
  if (Z.abs z <=? 2 ^ 53)%Z then Int z else toDouble R z.

(** [parseInt(string)] without a radix: white space is skipped, a sign is
    read, a prefix [0x] or [0X] selects the radix 16, and the digits up to
    the first code unit that is no digit are the value. *)
Definition parseInt (string : jsstring) : Num :=
  let inputString := trimStart string in
  let sign :=
    match inputString with
    | c :: _ => if (c =? 45)%N then (-1)%Z else 1%Z
    | [] => 1%Z
    end in
  let unsigned :=
    match inputString with
    | c :: rest => if (c =? 43)%N || (c =? 45)%N then rest else inputString
    | [] => inputString
    end in
  let '(R, numeral) :=
    match unsigned with
    | zero :: x :: rest =>
      if (zero =? 48)%N && ((x =? 120)%N || (x =? 88)%N) then (16%N, rest)
      else (10%N, unsigned)
    | _ => (10%N, unsigned)
    end in
  let digits := digitPrefix R numeral in
  if decide (digits = []) then NaN
  else numberOf R (sign * Z.of_N (radixValue R digits)).

(** [quote.length >= minLength] and [quote.length <= maxLength] applied as
    in lines 98-105, for bounds that are any number. *)
Definition filterLengthNum (minLength maxLength : option Num)
    (validQuotes : list Quote.t) : list Quote.t :=
  let validQuotes :=
    match minLength with
    | Some minLength =>
      List.filter (fun quote => geNum (Int (Quote.length quote)) minLength)
                  validQuotes
    | None => validQuotes
    end in
  match maxLength with
  | Some maxLength =>
    List.filter (fun quote => leNum (Int (Quote.length quote)) maxLength)
                validQuotes
  | None => validQuotes
  end.

(** lines 111-124 for a count that is any number: the loop runs while
    [i < count], and a minimum with a length is never [+Infinity]. *)
Definition drawQuotesNum {A : Type} (count : Num) (validQuotes : list A)
    : list (option A) :=
  let count := minNum count (Int (Z.of_nat (length validQuotes))) in
  let quotes := [] in
  let tempQuotes := validQuotes in
  match count with
  | Int count => fst (drawLoop random 0 (Z.to_nat count) (quotes, tempQuotes))
  | _ => quotes
  end.

(** [getQuotes] (lines 72-125) as the routes call it, with bounds and a
    count that are numbers. *)
Definition getQuotesNum (maxLength minLength : option Num)
    (tags : option (list jsstring)) (count : Num)
    (authors : option (list jsstring)) : Completion Quotes :=
  let validQuotes := quotesData in
  validQuotes ←
    match authors with
    | Some _ =>
      Arr.filter (fun quote => hasMatchingAuthor unicodeLower quote authors)
                 validQuotes
    | None => Return validQuotes
    end;
  let validQuotes :=
    match tags with
    | Some _ =>
      List.filter (fun quote => hasMatchingTags quote tags) validQuotes
    | None => validQuotes
    end in
  if decide (length validQuotes = 0) then Return Null
  else
    let validQuotes := filterLengthNum minLength maxLength validQuotes in
    if decide (length validQuotes = 0) then Return Null
    else Return (Array (drawQuotesNum count validQuotes)).

(** [searchQuotes] (lines 128-183) as the routes call it. *)
Definition searchQuotesNum (maxLength minLength : option Num)
    (tagTerms : option (list jsstring)) (limit : Num)
    (authorTerms : option (list jsstring)) : Completion Quotes :=
  let validQuotes := quotesData in
  validQuotes ←
    (if given authorTerms then
       Arr.filter
         (fun quote => hasPartialAuthorMatch unicodeLower quote authorTerms)
         validQuotes
     else Return validQuotes);
  let validQuotes :=
    if given tagTerms then
      List.filter (fun quote => hasPartialTagMatch unicodeLower quote tagTerms)
                  validQuotes
    else validQuotes in
  if decide (length validQuotes = 0) then Return Null
  else
    let validQuotes := filterLengthNum minLength maxLength validQuotes in
    if decide (length validQuotes = 0) then Return Null
    else Return (Array (drawQuotesNum limit validQuotes)).

(** lines 238-241 and 342-345: [authorMap], filled from the keys of
    [authors.json].  An assignment to ["__proto__"] of a string changes
    nothing. *)
Definition buildAuthorMap (keys : list jsstring) : gmap jsstring jsstring :=
  fold_left (fun authorMap author =>
               let k := toLowerCase unicodeLower author in
               if decide (k = str "__proto__") then authorMap
               else <[k := author]> authorMap)
            keys ∅.

(** The text [decodeURIComponent] sees for an element of the validated
    array of authors. *)
Definition textOf (p : Property) : jsstring :=
  match p with
  | Own author => author
  | Inherited name => inheritedText name
  end.

(** lines 247-254 and 351-358: the requested authors with an entry in
    [authorMap], each replaced by the entry, and those without. *)
Fixpoint sortAuthors (authorMap : gmap jsstring jsstring)
    (authors : list jsstring) : list Property * list jsstring :=
  match authors with
  | [] => ([], [])
  | author :: authors' =>
    let lowercaseAuthor := toLowerCase unicodeLower author in
    let '(processedAuthors, invalidAuthors) :=
      sortAuthors authorMap authors' in
    match getProperty authorMap lowercaseAuthor with
    | Some p =>
      if truthy p then (p :: processedAuthors, invalidAuthors)
      else (processedAuthors, author :: invalidAuthors)
    | None => (processedAuthors, author :: invalidAuthors)
    end
  end.

(** lines 231-269 and 335-374: the validation of the requested authors,
    which leaves the array with the names as [authors.json] spells them. *)
Definition validateAuthors (authors : option (list jsstring))
  : Validation (option (list Property)) :=
  match authors with
  | None => Accepted None
  | Some authors =>
    match authorsFile with
    | None =>
      Rejected (Respond 500 (ErrorJson (str "Error validating authors")))
    | Some keys =>
      let authorMap := buildAuthorMap keys in
      let '(processedAuthors, invalidAuthors) :=
        sortAuthors authorMap authors in
      if (0 <? length invalidAuthors) then
        Rejected
          (Respond 400
             (ErrorJson (str "Invalid author(s): "
                         ++ join (str ", ") invalidAuthors)))
      else Accepted (Some processedAuthors)
    end
  end.

(** lines 273-289 and 378-394: the validation of the requested tags. *)
Definition validateTags (tags : list jsstring) : option Response :=
  match tagsFile with
  | None => Some (Respond 500 (ErrorJson (str "Error validating tags")))
  | Some names =>
    let validTags : gset jsstring := list_to_set names in
    let invalidTags :=
      List.filter (fun tag => negb (bool_decide (tag ∈ validTags))) tags in
    if (0 <? length invalidTags) then
      Some (Respond 400
              (ErrorJson (str "Invalid tag(s): "
                          ++ join (str ", ") invalidTags)))
    else None
  end.

(** lines 293, 397, 442 and 480 *)
Definition lengthsInverted (minLength maxLength : option Num) : bool :=
  match minLength, maxLength with
  | Some minLength, Some maxLength => gtNum minLength maxLength
  | _, _ => false
  end.

Definition invertedResponse : Response :=
  Respond 400
    (ErrorJson (str "minLength must be less than or equal to maxLength.")).

Definition notFound : Response :=
  Respond 404 (ErrorJson (str "No quotes found matching the criteria.")).

Definition commas (s : jsstring) : list jsstring := splitOn 44 s.

(** lines 214-306: [GET /api/quotes/random] *)
Definition randomRoute (query : Query.t) : Completion Response :=
  let maxLength := ifPresent (Query.maxLength query)
                             (fun s => Some (parseInt s)) None in
  let minLength := ifPresent (Query.minLength query)
                             (fun s => Some (parseInt s)) None in
  let tags :=
    ifPresent (Query.tags query)
              (fun s => Some (map (toLowerCase unicodeLower) (commas s)))
              None in
  let authors := ifPresent (Query.authors query)
                           (fun s => Some (commas s)) None in
  let count := ifPresent (Query.count query) parseInt (Int 1) in
  if isNaN count || ltNum count (Int 1) || gtNum count (Int 50) then
    Return (Respond 400
              (ErrorJson (str "Count must be a number between 1 and 50.")))
  else
    match validateAuthors authors with
    | Rejected response => Return response
    | Accepted authors =>
      match
        match tags with
        | Some tags => validateTags tags
        | None => None
        end
      with
      | Some response => Return response
      | None =>
        if lengthsInverted minLength maxLength then Return invertedResponse
        else
          quotes ← getQuotesNum maxLength minLength tags count
                                (map textOf <$> authors);
          match quotes with
          | Array quotes =>
            Return (Respond 200
                      (if decide (count = Int 1)
                       then QuoteJson (mjoin (quotes !! 0))
                       else QuotesJson quotes))
          | Null => Return notFound
          end
      end
    end.

(** lines 309-424: [GET /api/quotes/list] *)
Definition listRoute (query : Query.t) : Completion Response :=
  let maxLength := ifPresent (Query.maxLength query)
                             (fun s => Some (parseInt s)) None in
  let minLength := ifPresent (Query.minLength query)
                             (fun s => Some (parseInt s)) None in
  let exactTags := bool_decide (Query.exactTags query = Some (str "true")) in
  let tags :=
    ifPresent (Query.tags query)
              (fun s => Some (map (toLowerCase unicodeLower) (commas s)))
              None in
  let tagTerms :=
    if negb exactTags then ifPresent (Query.tags query) commas [] else [] in
  let authors := ifPresent (Query.authors query)
                           (fun s => Some (commas s)) None in
  let limit := ifPresent (Query.limit query) parseInt (Int 10) in
  if isNaN limit || ltNum limit (Int 1) || gtNum limit (Int 100) then
    Return (Respond 400
              (ErrorJson (str "Limit must be a number between 1 and 100.")))
  else
    match validateAuthors authors with
    | Rejected response => Return response
    | Accepted authors =>
      match
        match tags with
        | Some tags => if exactTags then validateTags tags else None
        | None => None
        end
      with
      | Some response => Return response
      | None =>
        if lengthsInverted minLength maxLength then Return invertedResponse
        else
          quotes ←
            (if exactTags then
               getQuotesNum maxLength minLength tags limit
                            (map textOf <$> authors)
             else
               searchQuotesNum maxLength minLength (Some tagTerms) limit
                               (Some []));
          match quotes with
          | Array quotes => Return (Respond 200 (QuotesJson quotes))
          | Null => Return notFound
          end
      end
    end.

(** lines 427-462: [GET /api/quotes/author-search] *)
Definition authorSearchRoute (query : Query.t) : Completion Response :=
  let maxLength := ifPresent (Query.maxLength query)
                             (fun s => Some (parseInt s)) None in
  let minLength := ifPresent (Query.minLength query)
                             (fun s => Some (parseInt s)) None in
  let tagTerms := ifPresent (Query.tags query) commas [] in
  let authorTerms := ifPresent (Query.terms query) commas [] in
  let limit := ifPresent (Query.limit query) parseInt (Int 10) in
  if isNaN limit || ltNum limit (Int 1) || gtNum limit (Int 100) then
    Return (Respond 400
              (ErrorJson (str "Limit must be a number between 1 and 100.")))
  else if lengthsInverted minLength maxLength then Return invertedResponse
  else
    quotes ← searchQuotesNum maxLength minLength (Some tagTerms) limit
                             (Some authorTerms);
    match quotes with
    | Array quotes => Return (Respond 200 (QuotesJson quotes))
    | Null => Return notFound
    end.

(** lines 465-500: [GET /api/quotes/search] *)
Definition searchRoute (query : Query.t) : Completion Response :=
  let maxLength := ifPresent (Query.maxLength query)
                             (fun s => Some (parseInt s)) None in
  let minLength := ifPresent (Query.minLength query)
                             (fun s => Some (parseInt s)) None in
  let tagTerms := ifPresent (Query.tags query) commas [] in
  let authorTerms := ifPresent (Query.authors query) commas [] in
  let limit := ifPresent (Query.limit query) parseInt (Int 10) in
  if isNaN limit || ltNum limit (Int 1) || gtNum limit (Int 100) then
    Return (Respond 400
              (ErrorJson (str "Limit must be a number between 1 and 100.")))
  else if lengthsInverted minLength maxLength then Return invertedResponse
  else
    quotes ← searchQuotesNum maxLength minLength (Some tagTerms) limit
                             (Some authorTerms);
    match quotes with
    | Array quotes => Return (Respond 200 (QuotesJson quotes))
    | Null => Return notFound
    end.

End Routes.

(* ===================================================================== *)
(** * Vocabulary of the statements on the routes *)
(* ===================================================================== *)

(** [quote] is within the bounds a route has read: a bound that is no
    number lets no quote through. *)
Definition withinLengthNum (minLength maxLength : option Num)
    (quote : Quote.t) : bool :=
  match minLength with
  | Some minLength => geNum (Int (Quote.length quote)) minLength
  | None => true
  end
  &&
  match maxLength with
  | Some maxLength => leNum (Int (Quote.length quote)) maxLength
  | None => true
  end.

(** The integer a lower bound stands for: none when every length passes,
    and no bound at all ([None]) when none does. *)
Definition minBound (minLength : option Num) : option (option Z) :=
  match minLength with
  | None | Some NegInfinity => Some None
  | Some (Int z) => Some (Some z)
  | Some NaN | Some PosInfinity => None
  end.

Definition maxBound (maxLength : option Num) : option (option Z) :=
  match maxLength with
  | None | Some PosInfinity => Some None
  | Some (Int z) => Some (Some z)
  | Some NaN | Some NegInfinity => None
  end.

(** Integer bounds ([minLength], [maxLength]) that let the same quotes
    through; 1 and 0 when one of the bounds lets none through. *)
Definition boundsOf (minLength maxLength : option Num)
  : option Z * option Z :=
  match minBound minLength, maxBound maxLength with
  | Some lo, Some hi => (lo, hi)
  | _, _ => (Some 1%Z, Some 0%Z)
  end.

(** The bound a route reads from a query parameter (lines 215-216). *)
Definition boundOf (toDouble : N → Z → Num) (parameter : option jsstring)
  : option Num :=
  ifPresent parameter (fun s => Some (parseInt toDouble s)) None.

(** The number a route reads from [count] or [limit], with its default. *)
Definition countOf (toDouble : N → Z → Num) (parameter : option jsstring)
    (default : Z) : Num :=
  ifPresent parameter (parseInt toDouble) (Int default).

(** The pieces of a list parameter, none when it is absent or empty. *)
Definition piecesOf (parameter : option jsstring) : list jsstring :=
  ifPresent parameter commas [].

(** What the validation makes of a requested author: the entry of
    [authorMap] under its lowercase spelling, when there is a truthy one. *)
Definition canonical (unicodeLower : jsstring → jsstring)
    (authorMap : gmap jsstring jsstring) (author : jsstring)
  : option Property :=
  match getProperty authorMap (toLowerCase unicodeLower author) with
  | Some p => if truthy p then Some p else None
  | None => None
  end.

(** The validation finds no entry for a requested author. *)
Definition unknown (unicodeLower : jsstring → jsstring)
    (authorMap : gmap jsstring jsstring) (author : jsstring) : bool :=
  match canonical unicodeLower authorMap author with
  | Some _ => false
  | None => true
  end.

Section RouteVocabulary.

Variable unicodeLower : jsstring → jsstring.
Variable toDouble : N → Z → Num.
Variable inheritedText : jsstring → jsstring.
Variable quotesData : list Quote.t.
Variables authorsFile tagsFile : option (list jsstring).

(** [text] is what the validation puts in the place of the requested
    [author]: a key of [authors.json] with the same lowercase spelling, or
    the text of what [Object.prototype] holds under that spelling. *)
Definition spelled (author text : jsstring) : Prop :=
  (∃ keys, authorsFile = Some keys ∧ text ∈ keys
           ∧ toLowerCase unicodeLower text = toLowerCase unicodeLower author)
  ∨ (toLowerCase unicodeLower author ∈ objectPrototypeNames
     ∧ text = inheritedText (toLowerCase unicodeLower author)).

(** [quote] answers the exact criteria of [query]: it is a quote of the
    corpus within the bounds, it carries every requested tag in lowercase,
    a name of [tags.json], and its author is, once normalised, one of the
    requested authors as the validation spells it. *)
Definition served (query : Query.t) (quote : Quote.t) : Prop :=
  quote ∈ quotesData
  ∧ withinLengthNum (boundOf toDouble (Query.minLength query))
                    (boundOf toDouble (Query.maxLength query)) quote = true
  ∧ (∀ tag, tag ∈ piecesOf (Query.tags query) →
       toLowerCase unicodeLower tag ∈ Quote.tags quote
       ∧ ∃ names, tagsFile = Some names
                  ∧ toLowerCase unicodeLower tag ∈ names)
  ∧ (piecesOf (Query.authors query) ≠ [] →
       ∃ author text normalized,
         author ∈ piecesOf (Query.authors query)
         ∧ spelled author text
         ∧ normalizeAuthorName unicodeLower text = Return normalized
         ∧ normalizeAuthorName unicodeLower (Quote.author quote)
           = Return normalized).

(** [quote] answers the search criteria of [query], the author terms being
    those of [authorTerms]: it is a quote of the corpus within the bounds,
    every tag term is part of one of its tags and every author term part of
    its author, case apart. *)
Definition found (query : Query.t) (authorTerms : option jsstring)
    (quote : Quote.t) : Prop :=
  quote ∈ quotesData
  ∧ withinLengthNum (boundOf toDouble (Query.minLength query))
                    (boundOf toDouble (Query.maxLength query)) quote = true
  ∧ (∀ term, term ∈ piecesOf (Query.tags query) →
       ∃ tag, tag ∈ Quote.tags quote
              ∧ substring (toLowerCase unicodeLower term)
                          (toLowerCase unicodeLower tag))
  ∧ (∀ term, term ∈ piecesOf authorTerms →
       ∃ quoteAuthor normalized,
         normalizeAuthorName unicodeLower (Quote.author quote)
         = Return quoteAuthor
         ∧ normalizeAuthorName unicodeLower term = Return normalized
         ∧ substring normalized quoteAuthor).

End RouteVocabulary.

(** An answer 200 that is an array: at least one quote and at most as many
    as the limit read from the query, each of them [good]. *)
Definition arrayAnswer (toDouble : N → Z → Num) (query : Query.t)
    (good : Quote.t → Prop) (body : Json) : Prop :=
  ∃ (limit : Z) (quotes : list Quote.t),
    countOf toDouble (Query.limit query) 10 = Int limit
    ∧ (1 ≤ limit ≤ 100)%Z
    ∧ body = QuotesJson (Some <$> quotes)
    ∧ 1 ≤ length quotes ≤ Z.to_nat limit
    ∧ Forall good quotes.

(** [quote] passes the three filters of [getQuotes] as the random route
    calls it for [query], the requested authors being the validated
    [entries]. *)
Definition meets (unicodeLower : jsstring → jsstring)
    (toDouble : N → Z → Num) (inheritedText : jsstring → jsstring)
    (query : Query.t) (entries : option (list Property)) (quote : Quote.t)
  : bool :=
  holds (hasMatchingAuthor unicodeLower quote
           (map (textOf inheritedText) <$> entries))
  && hasMatchingTags quote
       (ifPresent (Query.tags query)
          (fun s => Some (map (toLowerCase unicodeLower) (commas s))) None)
  && withinLengthNum (boundOf toDouble (Query.minLength query))
                     (boundOf toDouble (Query.maxLength query)) quote.

Module SampleRoutes.
(** The keys of an [authors.json] and a [tags.json] for [Sample.corpus]. *)
Definition authorsFile : option (list jsstring) :=
  Some [str "Mark Twain"; str "Oscar Wilde"; str "bell hooks"].
Definition tagsFile : option (list jsstring) :=
  Some [str "wisdom"; str "life"; str "humor"; str "tough-love";
        str "lifestyle"].

(** A runtime in which every integer read is kept as it is. *)
Definition exact (R : N) (z : Z) : Num := Int z.

(** The text of the built-in functions, and of [Object.prototype]. *)
Definition nativeText (name : jsstring) : jsstring :=
  if decide (name = str "__proto__") then str "[object Object]"
  else if decide (name = str "constructor")
       then str "function Object() { [native code] }"
       else str "function " ++ name ++ str "() { [native code] }".
End SampleRoutes.

Module SampleQueries.
(** [?maxLength=60&minLength=43&tags=Life&authors=MARK TWAIN,oscar wilde
    &count=3&limit=5&exactTags=true] *)
Definition exact : Query.t :=
  Query.Build (Some (str "60")) (Some (str "43")) (Some (str "Life"))
              (Some (str "MARK TWAIN,oscar wilde")) (Some (str "3"))
              (Some (str "5")) (Some (str "true")) None.

(** [?tags=LI&authors=o&terms=o] *)
Definition partial : Query.t :=
  Query.Build None None (Some (str "LI")) (Some (str "o")) None None None
              (Some (str "o")).


(** [?tags=Wisdom,nope,Zen&authors=mark twain&count=2&limit=5
    &exactTags=true] *)
Definition strangeTags : Query.t :=
  Query.Build None None (Some (str "Wisdom,nope,Zen"))
              (Some (str "mark twain")) (Some (str "2"))
              (Some (str "5")) (Some (str "true")) None.

(** [?minLength=abc] *)
Definition noNumber : Query.t :=
  Query.Build None (Some (str "abc")) None None None None None None.
End SampleQueries.

(* ===================================================================== *)
(** * Completions and array methods *)
(* ===================================================================== *)

Lemma bind_Return {A B} (f : A → Completion B) (a : A) :
  (Return a ≫= f) = f a.
Proof. reflexivity. Qed.

Lemma bind_Throw {A B} (f : A → Completion B) (e : Error) :
  (Throw e ≫= f) = Throw e.
Proof. reflexivity. Qed.

Lemma bind_Return_inv {A B} (m : Completion A) (f : A → Completion B) b :
  (m ≫= f) = Return b → ∃ a, m = Return a ∧ f a = Return b.
Proof. destruct m as [a|e]; [eauto | discriminate]. Qed.

(** Unfold a bind whose first computation is known. *)
Ltac creduce :=
  repeat match goal with
         | H : context [Return _ ≫= _] |- _ => rewrite bind_Return in H
         | H : context [Throw _ ≫= _] |- _ => rewrite bind_Throw in H
         | |- context [Return _ ≫= _] => rewrite bind_Return
         | |- context [Throw _ ≫= _] => rewrite bind_Throw
         end.

Section ArrayMethods.
Context {A : Type}.
Implicit Types (p : A → Completion bool) (l : list A).

Lemma some_true p l :
  Arr.some p l = Return true → ∃ x, x ∈ l ∧ p x = Return true.
Proof.
  induction l as [|x l IH]; simpl; [discriminate|].
  destruct (p x) as [[]|e] eqn:Hx; creduce; intros H; try discriminate.
  - exists x. split; [left | done].
  - destruct (IH H) as (y & Hy & Hp). exists y. split; [by right | done].
Qed.

Lemma some_false p l :
  Arr.some p l = Return false ↔ ∀ x, x ∈ l → p x = Return false.
Proof.
  induction l as [|x l IH]; simpl.
  - split; [intros _ y Hy; inversion Hy | done].
  - destruct (p x) as [[]|e] eqn:Hx; creduce.
    + split; [discriminate|]. intros H.
      specialize (H x (list_elem_of_here _ _)). congruence.
    + rewrite IH. split.
      * intros H y Hy. inversion Hy; subst; eauto.
      * intros H y Hy. apply H. by right.
    + split; [discriminate|]. intros H.
      specialize (H x (list_elem_of_here _ _)). congruence.
Qed.

Lemma some_returns p l :
  (∀ x, x ∈ l → ∃ b, p x = Return b) → ∃ b, Arr.some p l = Return b.
Proof.
  induction l as [|x l IH]; simpl; intros H; [eauto|].
  destruct (H x (list_elem_of_here _ _)) as [[] ->]; creduce; [eauto|].
  apply IH. intros y Hy. apply H. by right.
Qed.

Lemma every_true p l :
  Arr.every p l = Return true ↔ ∀ x, x ∈ l → p x = Return true.
Proof.
  induction l as [|x l IH]; simpl.
  - split; [intros _ y Hy; inversion Hy | done].
  - destruct (p x) as [[]|e] eqn:Hx; creduce.
    + rewrite IH. split.
      * intros H y Hy. inversion Hy; subst; eauto.
      * intros H y Hy. apply H. by right.
    + split; [discriminate|]. intros H.
      specialize (H x (list_elem_of_here _ _)). congruence.
    + split; [discriminate|]. intros H.
      specialize (H x (list_elem_of_here _ _)). congruence.
Qed.

(** A [filter] that returns has run its callback on every element. *)
Lemma filter_Return p l kept :
  Arr.filter p l = Return kept →
  (∀ x, x ∈ l → ∃ b, p x = Return b)
  ∧ kept = List.filter (fun x => holds (p x)) l.
Proof.
  revert kept. induction l as [|x l IH]; simpl; intros kept H.
  - injection H as <-. split; [intros y Hy; inversion Hy | done].
  - destruct (p x) as [b|e] eqn:Hx; creduce; [|discriminate].
    destruct (Arr.filter p l) as [k|e] eqn:Hl; creduce; [|discriminate].
    injection H as <-. destruct (IH k eq_refl) as [Hall ->]. split.
    + intros y Hy. inversion Hy; subst; eauto.
    + simpl. by destruct b.
Qed.

Lemma filter_returns p l :
  (∀ x, x ∈ l → ∃ b, p x = Return b) →
  Arr.filter p l = Return (List.filter (fun x => holds (p x)) l).
Proof.
  induction l as [|x l IH]; simpl; intros H; [done|].
  destruct (H x (list_elem_of_here _ _)) as [b Hb]. rewrite Hb. creduce.
  rewrite IH; [|intros y Hy; apply H; by right]. creduce.
  simpl. by destruct b.
Qed.

(** A [filter] throws what its callback throws. *)
Lemma filter_Throw p l e :
  Arr.filter p l = Throw e → ∃ x, x ∈ l ∧ p x = Throw e.
Proof.
  induction l as [|x l IH]; simpl; [discriminate|].
  destruct (p x) as [b|e'] eqn:Hx; creduce.
  - destruct (Arr.filter p l) as [k|e'] eqn:Hl; creduce; [discriminate|].
    intros [= ->]. destruct (IH eq_refl) as (y & Hy & Hp).
    exists y. split; [by right | done].
  - intros [= ->]. exists x. split; [left | done].
Qed.

End ArrayMethods.

Lemma filter_nil_iff {A} (f : A → bool) (l : list A) :
  List.filter f l = [] ↔ ∀ x, x ∈ l → f x = false.
Proof.
  induction l as [|x l IH]; simpl.
  - split; [intros _ y Hy; inversion Hy | done].
  - destruct (f x) eqn:Hx.
    + split; [discriminate|]. intros H.
      specialize (H x (list_elem_of_here _ _)). congruence.
    + rewrite IH. split.
      * intros H y Hy. inversion Hy; subst; eauto.
      * intros H y Hy. apply H. by right.
Qed.

Lemma filter_filter_and {A} (f g : A → bool) (l : list A) :
  List.filter g (List.filter f l) = List.filter (fun x => f x && g x) l.
Proof.
  induction l as [|x l IH]; simpl; [done|].
  destruct (f x); simpl; [destruct (g x)|]; by rewrite ?IH.
Qed.

Lemma filter_ext_elem {A} (f g : A → bool) (l : list A) :
  (∀ x, x ∈ l → f x = g x) → List.filter f l = List.filter g l.
Proof.
  induction l as [|x l IH]; simpl; intros H; [done|].
  rewrite (H x (list_elem_of_here _ _)), IH; [done|].
  intros y Hy. apply H. by right.
Qed.

Lemma filter_true {A} (l : list A) : List.filter (fun _ => true) l = l.
Proof. induction l; simpl; congruence. Qed.

(* ===================================================================== *)
(** * Substrings *)
(* ===================================================================== *)

Lemma startsWith_spec (s t : jsstring) :
  startsWith s t = true ↔ ∃ post, s = t ++ post.
Proof.
  revert s. induction t as [|b t IH]; intros s; simpl.
  - split; [eauto | done].
  - destruct s as [|a s].
    + split; [discriminate | intros [post H]; discriminate].
    + rewrite andb_true_iff, N.eqb_eq, IH. split.
      * intros [-> [post ->]]. eauto.
      * intros [post [= -> ->]]. eauto.
Qed.

Lemma includes_spec (s t : jsstring) :
  includes s t = true ↔ substring t s.
Proof.
  unfold substring. induction s as [|a s IH]; simpl.
  - rewrite orb_false_r, startsWith_spec. split.
    + intros [post H]. exists [], post. done.
    + intros (pre & post & H). symmetry in H.
      apply app_eq_nil in H as [-> H]. exists post. done.
  - rewrite orb_true_iff, startsWith_spec, IH. split.
    + intros [[post H] | (pre & post & ->)].
      * exists [], post. done.
      * exists (a :: pre), post. done.
    + intros (pre & post & H). destruct pre as [|a' pre].
      * left. exists post. done.
      * right. injection H as -> ->. eauto.
Qed.

(* ===================================================================== *)
(** * The predicates over one quote *)
(* ===================================================================== *)

Section Predicates.

Variable unicodeLower : jsstring → jsstring.

Abbreviation normalizeAuthorName := (normalizeAuthorName unicodeLower).
Abbreviation toLowerCase := (toLowerCase unicodeLower).
Abbreviation hasMatchingAuthor := (hasMatchingAuthor unicodeLower).
Abbreviation hasPartialAuthorMatch := (hasPartialAuthorMatch unicodeLower).
Abbreviation hasPartialTagMatch := (hasPartialTagMatch unicodeLower).
Abbreviation authorAmong := (authorAmong unicodeLower).

Lemma normalizeAuthorName_wellFormed (s : jsstring) :
  wellFormed s = true ↔ ∃ n, normalizeAuthorName s = Return n.
Proof.
  unfold wellFormed, Api.normalizeAuthorName.
  destruct (decodeURIComponent s) as [d|e]; creduce.
  - split; eauto.
  - split; [discriminate | intros [n H]; discriminate].
Qed.

Lemma forallb_wellFormed (l : list jsstring) :
  forallb wellFormed l = true →
  ∀ s, s ∈ l → ∃ n, normalizeAuthorName s = Return n.
Proof.
  rewrite forallb_forall. intros H s Hs.
  apply normalizeAuthorName_wellFormed, H. by apply list_elem_of_In.
Qed.

(** ** Exact author match *)

Lemma hasMatchingAuthor_null (quote : Quote.t) :
  hasMatchingAuthor quote None = Return true.
Proof. reflexivity. Qed.

Lemma hasMatchingAuthor_true (quote : Quote.t) (requested : list jsstring) :
  hasMatchingAuthor quote (Some requested) = Return true →
  authorAmong quote requested.
Proof.
  unfold Api.hasMatchingAuthor. intros H.
  apply bind_Return_inv in H as (qa & Hqa & H).
  apply some_true in H as (author & Hin & H).
  apply bind_Return_inv in H as (n & Hn & H).
  injection H as H. apply bool_decide_eq_true in H as ->.
  exists author, qa. done.
Qed.

Lemma hasMatchingAuthor_complete (quote : Quote.t)
    (requested : list jsstring) :
  forallb wellFormed requested = true →
  authorAmong quote requested →
  hasMatchingAuthor quote (Some requested) = Return true.
Proof.
  intros Hwf (author & n & Hin & Hn & Hq).
  unfold Api.hasMatchingAuthor. rewrite Hq. creduce.
  set (p := fun a : jsstring => _).
  destruct (some_returns p requested) as [[] Hb]; [|done|].
  - intros a Ha. unfold p.
    destruct (forallb_wellFormed _ Hwf a Ha) as [m ->].
    creduce. eauto.
  - exfalso. rewrite some_false in Hb. specialize (Hb author Hin).
    unfold p in Hb. rewrite Hn in Hb. creduce.
    injection Hb as Hb. by rewrite bool_decide_eq_false in Hb.
Qed.

(** With an empty array of authors the predicate never answers [true]. *)
Lemma hasMatchingAuthor_empty (quote : Quote.t) :
  holds (hasMatchingAuthor quote (Some [])) = false.
Proof.
  unfold Api.hasMatchingAuthor.
  by destruct (normalizeAuthorName (Quote.author quote)).
Qed.

Lemma hasMatchingAuthor_returns (quote : Quote.t)
    (authors : option (list jsstring)) :
  wellFormed (Quote.author quote) = true →
  forallb wellFormed (listed authors) = true →
  ∃ b, hasMatchingAuthor quote authors = Return b.
Proof.
  intros Hq Hwf. destruct authors as [requested|]; [|by exists true].
  unfold Api.hasMatchingAuthor.
  apply normalizeAuthorName_wellFormed in Hq as [qa ->]. creduce.
  apply some_returns. intros a Ha.
  destruct (forallb_wellFormed _ Hwf a Ha) as [m ->].
  creduce. eauto.
Qed.

(** ** Exact tag match *)

Lemma hasMatchingTags_spec (quote : Quote.t) (requested : list jsstring) :
  hasMatchingTags quote (Some requested) = true ↔
  ∀ tag, tag ∈ requested → tag ∈ Quote.tags quote.
Proof.
  unfold hasMatchingTags. rewrite forallb_forall. split.
  - intros H tag Hin. apply list_elem_of_In, H in Hin.
    apply bool_decide_eq_true in Hin. by apply elem_of_list_to_set in Hin.
  - intros H tag Hin. apply bool_decide_eq_true, elem_of_list_to_set, H.
    by apply list_elem_of_In.
Qed.

Lemma hasMatchingTags_empty (quote : Quote.t) :
  hasMatchingTags quote (Some []) = true.
Proof. reflexivity. Qed.

(** ** Partial matches *)

Lemma hasPartialTagMatch_spec (quote : Quote.t) (terms : list jsstring) :
  hasPartialTagMatch quote (Some terms) = true ↔
  ∀ term, term ∈ terms →
    ∃ tag, tag ∈ Quote.tags quote
           ∧ substring (toLowerCase term) (toLowerCase tag).
Proof.
  unfold Api.hasPartialTagMatch.
  destruct (decide (length terms = 0)) as [Hlen|Hlen].
  { apply nil_length_inv in Hlen as ->.
    split; [intros _ t Ht; inversion Ht | done]. }
  rewrite forallb_forall. split.
  - intros H term Hin. apply list_elem_of_In, H in Hin.
    apply existsb_exists in Hin as (ltag & Hl & Hinc).
    apply in_map_iff in Hl as (tag & <- & Htag).
    exists tag. split; [by apply list_elem_of_In|].
    by apply includes_spec.
  - intros H term Hin. apply list_elem_of_In, H in Hin as (tag & Htag & Hs).
    apply existsb_exists. exists (toLowerCase tag). split.
    + apply in_map. by apply list_elem_of_In.
    + by apply includes_spec.
Qed.

Lemma hasPartialAuthorMatch_spec (quote : Quote.t) (terms : list jsstring) :
  hasPartialAuthorMatch quote (Some terms) = Return true ↔
  ∀ term, term ∈ terms →
    ∃ quoteAuthor normalized,
      normalizeAuthorName (Quote.author quote) = Return quoteAuthor
      ∧ normalizeAuthorName term = Return normalized
      ∧ substring normalized quoteAuthor.
Proof.
  unfold Api.hasPartialAuthorMatch.
  destruct (decide (length terms = 0)) as [Hlen|Hlen].
  { apply nil_length_inv in Hlen as ->.
    split; [intros _ t Ht; inversion Ht | done]. }
  split.
  - intros H. apply bind_Return_inv in H as (qa & Hqa & H).
    rewrite every_true in H. intros term Hin.
    specialize (H term Hin). apply bind_Return_inv in H as (n & Hn & H).
    injection H as H. exists qa, n. by rewrite <- includes_spec.
  - intros H. destruct terms as [|t0 terms]; [done|].
    destruct (H t0 (list_elem_of_here _ _)) as (qa & n0 & Hqa & _ & _).
    rewrite Hqa. creduce. apply every_true. intros term Hin.
    destruct (H term Hin) as (qa' & n & Hqa' & -> & Hs). creduce.
    assert (qa' = qa) as -> by congruence.
    f_equal. by apply includes_spec.
Qed.

Lemma hasPartialAuthorMatch_not_given (quote : Quote.t)
    (terms : option (list jsstring)) :
  given terms = false → hasPartialAuthorMatch quote terms = Return true.
Proof.
  destruct terms as [[|t terms]|]; simpl; [done| |done].
  intros H. apply Nat.ltb_ge in H. simpl in H. lia.
Qed.

Lemma hasPartialTagMatch_not_given (quote : Quote.t)
    (terms : option (list jsstring)) :
  given terms = false → hasPartialTagMatch quote terms = true.
Proof.
  destruct terms as [[|t terms]|]; simpl; [done| |done].
  intros H. apply Nat.ltb_ge in H. simpl in H. lia.
Qed.

Lemma hasPartialAuthorMatch_returns (quote : Quote.t)
    (terms : option (list jsstring)) :
  wellFormed (Quote.author quote) = true →
  forallb wellFormed (listed terms) = true →
  ∃ b, hasPartialAuthorMatch quote terms = Return b.
Proof.
  intros Hq Hwf. destruct terms as [terms|]; [|by exists true].
  destruct (hasPartialAuthorMatch quote (Some terms)) as [b|e] eqn:E;
    [eauto|exfalso].
  unfold Api.hasPartialAuthorMatch in E.
  destruct (decide (length terms = 0)); [done|].
  apply normalizeAuthorName_wellFormed in Hq as [qa Hqa].
  rewrite Hqa in E. creduce.
  pose proof (forallb_wellFormed _ Hwf) as Hwf'. simpl in Hwf'.
  clear -E Hwf'. rename Hwf' into Hwf. induction terms as [|t terms IH]; simpl in E; [done|].
  destruct (Hwf t (list_elem_of_here _ _)) as [n Hn].
  rewrite Hn in E. creduce. destruct (includes qa n); [|done].
  apply IH; [done|]. intros s Hs. apply Hwf. by right.
Qed.

End Predicates.

(* ===================================================================== *)
(** * The sampling loop *)
(* ===================================================================== *)

Lemma floorScale_lt (r : Fraction) (n : nat) : 0 < n → floorScale r n < n.
Proof.
  intros Hn. unfold floorScale.
  apply Nat.Div0.div_lt_upper_bound. nia.
Qed.


Section Sampler.

Variable random : nat → Fraction.
Context {A : Type}.
Implicit Types (quotes : list (option A)) (tempQuotes : list A).

Abbreviation drawLoop := (drawLoop random).
Abbreviation drawQuotes := (drawQuotes random).

(** A turn on a non-empty working copy pushes the element at the drawn
    index and removes it. *)
Lemma draw_nonempty r quotes tempQuotes :
  0 < length tempQuotes →
  ∃ x, tempQuotes !! floorScale r (length tempQuotes) = Some x
       ∧ draw r (quotes, tempQuotes)
         = (quotes ++ [Some x],
            delete (floorScale r (length tempQuotes)) tempQuotes).
Proof.
  intros Hlen.
  destruct (lookup_lt_is_Some_2 tempQuotes
              (floorScale r (length tempQuotes))) as [x Hx].
  { by apply floorScale_lt. }
  exists x. split; [done|]. unfold draw, Arr.splice1. by rewrite Hx.
Qed.

Lemma drawLoop_S i n (st : list (option A) * list A) :
  drawLoop i (S n) st = drawLoop (S i) n (draw (random i) st).
Proof. reflexivity. Qed.

Lemma drawLoop_snoc i n (st : list (option A) * list A) :
  drawLoop i (S n) st = draw (random (i + n)) (drawLoop i n st).
Proof.
  revert i st. induction n as [|n IH]; intros i st.
  - simpl. by rewrite Nat.add_0_r.
  - rewrite drawLoop_S, IH, drawLoop_S. do 2 f_equal. lia.
Qed.

(** [n] turns on a working copy of at least [n] elements move [n] of them,
    each once, to the end of [quotes]. *)
Lemma drawLoop_moves i n quotes tempQuotes :
  n ≤ length tempQuotes →
  ∃ drawn rest,
    drawLoop i n (quotes, tempQuotes) = (quotes ++ (Some <$> drawn), rest)
    ∧ length drawn = n
    ∧ drawn ++ rest ≡ₚ tempQuotes.
Proof.
  revert i quotes tempQuotes.
  induction n as [|n IH]; intros i quotes tempQuotes Hn.
  - exists [], tempQuotes. simpl. by rewrite app_nil_r.
  - destruct (draw_nonempty (random i) quotes tempQuotes)
      as (x & Hx & Hdraw); [lia|].
    rewrite drawLoop_S, Hdraw.
    destruct (IH (S i) (quotes ++ [Some x])
                 (delete (floorScale (random i) (length tempQuotes))
                         tempQuotes))
      as (drawn & rest & Hloop & Hlen & Hperm).
    { rewrite length_delete by eauto. lia. }
    exists (x :: drawn), rest. split; [|split].
    + rewrite Hloop. by rewrite <- app_assoc.
    + simpl. by rewrite Hlen.
    + simpl. rewrite Hperm. symmetry. by apply delete_Permutation.
Qed.

Lemma drawLoop_length i n quotes tempQuotes :
  n ≤ length tempQuotes →
  length (drawLoop i n (quotes, tempQuotes)).2 = length tempQuotes - n.
Proof.
  intros Hn.
  destruct (drawLoop_moves i n quotes tempQuotes Hn)
    as (drawn & rest & -> & Hlen & Hperm).
  simpl. apply Permutation_length in Hperm.
  rewrite length_app in Hperm. lia.
Qed.

End Sampler.

(** The loop does not look at the elements: related working copies give
    related results. *)
Lemma drawLoop_related random {A B} (R : A → B → Prop) i n
    (quotes1 : list (option A)) (tempQuotes1 : list A)
    (quotes2 : list (option B)) (tempQuotes2 : list B) :
  Forall2 (option_Forall2 R) quotes1 quotes2 →
  Forall2 R tempQuotes1 tempQuotes2 →
  Forall2 (option_Forall2 R)
          (drawLoop random i n (quotes1, tempQuotes1)).1
          (drawLoop random i n (quotes2, tempQuotes2)).1
  ∧ Forall2 R (drawLoop random i n (quotes1, tempQuotes1)).2
              (drawLoop random i n (quotes2, tempQuotes2)).2.
Proof.
  revert i quotes1 tempQuotes1 quotes2 tempQuotes2.
  induction n as [|n IH]; intros i q1 t1 q2 t2 Hq Ht; [done|].
  rewrite !drawLoop_S. unfold draw.
  rewrite <- (Forall2_length _ _ _ Ht). apply IH.
  - apply Forall2_app; [done|]. constructor; [|constructor].
    by apply Forall2_lookup.
  - unfold Arr.splice1. by apply Forall2_delete.
Qed.

(** The positions of a list, paired with its elements. *)
Lemma positions_related {A} (l : list A) :
  Forall2 (fun p a => l !! p = Some a) (seq 0 (length l)) l.
Proof.
  apply Forall2_same_length_lookup_2; [by rewrite length_seq|].
  intros i p a Hp Ha. apply lookup_seq in Hp as [-> _]. done.
Qed.

(* ===================================================================== *)
(** * The candidates of the two matchers *)
(* ===================================================================== *)

Lemma filterLength_spec (minLength maxLength : option Z) (l : list Quote.t) :
  filterLength minLength maxLength l
  = List.filter (withinLength minLength maxLength) l.
Proof.
  unfold filterLength, withinLength.
  destruct minLength as [lo|], maxLength as [hi|]; simpl.
  - apply filter_filter_and.
  - apply filter_ext_elem. intros q _. by rewrite andb_true_r.
  - done.
  - by rewrite filter_true.
Qed.

(** The first checkpoint changes nothing: an empty list stays empty under
    the length filters. *)
Lemma checkpoints_spec (minLength maxLength : option Z) (l : list Quote.t) :
  (if decide (length l = 0) then Return None
   else if decide (length (filterLength minLength maxLength l) = 0)
        then Return None
        else Return (Some (filterLength minLength maxLength l)))
  = Return (nonEmpty (List.filter (withinLength minLength maxLength) l)).
Proof.
  rewrite filterLength_spec. unfold nonEmpty.
  destruct (decide (length l = 0)) as [Hl|Hl].
  - apply nil_length_inv in Hl as ->. done.
  - by destruct (decide _).
Qed.

Lemma nonEmpty_None (l : list Quote.t) : nonEmpty l = None ↔ l = [].
Proof.
  unfold nonEmpty. destruct (decide (length l = 0)) as [Hl|Hl].
  - apply nil_length_inv in Hl. done.
  - split; [done|]. intros ->. done.
Qed.

Lemma nonEmpty_Some (l v : list Quote.t) :
  nonEmpty l = Some v ↔ l = v ∧ v ≠ [].
Proof.
  unfold nonEmpty. destruct (decide (length l = 0)) as [Hl|Hl].
  - apply nil_length_inv in Hl as ->. split; [done|]. by intros [<- ?].
  - split.
    + intros [= <-]. split; [done|]. intros ->. done.
    + intros [-> _]. done.
Qed.

Section Candidates.

Variable unicodeLower : jsstring → jsstring.
Variable quotesData : list Quote.t.

Abbreviation hasMatchingAuthor := (hasMatchingAuthor unicodeLower).
Abbreviation hasPartialAuthorMatch := (hasPartialAuthorMatch unicodeLower).
Abbreviation hasPartialTagMatch := (hasPartialTagMatch unicodeLower).
Abbreviation getQuotes_candidates :=
  (getQuotes_candidates unicodeLower quotesData).
Abbreviation searchQuotes_candidates :=
  (searchQuotes_candidates unicodeLower quotesData).
Abbreviation getQuotes_matches := (getQuotes_matches unicodeLower).
Abbreviation searchQuotes_matches := (searchQuotes_matches unicodeLower).

Implicit Types (maxLength minLength : option Z).
Implicit Types (tags authors tagTerms authorTerms : option (list jsstring)).

Lemma tagStage_spec tags (l : list Quote.t) :
  match tags with
  | Some _ => List.filter (fun quote => hasMatchingTags quote tags) l
  | None => l
  end = List.filter (fun quote => hasMatchingTags quote tags) l.
Proof. destruct tags; [done|]. simpl. by rewrite filter_true. Qed.

Lemma partialTagStage_spec tagTerms (l : list Quote.t) :
  (if given tagTerms
   then List.filter (fun quote => hasPartialTagMatch quote tagTerms) l
   else l)
  = List.filter (fun quote => hasPartialTagMatch quote tagTerms) l.
Proof.
  destruct (given tagTerms) eqn:Hg; [done|].
  rewrite (filter_ext_elem _ (fun _ => true)), filter_true; [done|].
  intros q _. by apply hasPartialTagMatch_not_given.
Qed.

Lemma authorStage_returns authors :
  (∀ q, q ∈ quotesData → ∃ b, hasMatchingAuthor q authors = Return b) →
  match authors with
  | Some _ =>
    Arr.filter (fun quote => hasMatchingAuthor quote authors) quotesData
  | None => Return quotesData
  end
  = Return (List.filter (fun q => holds (hasMatchingAuthor q authors))
                        quotesData).
Proof.
  intros Hret. destruct authors; [by apply filter_returns|].
  simpl. by rewrite filter_true.
Qed.

Lemma partialAuthorStage_returns authorTerms :
  (∀ q, q ∈ quotesData →
        ∃ b, hasPartialAuthorMatch q authorTerms = Return b) →
  (if given authorTerms then
     Arr.filter (fun quote => hasPartialAuthorMatch quote authorTerms)
                quotesData
   else Return quotesData)
  = Return (List.filter
              (fun q => holds (hasPartialAuthorMatch q authorTerms))
              quotesData).
Proof.
  intros Hret. destruct (given authorTerms) eqn:Hg;
    [by apply filter_returns|].
  rewrite (filter_ext_elem _ (fun _ => true)), filter_true; [done|].
  intros q _. by rewrite hasPartialAuthorMatch_not_given.
Qed.

(** ** [getQuotes] *)

Lemma getQuotes_candidates_unfold maxLength minLength tags authors :
  getQuotes_candidates maxLength minLength tags authors
  = (kept ← match authors with
            | Some _ =>
              Arr.filter (fun quote => hasMatchingAuthor quote authors)
                         quotesData
            | None => Return quotesData
            end;
     Return (nonEmpty
               (List.filter
                  (fun q => hasMatchingTags q tags
                            && withinLength minLength maxLength q) kept))).
Proof.
  unfold Api.getQuotes_candidates. cbv zeta.
  destruct (match authors with Some _ => _ | None => _ end) as [kept|e];
    creduce; [|done].
  rewrite tagStage_spec, checkpoints_spec. by rewrite filter_filter_and.
Qed.

Lemma getQuotes_candidates_returns maxLength minLength tags authors :
  (∀ q, q ∈ quotesData → ∃ b, hasMatchingAuthor q authors = Return b) →
  getQuotes_candidates maxLength minLength tags authors
  = Return (nonEmpty (List.filter
                        (getQuotes_matches maxLength minLength tags authors)
                        quotesData)).
Proof.
  intros Hret.
  rewrite getQuotes_candidates_unfold, (authorStage_returns _ Hret).
  creduce. rewrite filter_filter_and. do 2 f_equal.
  apply filter_ext_elem. intros q _.
  apply andb_assoc.
Qed.

Lemma getQuotes_candidates_Return maxLength minLength tags authors c :
  getQuotes_candidates maxLength minLength tags authors = Return c →
  (∀ q, q ∈ quotesData → ∃ b, hasMatchingAuthor q authors = Return b)
  ∧ c = nonEmpty (List.filter
                    (getQuotes_matches maxLength minLength tags authors)
                    quotesData).
Proof.
  intros H.
  assert (∀ q, q ∈ quotesData → ∃ b, hasMatchingAuthor q authors = Return b)
    as Hret.
  { rewrite getQuotes_candidates_unfold in H.
    apply bind_Return_inv in H as (kept & Hkept & _).
    destruct authors as [requested|].
    - by apply filter_Return in Hkept as [? _].
    - intros q _. by exists true. }
  split; [done|].
  rewrite (getQuotes_candidates_returns _ _ _ _ Hret) in H. congruence.
Qed.

Lemma getQuotes_candidates_Throw maxLength minLength tags authors e :
  getQuotes_candidates maxLength minLength tags authors = Throw e →
  ∃ q, q ∈ quotesData ∧ hasMatchingAuthor q authors = Throw e.
Proof.
  rewrite getQuotes_candidates_unfold. intros H.
  destruct authors as [requested|]; [|done].
  destruct (Arr.filter _ quotesData) as [kept|e'] eqn:Hf; [done|].
  creduce. injection H as ->. by apply filter_Throw in Hf.
Qed.

(** ** [searchQuotes] *)

Lemma searchQuotes_candidates_unfold maxLength minLength tagTerms
    authorTerms :
  searchQuotes_candidates maxLength minLength tagTerms authorTerms
  = (kept ← (if given authorTerms then
               Arr.filter
                 (fun quote => hasPartialAuthorMatch quote authorTerms)
                 quotesData
             else Return quotesData);
     Return (nonEmpty
               (List.filter
                  (fun q => hasPartialTagMatch q tagTerms
                            && withinLength minLength maxLength q) kept))).
Proof.
  unfold Api.searchQuotes_candidates. cbv zeta.
  destruct (if given authorTerms then _ else _) as [kept|e];
    creduce; [|done].
  rewrite partialTagStage_spec, checkpoints_spec.
  by rewrite filter_filter_and.
Qed.

Lemma searchQuotes_candidates_returns maxLength minLength tagTerms
    authorTerms :
  (∀ q, q ∈ quotesData →
        ∃ b, hasPartialAuthorMatch q authorTerms = Return b) →
  searchQuotes_candidates maxLength minLength tagTerms authorTerms
  = Return (nonEmpty
              (List.filter
                 (searchQuotes_matches maxLength minLength tagTerms
                                       authorTerms)
                 quotesData)).
Proof.
  intros Hret.
  rewrite searchQuotes_candidates_unfold,
    (partialAuthorStage_returns _ Hret).
  creduce. rewrite filter_filter_and. do 2 f_equal.
  apply filter_ext_elem. intros q _.
  apply andb_assoc.
Qed.

Lemma searchQuotes_candidates_Return maxLength minLength tagTerms
    authorTerms c :
  searchQuotes_candidates maxLength minLength tagTerms authorTerms
  = Return c →
  c = nonEmpty (List.filter
                  (searchQuotes_matches maxLength minLength tagTerms
                                        authorTerms)
                  quotesData).
Proof.
  intros H.
  assert (∀ q, q ∈ quotesData →
               ∃ b, hasPartialAuthorMatch q authorTerms = Return b)
    as Hret.
  { rewrite searchQuotes_candidates_unfold in H.
    apply bind_Return_inv in H as (kept & Hkept & _).
    destruct (given authorTerms) eqn:Hg.
    - by apply filter_Return in Hkept as [? _].
    - intros q _. exists true. by apply hasPartialAuthorMatch_not_given. }
  rewrite (searchQuotes_candidates_returns _ _ _ _ Hret) in H. congruence.
Qed.

End Candidates.

(* ===================================================================== *)
(** * What the sampling loop returns *)
(* ===================================================================== *)

Section DrawQuotes.

Variable random : nat → Fraction.
Context {A : Type}.

Lemma drawQuotes_moves (count : Z) (validQuotes : list A) :
  ∃ drawn rest,
    drawQuotes random count validQuotes = Some <$> drawn
    ∧ length drawn = Z.to_nat (Z.min count (Z.of_nat (length validQuotes)))
    ∧ drawn ++ rest ≡ₚ validQuotes.
Proof.
  unfold Api.drawQuotes. cbv zeta.
  destruct (drawLoop_moves random 0
              (Z.to_nat (Z.min count (Z.of_nat (length validQuotes))))
              [] validQuotes) as (drawn & rest & -> & Hlen & Hperm); [lia|].
  exists drawn, rest. done.
Qed.

Lemma drawQuotes_length (count : Z) (validQuotes : list A) :
  length (drawQuotes random count validQuotes)
  = Z.to_nat (Z.min count (Z.of_nat (length validQuotes))).
Proof.
  destruct (drawQuotes_moves count validQuotes)
    as (drawn & rest & -> & Hlen & _).
  by rewrite length_fmap.
Qed.

Lemma drawQuotes_elements (count : Z) (validQuotes : list A) :
  Forall (fun entry => ∃ x, entry = Some x ∧ x ∈ validQuotes)
         (drawQuotes random count validQuotes).
Proof.
  destruct (drawQuotes_moves count validQuotes)
    as (drawn & rest & -> & _ & Hperm).
  apply Forall_fmap, Forall_forall. intros x Hx. exists x. split; [done|].
  rewrite <- Hperm. apply elem_of_app. by left.
Qed.

Lemma drawQuotes_nonpositive (count : Z) (validQuotes : list A) :
  (count ≤ 0)%Z → drawQuotes random count validQuotes = [].
Proof.
  intros Hc. apply nil_length_inv. rewrite drawQuotes_length. lia.
Qed.

End DrawQuotes.

(* ===================================================================== *)
(** * The filters of [getQuotes] in another order *)
(* ===================================================================== *)

Section Stages.

Variable unicodeLower : jsstring → jsstring.
Variables (maxLength minLength : option Z).
Variables (tags authors : option (list jsstring)).

Abbreviation applyStage :=
  (applyStage unicodeLower maxLength minLength tags authors).
Abbreviation applyStages :=
  (applyStages unicodeLower maxLength minLength tags authors).

Abbreviation stageKeeps :=
  (stageKeeps unicodeLower maxLength minLength tags authors).
Abbreviation authorReturns := (authorReturns unicodeLower authors).

Lemma authorReturns_filter (f : Quote.t → bool) (l : list Quote.t) :
  authorReturns l → authorReturns (List.filter f l).
Proof.
  intros H q Hq. apply H.
  apply list_elem_of_In, filter_In in Hq as [Hq _]. by apply list_elem_of_In.
Qed.

Lemma applyStage_returns (stage : Stage) (l : list Quote.t) :
  authorReturns l →
  applyStage stage l = Return (List.filter (stageKeeps stage) l).
Proof.
  intros Hret. destruct stage; simpl.
  - by apply authorStage_returns.
  - by rewrite tagStage_spec.
  - by rewrite filterLength_spec.
Qed.

Lemma applyStages_returns (stages : list Stage) (l : list Quote.t) :
  authorReturns l →
  applyStages stages l
  = Return (List.filter
              (fun q => forallb (fun stage => stageKeeps stage q) stages) l).
Proof.
  revert l. induction stages as [|stage stages IH]; intros l Hret; simpl.
  - by rewrite filter_true.
  - rewrite (applyStage_returns _ _ Hret). creduce.
    rewrite IH by by apply authorReturns_filter.
    by rewrite filter_filter_and.
Qed.

Lemma forallb_Permutation {B} (f : B → bool) (l k : list B) :
  l ≡ₚ k → forallb f l = forallb f k.
Proof.
  induction 1 as [|x l k _ IH|x y l|l k m _ IH1 _ IH2]; simpl.
  - done.
  - by rewrite IH.
  - by rewrite !andb_assoc, (andb_comm (f y)).
  - congruence.
Qed.

End Stages.

(* ===================================================================== *)
(** * Absent and empty filters *)
(* ===================================================================== *)

Section Vacuous.

Variable unicodeLower : jsstring → jsstring.
Variable random : nat → Fraction.
Variable quotesData : list Quote.t.

Abbreviation getQuotes := (getQuotes unicodeLower random quotesData).
Abbreviation searchQuotes := (searchQuotes unicodeLower random quotesData).

(** An empty array of tags filters like no tags at all. *)
Lemma getQuotes_empty_tags maxLength minLength count authors :
  getQuotes maxLength minLength (Some []) count authors
  = getQuotes maxLength minLength None count authors.
Proof.
  unfold Api.getQuotes.
  by rewrite !getQuotes_candidates_unfold.
Qed.

(** Empty arrays of search terms filter like no terms at all. *)
Lemma searchQuotes_empty_terms maxLength minLength limit :
  searchQuotes maxLength minLength (Some []) limit (Some [])
  = searchQuotes maxLength minLength None limit None.
Proof. reflexivity. Qed.

(** A quote is a candidate of [getQuotes] without author and tag filters
    as soon as its length is in the bounds. *)
Lemma getQuotes_matches_null maxLength minLength (quote : Quote.t) :
  getQuotes_matches unicodeLower maxLength minLength None None quote
  = withinLength minLength maxLength quote.
Proof. reflexivity. Qed.

(** An empty array of authors leaves no candidate. *)
Lemma getQuotes_empty_authors maxLength minLength tags count result :
  getQuotes maxLength minLength tags count (Some []) = Return result →
  result = Null.
Proof.
  unfold Api.getQuotes. intros H.
  apply bind_Return_inv in H as (c & Hc & H).
  apply getQuotes_candidates_Return in Hc as [_ ->].
  rewrite (proj2 (filter_nil_iff _ _)) in H.
  - simpl in H. congruence.
  - intros q _. unfold getQuotes_matches.
    by rewrite hasMatchingAuthor_empty.
Qed.

End Vacuous.


(* ===================================================================== *)
(** * Claims on the predicates *)
(* ===================================================================== *)

(** Claim C2 as it is stated fails when a requested author that precedes the
    matching one has a malformed escape: the call throws, although the
    normalised author equals the normalised form of a requested author. *)
Lemma hasMatchingAuthor_malformed_request :
  ¬ (hasMatchingAuthor Sample.noTables Sample.twain
                       (Some [str "%"; str "Mark Twain"]) = Return true
     ↔ authorAmong Sample.noTables Sample.twain [str "%"; str "Mark Twain"]).
Proof.
  intros [_ H].
  assert (hasMatchingAuthor Sample.noTables Sample.twain
                            (Some [str "%"; str "Mark Twain"])
          = Throw URIError) as Hthrow by (vm_compute; reflexivity).
  rewrite Hthrow in H. discriminate H.
  exists (str "Mark Twain"), (str "mark twain").
  split; [|split]; [|vm_compute; reflexivity..].
  right. left.
Qed.

(** Claim C2, amended: when every requested author decodes, the exact author
    predicate returns [true] if and only if the normalised author of the
    quote is the normalised form of one of the requested authors; the
    request ["mark%20twain"] matches the stored author ["Mark Twain"]. *)
Theorem hasMatchingAuthor_exact (unicodeLower : jsstring → jsstring) :
  (∀ (quote : Quote.t) (requested : list jsstring),
      forallb wellFormed requested = true →
      (hasMatchingAuthor unicodeLower quote (Some requested) = Return true
       ↔ authorAmong unicodeLower quote requested))
  ∧ (∀ quote : Quote.t,
        Quote.author quote = str "Mark Twain" →
        hasMatchingAuthor unicodeLower quote (Some [str "mark%20twain"])
        = Return true).
Proof.
  split.
  - intros quote requested Hwf. split.
    + apply hasMatchingAuthor_true.
    + by apply hasMatchingAuthor_complete.
  - intros quote Hq. unfold hasMatchingAuthor. rewrite Hq.
    vm_compute. reflexivity.
Qed.

Lemma hasMatchingAuthor_exact_witness :
  (hasMatchingAuthor Sample.noTables Sample.wilde
                     (Some [str "Mark Twain"; str "OSCAR%20wilde "])
   = Return true
   ↔ authorAmong Sample.noTables Sample.wilde
                 [str "Mark Twain"; str "OSCAR%20wilde "])
  ∧ hasMatchingAuthor Sample.noTables Sample.twain (Some [str "mark%20twain"])
    = Return true.
Proof.
  split.
  - apply (proj1 (hasMatchingAuthor_exact Sample.noTables)). reflexivity.
  - apply (proj2 (hasMatchingAuthor_exact Sample.noTables)). reflexivity.
Defined.

(** Claim C3: the exact tag predicate returns [true] if and only if every
    requested tag is one of the tags of the quote, compared as stored; a
    quote tagged wisdom and life matches [wisdom] and [wisdom, life], not
    [wisdom, humor], and not [Wisdom]. *)
Theorem hasMatchingTags_every_requested :
  (∀ (quote : Quote.t) (requested : list jsstring),
      hasMatchingTags quote (Some requested) = true
      ↔ ∀ tag, tag ∈ requested → tag ∈ Quote.tags quote)
  ∧ (∀ quote : Quote.t,
        Quote.tags quote = [str "wisdom"; str "life"] →
        hasMatchingTags quote (Some [str "wisdom"]) = true
        ∧ hasMatchingTags quote (Some [str "wisdom"; str "life"]) = true
        ∧ hasMatchingTags quote (Some [str "wisdom"; str "humor"]) = false
        ∧ hasMatchingTags quote (Some [str "Wisdom"]) = false).
Proof.
  split; [apply hasMatchingTags_spec|].
  intros quote Htags.
  assert (∀ requested,
             hasMatchingTags quote (Some requested)
             = forallb (fun tag => bool_decide
                          (tag ∈ [str "wisdom"; str "life"])) requested)
    as Heq.
  { intros requested. unfold hasMatchingTags. rewrite Htags.
    induction requested as [|tag requested IH]; [done|].
    cbn [forallb]. rewrite IH. f_equal. apply bool_decide_ext, elem_of_list_to_set. }
  rewrite !Heq. repeat split; vm_compute; reflexivity.
Qed.

Lemma hasMatchingTags_every_requested_witness :
  hasMatchingTags Sample.twain (Some [str "wisdom"]) = true
  ∧ hasMatchingTags Sample.twain (Some [str "wisdom"; str "life"]) = true
  ∧ hasMatchingTags Sample.twain (Some [str "wisdom"; str "humor"]) = false
  ∧ hasMatchingTags Sample.twain (Some [str "Wisdom"]) = false.
Proof.
  apply (proj2 hasMatchingTags_every_requested Sample.twain). reflexivity.
Defined.

(** Claim C4: the partial tag predicate returns [true] if and only if every
    term, lowercased, occurs in one of the lowercased tags of the quote, and
    the partial author predicate returns [true] if and only if every term,
    normalised, occurs in the normalised author. *)
Theorem partial_matches (unicodeLower : jsstring → jsstring)
    (quote : Quote.t) (terms : list jsstring) :
  (hasPartialTagMatch unicodeLower quote (Some terms) = true
   ↔ ∀ term, term ∈ terms →
       ∃ tag, tag ∈ Quote.tags quote
              ∧ substring (toLowerCase unicodeLower term)
                          (toLowerCase unicodeLower tag))
  ∧ (hasPartialAuthorMatch unicodeLower quote (Some terms) = Return true
     ↔ ∀ term, term ∈ terms →
         ∃ quoteAuthor normalized,
           normalizeAuthorName unicodeLower (Quote.author quote)
           = Return quoteAuthor
           ∧ normalizeAuthorName unicodeLower term = Return normalized
           ∧ substring normalized quoteAuthor).
Proof.
  split; [apply hasPartialTagMatch_spec | apply hasPartialAuthorMatch_spec].
Qed.

(** The example of the specification: the terms love and life match a quote
    tagged tough-love and lifestyle. *)
Example hasPartialTagMatch_love_life :
  hasPartialTagMatch Sample.noTables Sample.hooks
                     (Some [str "love"; str "LIFE"]) = true
  ∧ hasPartialAuthorMatch Sample.noTables Sample.hooks
                          (Some [str "BELL"; str "%20hoo"]) = Return true.
Proof. split; vm_compute; reflexivity. Qed.

(* ===================================================================== *)
(** * Claims on the sampling loop *)
(* ===================================================================== *)

Lemma related_positions {A} (l : list A) (positions : list nat)
    (quotes : list (option A)) :
  Forall2 (option_Forall2 (fun p a => l !! p = Some a))
          (Some <$> positions) quotes →
  quotes = (fun p => l !! p) <$> positions.
Proof.
  revert quotes. induction positions as [|p positions IH]; intros quotes H.
  - by inversion H.
  - inversion H as [|? entry ? quotes' Hp Hrest]; subst.
    rewrite fmap_cons. f_equal; [|by apply IH].
    inversion Hp; subst. done.
Qed.

(** Claim C7: the sampling loop of [getQuotes] and [searchQuotes] returns
    the elements at K pairwise distinct positions of the candidate list,
    K being the clamped count; each turn reads the working copy at an index
    inside it and removes that element, so that the working copy loses
    exactly one element per draw. *)
Theorem drawQuotes_distinct_positions (random : nat → Fraction) {A : Type}
    (count : Z) (validQuotes : list A) :
  let K := Z.to_nat (Z.min count (Z.of_nat (length validQuotes))) in
  (∃ positions : list nat,
      length positions = K
      ∧ NoDup positions
      ∧ Forall (fun p => p < length validQuotes) positions
      ∧ drawQuotes random count validQuotes
        = (fun p => validQuotes !! p) <$> positions)
  ∧ (∀ i, i < K →
       let st := drawLoop random 0 i ([], validQuotes) in
       let randomIndex := floorScale (random i) (length st.2) in
       length st.2 = length validQuotes - i
       ∧ randomIndex < length st.2
       ∧ drawLoop random 0 (S i) ([], validQuotes)
         = (st.1 ++ [st.2 !! randomIndex], delete randomIndex st.2)
       ∧ length (delete randomIndex st.2) = length validQuotes - S i).
Proof.
  intros K. assert (K ≤ length validQuotes) as HK by (unfold K; lia).
  split.
  - destruct (drawLoop_moves random 0 K [] (seq 0 (length validQuotes)))
      as (positions & rest & Hrun & Hlen & Hperm).
    { by rewrite length_seq. }
    exists positions. split; [done|].
    assert (NoDup (positions ++ rest)) as Hnodup.
    { rewrite Hperm. apply NoDup_seq. }
    split; [by apply NoDup_app in Hnodup as [? _]|]. split.
    + apply Forall_forall. intros p Hp.
      assert (p ∈ seq 0 (length validQuotes)) as Hin.
      { rewrite <- Hperm. apply elem_of_app. by left. }
      apply elem_of_seq in Hin. lia.
    + apply related_positions.
      pose proof (drawLoop_related random
                    (fun p a => validQuotes !! p = Some a) 0 K
                    [] (seq 0 (length validQuotes)) [] validQuotes
                    (Forall2_nil_2 _ _ _) (positions_related validQuotes))
        as [Hrel _].
      rewrite Hrun in Hrel. exact Hrel.
  - intros i Hi st randomIndex.
    assert (length st.2 = length validQuotes - i) as Hst.
    { unfold st. apply drawLoop_length. lia. }
    assert (randomIndex < length st.2) as Hidx.
    { unfold randomIndex. apply floorScale_lt. lia. }
    split; [done|]. split; [done|]. split.
    + rewrite drawLoop_snoc. fold st. simpl.
      unfold randomIndex. by destruct st.
    + rewrite length_delete by by apply lookup_lt_is_Some_2. lia.
Qed.

Lemma drawQuotes_distinct_positions_witness :
  let st := drawLoop Sample.draws 0 1 ([], Sample.corpus) in
  let randomIndex := floorScale (Sample.draws 1) (length st.2) in
  length st.2 = length Sample.corpus - 1
  ∧ randomIndex < length st.2
  ∧ drawLoop Sample.draws 0 2 ([], Sample.corpus)
    = (st.1 ++ [st.2 !! randomIndex], delete randomIndex st.2)
  ∧ length (delete randomIndex st.2) = length Sample.corpus - 2.
Proof.
  apply (proj2 (drawQuotes_distinct_positions Sample.draws 2 Sample.corpus) 1).
  simpl. lia.
Defined.

(* ===================================================================== *)
(** * Claims on the matchers *)
(* ===================================================================== *)

Section DecodingSucceeds.

Variable unicodeLower : jsstring → jsstring.

Lemma authorsDecode_returns (corpus : list Quote.t)
    (authors : option (list jsstring)) :
  authorsDecode corpus authors = true →
  ∀ q, q ∈ corpus →
       ∃ b, hasMatchingAuthor unicodeLower q authors = Return b.
Proof.
  intros H q Hq. destruct authors as [requested|]; [|by exists true].
  simpl in H. apply andb_true_iff in H as [Hc Hr].
  apply hasMatchingAuthor_returns; [|done].
  rewrite forallb_forall in Hc. apply Hc, in_map. by apply list_elem_of_In.
Qed.

Lemma termsDecode_returns (corpus : list Quote.t)
    (terms : option (list jsstring)) :
  termsDecode corpus terms = true →
  ∀ q, q ∈ corpus →
       ∃ b, hasPartialAuthorMatch unicodeLower q terms = Return b.
Proof.
  unfold termsDecode. intros H q Hq. destruct (given terms) eqn:Hg.
  - apply andb_true_iff in H as [Hc Hr].
    apply hasPartialAuthorMatch_returns; [|done].
    rewrite forallb_forall in Hc. apply Hc, in_map.
    by apply list_elem_of_In.
  - exists true. by apply hasPartialAuthorMatch_not_given.
Qed.

End DecodingSucceeds.

Lemma outcome_Null random count candidates :
  outcome random count candidates = Null ↔ candidates = [].
Proof.
  unfold outcome. destruct (nonEmpty candidates) as [v|] eqn:Hv.
  - apply nonEmpty_Some in Hv as [-> Hne]. done.
  - apply nonEmpty_None in Hv. done.
Qed.

Lemma outcome_Array random count candidates quotes :
  outcome random count candidates = Array quotes →
  candidates ≠ [] ∧ quotes = drawQuotes random count candidates.
Proof.
  unfold outcome. destruct (nonEmpty candidates) as [v|] eqn:Hv; [|done].
  apply nonEmpty_Some in Hv as [-> Hne]. intros [= <-]. done.
Qed.

Lemma outcome_nonempty random count candidates :
  (1 ≤ count)%Z → candidates ≠ [] →
  ∃ quotes, outcome random count candidates = Array quotes ∧ quotes ≠ [].
Proof.
  intros Hc Hne. unfold outcome.
  destruct (nonEmpty candidates) as [v|] eqn:Hv.
  - apply nonEmpty_Some in Hv as [-> _]. eexists. split; [done|].
    intros Hnil. apply (f_equal length) in Hnil.
    rewrite drawQuotes_length in Hnil. simpl in Hnil.
    destruct v; [done|]. simpl in Hnil. lia.
  - by apply nonEmpty_None in Hv.
Qed.

Section MatcherResults.

Variable unicodeLower : jsstring → jsstring.
Variable random : nat → Fraction.
Variable quotesData : list Quote.t.

Lemma getQuotes_returns maxLength minLength tags count authors :
  (∀ q, q ∈ quotesData →
        ∃ b, hasMatchingAuthor unicodeLower q authors = Return b) →
  getQuotes unicodeLower random quotesData maxLength minLength tags count
            authors
  = Return (outcome random count
              (List.filter
                 (getQuotes_matches unicodeLower maxLength minLength tags
                                    authors) quotesData)).
Proof.
  intros Hret. unfold getQuotes, outcome.
  rewrite (getQuotes_candidates_returns _ _ _ _ _ _ Hret). creduce.
  by destruct (nonEmpty _).
Qed.

Lemma getQuotes_Return maxLength minLength tags count authors result :
  getQuotes unicodeLower random quotesData maxLength minLength tags count
            authors = Return result →
  (∀ q, q ∈ quotesData →
        ∃ b, hasMatchingAuthor unicodeLower q authors = Return b)
  ∧ result = outcome random count
               (List.filter
                  (getQuotes_matches unicodeLower maxLength minLength tags
                                     authors) quotesData).
Proof.
  intros H.
  assert (∀ q, q ∈ quotesData →
               ∃ b, hasMatchingAuthor unicodeLower q authors = Return b)
    as Hret.
  { unfold getQuotes in H. apply bind_Return_inv in H as (c & Hc & _).
    by apply getQuotes_candidates_Return in Hc as [? _]. }
  split; [done|]. rewrite (getQuotes_returns _ _ _ _ _ Hret) in H.
  congruence.
Qed.

Lemma searchQuotes_returns maxLength minLength tagTerms limit authorTerms :
  (∀ q, q ∈ quotesData →
        ∃ b, hasPartialAuthorMatch unicodeLower q authorTerms = Return b) →
  searchQuotes unicodeLower random quotesData maxLength minLength tagTerms
               limit authorTerms
  = Return (outcome random limit
              (List.filter
                 (searchQuotes_matches unicodeLower maxLength minLength
                                       tagTerms authorTerms) quotesData)).
Proof.
  intros Hret. unfold searchQuotes, outcome.
  rewrite (searchQuotes_candidates_returns _ _ _ _ _ _ Hret). creduce.
  by destruct (nonEmpty _).
Qed.

End MatcherResults.

(** Claim C5 as it is stated fails on an author name with a malformed
    escape: with [limit = 1] and the search term ["%"], [searchQuotes]
    throws a [URIError], and so does [getQuotes] with [count = 1] and the
    requested author ["%"]. *)
Lemma matchers_throw_on_malformed_escape :
  searchQuotes Sample.noTables Sample.draws Sample.corpus None None None 1
               (Some [str "%"])
  = Throw URIError
  ∧ getQuotes Sample.noTables Sample.draws Sample.corpus None None None 1
              (Some [str "%"])
    = Throw URIError.
Proof. split; vm_compute; reflexivity. Qed.

(** Claim C5, amended: when the author names an author filter decodes have
    no malformed escape, [getQuotes] with [count >= 1] does not throw; it
    returns [null] if and only if no quote of the corpus passes the author,
    tag and length filters together, and a non-empty array otherwise.  The
    same holds of [searchQuotes] with [limit >= 1] and its partial
    predicates.  The bounds may be unsatisfiable. *)
Theorem matchers_return_null_or_quotes (unicodeLower : jsstring → jsstring)
    (random : nat → Fraction) (quotesData : list Quote.t) :
  (∀ (maxLength minLength : option Z) (tags : option (list jsstring))
     (count : Z) (authors : option (list jsstring)),
      (1 ≤ count)%Z →
      authorsDecode quotesData authors = true →
      ∃ result,
        getQuotes unicodeLower random quotesData maxLength minLength tags
                  count authors = Return result
        ∧ (result = Null
           ↔ ∀ q, q ∈ quotesData →
                  getQuotes_matches unicodeLower maxLength minLength tags
                                    authors q = false)
        ∧ (result ≠ Null → ∃ quotes, result = Array quotes ∧ quotes ≠ []))
  ∧ (∀ (maxLength minLength : option Z) (tagTerms : option (list jsstring))
       (limit : Z) (authorTerms : option (list jsstring)),
        (1 ≤ limit)%Z →
        termsDecode quotesData authorTerms = true →
        ∃ result,
          searchQuotes unicodeLower random quotesData maxLength minLength
                       tagTerms limit authorTerms = Return result
          ∧ (result = Null
             ↔ ∀ q, q ∈ quotesData →
                    searchQuotes_matches unicodeLower maxLength minLength
                                         tagTerms authorTerms q = false)
          ∧ (result ≠ Null → ∃ quotes, result = Array quotes ∧ quotes ≠ [])).
Proof.
  split.
  - intros maxLength minLength tags count authors Hcount Hdec.
    eexists. split.
    { apply getQuotes_returns. by apply authorsDecode_returns. }
    split.
    + by rewrite outcome_Null, filter_nil_iff.
    + intros Hnn. apply outcome_nonempty; [done|].
      intros Hnil. apply Hnn. by apply outcome_Null.
  - intros maxLength minLength tagTerms limit authorTerms Hlimit Hdec.
    eexists. split.
    { apply searchQuotes_returns. by apply termsDecode_returns. }
    split.
    + by rewrite outcome_Null, filter_nil_iff.
    + intros Hnn. apply outcome_nonempty; [done|].
      intros Hnil. apply Hnn. by apply outcome_Null.
Qed.

Lemma matchers_return_null_or_quotes_witness :
  (∃ result,
      getQuotes Sample.noTables Sample.draws Sample.corpus (Some 10%Z) (Some 60%Z)
                (Some [str "wisdom"]) 1 (Some [str "mark%20twain"])
      = Return result
      ∧ (result = Null
         ↔ ∀ q, q ∈ Sample.corpus →
                getQuotes_matches Sample.noTables (Some 10%Z) (Some 60%Z)
                                  (Some [str "wisdom"])
                                  (Some [str "mark%20twain"]) q = false)
      ∧ (result ≠ Null → ∃ quotes, result = Array quotes ∧ quotes ≠ []))
  ∧ (∃ result,
        searchQuotes Sample.noTables Sample.draws Sample.corpus None None
                     (Some [str "life"]) 10 (Some [str "o"])
        = Return result
        ∧ (result = Null
           ↔ ∀ q, q ∈ Sample.corpus →
                  searchQuotes_matches Sample.noTables None None
                                       (Some [str "life"]) (Some [str "o"]) q
                  = false)
        ∧ (result ≠ Null → ∃ quotes, result = Array quotes ∧ quotes ≠ [])).
Proof.
  split.
  - apply (proj1 (matchers_return_null_or_quotes
                    Sample.noTables Sample.draws Sample.corpus));
      [lia | reflexivity].
  - apply (proj2 (matchers_return_null_or_quotes
                    Sample.noTables Sample.draws Sample.corpus));
      [lia | reflexivity].
Defined.

(** Claim C6 as it is stated fails for a negative count: [getQuotes] returns
    the empty array, whose length is not [min(count, M)]. *)
Lemma getQuotes_negative_count :
  getQuotes Sample.noTables Sample.draws Sample.corpus None None None (-1)
            None
  = Return (Array [])
  ∧ Z.of_nat (length (@nil (option Quote.t)))
    ≠ Z.min (-1)
        (Z.of_nat
           (length (List.filter
                      (getQuotes_matches Sample.noTables None None None None)
                      Sample.corpus))).
Proof. split; [vm_compute; reflexivity | vm_compute; discriminate]. Qed.

(** Claim C6, amended: when [getQuotes] returns an array, the array has
    [max(0, min(count, M))] entries, M being the number of quotes of the
    corpus that pass all the filters; it has exactly M entries when
    [count >= M]; and every entry is a quote of the corpus that passes the
    author filter, the tag filter and the inclusive length bounds. *)
Theorem getQuotes_clamped (unicodeLower : jsstring → jsstring)
    (random : nat → Fraction) (quotesData : list Quote.t)
    (maxLength minLength : option Z) (tags : option (list jsstring))
    (count : Z) (authors : option (list jsstring))
    (quotes : list (option Quote.t)) :
  getQuotes unicodeLower random quotesData maxLength minLength tags count
            authors = Return (Array quotes) →
  let M := length (List.filter
                     (getQuotes_matches unicodeLower maxLength minLength tags
                                        authors) quotesData) in
  Z.of_nat (length quotes) = Z.max 0 (Z.min count (Z.of_nat M))
  ∧ ((Z.of_nat M ≤ count)%Z → length quotes = M)
  ∧ Forall (fun entry =>
              ∃ q, entry = Some q
                   ∧ q ∈ quotesData
                   ∧ hasMatchingAuthor unicodeLower q authors = Return true
                   ∧ hasMatchingTags q tags = true
                   ∧ (∀ lo, minLength = Some lo → (lo ≤ Quote.length q)%Z)
                   ∧ (∀ hi, maxLength = Some hi → (Quote.length q ≤ hi)%Z))
           quotes.
Proof.
  intros H M. apply getQuotes_Return in H as [_ H]. symmetry in H.
  apply outcome_Array in H as [_ ->]. fold M.
  rewrite drawQuotes_length. fold M.
  split; [lia|]. split; [lia|].
  eapply Forall_impl; [apply drawQuotes_elements|].
  intros entry (q & -> & Hq). exists q. split; [done|].
  apply list_elem_of_In, filter_In in Hq as [Hq Hm].
  split; [by apply list_elem_of_In|].
  unfold getQuotes_matches in Hm.
  apply andb_true_iff in Hm as [Hm Hlen].
  apply andb_true_iff in Hm as [Hauthor Htags].
  split.
  { destruct (hasMatchingAuthor unicodeLower q authors) as [[]|]; done. }
  split; [done|].
  unfold withinLength in Hlen. apply andb_true_iff in Hlen as [Hlo Hhi].
  split.
  - intros lo ->. lia.
  - intros hi ->. lia.
Qed.

Lemma getQuotes_clamped_witness :
  let M := length (List.filter
                     (getQuotes_matches Sample.noTables (Some 50%Z) (Some 50%Z)
                                        None (Some [str "mark%20twain"]))
                     Sample.corpus) in
  Z.of_nat (length [Some Sample.twain]) = Z.max 0 (Z.min 1000 (Z.of_nat M))
  ∧ ((Z.of_nat M ≤ 1000)%Z → length [Some Sample.twain] = M)
  ∧ Forall (fun entry =>
              ∃ q, entry = Some q
                   ∧ q ∈ Sample.corpus
                   ∧ hasMatchingAuthor Sample.noTables q
                                       (Some [str "mark%20twain"])
                     = Return true
                   ∧ hasMatchingTags q None = true
                   ∧ (∀ lo, Some 50%Z = Some lo → (lo ≤ Quote.length q)%Z)
                   ∧ (∀ hi, Some 50%Z = Some hi → (Quote.length q ≤ hi)%Z))
           [Some Sample.twain].
Proof.
  apply (getQuotes_clamped Sample.noTables Sample.draws Sample.corpus
           (Some 50%Z) (Some 50%Z) None 1000
           (Some [str "mark%20twain"]) [Some Sample.twain]).
  vm_compute. reflexivity.
Defined.

(** Claim C8: the candidates [getQuotes] hands to the sampling loop are the
    quotes of the corpus that pass the conjunction of the author, tag and
    length predicates, and applying the three filters in any order gives the
    same list. *)
Theorem getQuotes_candidates_any_order (unicodeLower : jsstring → jsstring)
    (quotesData : list Quote.t) (maxLength minLength : option Z)
    (tags authors : option (list jsstring)) (validQuotes : list Quote.t) :
  getQuotes_candidates unicodeLower quotesData maxLength minLength tags
                       authors = Return (Some validQuotes) →
  validQuotes
  = List.filter (getQuotes_matches unicodeLower maxLength minLength tags
                                   authors) quotesData
  ∧ ∀ stages,
      stages ≡ₚ [ByAuthor; ByTags; ByLength] →
      applyStages unicodeLower maxLength minLength tags authors stages
                  quotesData = Return validQuotes.
Proof.
  intros H. apply getQuotes_candidates_Return in H as [Hret H].
  symmetry in H. apply nonEmpty_Some in H as [H _].
  split; [done|]. intros stages Hperm.
  rewrite applyStages_returns by done. rewrite <- H. f_equal.
  apply filter_ext_elem. intros q _.
  rewrite (forallb_Permutation _ _ _ Hperm). simpl.
  unfold getQuotes_matches. by rewrite andb_true_r, andb_assoc.
Qed.

Lemma getQuotes_candidates_any_order_witness :
  [Sample.twain]
  = List.filter (getQuotes_matches Sample.noTables (Some 100%Z) None
                                   (Some [str "wisdom"])
                                   (Some [str "mark%20twain"; str "bell hooks"]))
                Sample.corpus
  ∧ ∀ stages,
      stages ≡ₚ [ByAuthor; ByTags; ByLength] →
      applyStages Sample.noTables (Some 100%Z) None (Some [str "wisdom"])
                  (Some [str "mark%20twain"; str "bell hooks"]) stages
                  Sample.corpus = Return [Sample.twain].
Proof.
  apply (getQuotes_candidates_any_order Sample.noTables Sample.corpus
           (Some 100%Z) None (Some [str "wisdom"])
           (Some [str "mark%20twain"; str "bell hooks"]) [Sample.twain]).
  vm_compute. reflexivity.
Defined.

(** Claim C10 as it is stated fails when a requested author after the
    matching one has a malformed escape: a quote of the corpus passes all
    the filters, and [getQuotes] with [count = 0] throws. *)
Lemma getQuotes_zero_count_throws :
  (∃ q, q ∈ [Sample.twain; Sample.wilde]
        ∧ getQuotes_matches Sample.noTables None None None
                            (Some [str "Mark Twain"; str "%"]) q = true)
  ∧ getQuotes Sample.noTables Sample.draws [Sample.twain; Sample.wilde]
              None None None 0 (Some [str "Mark Twain"; str "%"])
    = Throw URIError.
Proof.
  split; [|vm_compute; reflexivity].
  exists Sample.twain. split; [left | vm_compute; reflexivity].
Qed.

(** Claim C10, amended: when the author names an author filter decodes have
    no malformed escape and a quote of the corpus passes all the filters,
    [getQuotes] with [count <= 0] returns the empty array, and so does
    [searchQuotes] with [limit <= 0]. *)
Theorem matchers_nonpositive_count (unicodeLower : jsstring → jsstring)
    (random : nat → Fraction) (quotesData : list Quote.t) :
  (∀ (maxLength minLength : option Z) (tags : option (list jsstring))
     (count : Z) (authors : option (list jsstring)),
      (count ≤ 0)%Z →
      authorsDecode quotesData authors = true →
      (∃ q, q ∈ quotesData
            ∧ getQuotes_matches unicodeLower maxLength minLength tags authors
                                q = true) →
      getQuotes unicodeLower random quotesData maxLength minLength tags count
                authors = Return (Array []))
  ∧ (∀ (maxLength minLength : option Z) (tagTerms : option (list jsstring))
       (limit : Z) (authorTerms : option (list jsstring)),
        (limit ≤ 0)%Z →
        termsDecode quotesData authorTerms = true →
        (∃ q, q ∈ quotesData
              ∧ searchQuotes_matches unicodeLower maxLength minLength
                                     tagTerms authorTerms q = true) →
        searchQuotes unicodeLower random quotesData maxLength minLength
                     tagTerms limit authorTerms = Return (Array [])).
Proof.
  assert (∀ count (f : Quote.t → bool),
             (count ≤ 0)%Z →
             (∃ q, q ∈ quotesData ∧ f q = true) →
             outcome random count (List.filter f quotesData) = Array [])
    as Hout.
  { intros count f Hcount (q & Hq & Hf). unfold outcome.
    destruct (nonEmpty _) as [v|] eqn:Hv.
    - by rewrite drawQuotes_nonpositive.
    - apply nonEmpty_None in Hv.
      rewrite filter_nil_iff in Hv. specialize (Hv q Hq). congruence. }
  split.
  - intros maxLength minLength tags count authors Hcount Hdec Hex.
    rewrite getQuotes_returns by by apply authorsDecode_returns.
    f_equal. by apply Hout.
  - intros maxLength minLength tagTerms limit authorTerms Hlimit Hdec Hex.
    rewrite searchQuotes_returns by by apply termsDecode_returns.
    f_equal. by apply Hout.
Qed.

Lemma matchers_nonpositive_count_witness :
  getQuotes Sample.noTables Sample.draws Sample.corpus None None
            (Some [str "humor"]) (-3) (Some [str "oscar%20wilde"])
  = Return (Array [])
  ∧ searchQuotes Sample.noTables Sample.draws Sample.corpus None (Some 43%Z)
                 (Some [str "hum"]) 0 (Some [str "wild"])
    = Return (Array []).
Proof.
  split.
  - apply (proj1 (matchers_nonpositive_count
                    Sample.noTables Sample.draws Sample.corpus));
      [lia | reflexivity |].
    exists Sample.wilde. split; [right; left | reflexivity].
  - apply (proj2 (matchers_nonpositive_count
                    Sample.noTables Sample.draws Sample.corpus));
      [lia | reflexivity |].
    exists Sample.wilde. split; [right; left | reflexivity].
Defined.

(* ===================================================================== *)
(** * The store during a call *)
(* ===================================================================== *)

Lemma extends_refl (s : Store) : extends s s.
Proof. split; done. Qed.

Lemma extends_setArray (s0 s : Store) (l : loc) (vs : list value) :
  callLocal s0 l → extends s0 s → extends s0 (setArray l vs s).
Proof.
  intros Hl [Ho Ha]. split; [done|]. simpl. by apply insert_subseteq_r.
Qed.

Lemma extends_fresh (s0 s : Store) :
  extends s0 s → callLocal s0 (fresh (dom (arrays s))).
Proof.
  intros [_ Ha]. unfold callLocal.
  eapply lookup_weaken_None; [|done].
  apply not_elem_of_dom, is_fresh.
Qed.

Section Keeps.

Variable s0 : Store.
Context {A B : Type}.

Lemma keeps_ret (a : A) (post : A → Prop) : post a → keeps s0 (mret a) post.
Proof. intros Hp s Hs. split; [done|]. by intros ? [= <-]. Qed.

Lemma keeps_lift (c : Completion A) : keeps s0 (lift c) (fun _ => True).
Proof. intros s Hs. split; done. Qed.

Lemma keeps_bind (m : M A) (k : A → M B) (P : A → Prop) (Q : B → Prop) :
  keeps s0 m P → (∀ a, P a → keeps s0 (k a) Q) → keeps s0 (m ≫= k) Q.
Proof.
  intros Hm Hk s Hs. destruct (Hm s Hs) as [Hext Hpost].
  unfold mbind, M_bind. destruct (m s) as [[a|e] s']; simpl in *.
  - apply (Hk a); [by apply Hpost | done].
  - split; done.
Qed.

End Keeps.

Section KeepsOperations.

Variable s0 : Store.

Lemma keeps_readArray (a : loc) : keeps s0 (readArray a) (fun _ => True).
Proof.
  intros s Hs. unfold readArray. by destruct (arrays s !! a).
Qed.

Lemma keeps_allocArray (vs : list value) :
  keeps s0 (allocArray vs) (callLocal s0).
Proof.
  intros s Hs. unfold allocArray. simpl. split.
  - apply extends_setArray; [by apply extends_fresh | done].
  - intros l [= <-]. by apply extends_fresh.
Qed.

Lemma keeps_writeArray (a : loc) (vs : list value) :
  callLocal s0 a → keeps s0 (writeArray a vs) (fun _ => True).
Proof.
  intros Ha s Hs. unfold writeArray. simpl.
  split; [by apply extends_setArray | done].
Qed.

Lemma keeps_spread (a : loc) : keeps s0 (spread a) (callLocal s0).
Proof.
  eapply keeps_bind; [apply keeps_readArray|].
  intros vs _. apply keeps_allocArray.
Qed.

Lemma keeps_lengthOf (a : loc) : keeps s0 (lengthOf a) (fun _ => True).
Proof.
  eapply keeps_bind; [apply keeps_readArray|].
  intros vs _. by apply keeps_ret.
Qed.

Lemma keeps_index (a : loc) (i : nat) :
  keeps s0 (index a i) (fun _ => True).
Proof.
  eapply keeps_bind; [apply keeps_readArray|].
  intros vs _. by apply keeps_ret.
Qed.

Lemma keeps_push (a : loc) (v : value) :
  callLocal s0 a → keeps s0 (push a v) (fun _ => True).
Proof.
  intros Ha. eapply keeps_bind; [apply keeps_readArray|].
  intros vs _. by apply keeps_writeArray.
Qed.

Lemma keeps_splice (a : loc) (i : nat) :
  callLocal s0 a → keeps s0 (splice a i) (fun _ => True).
Proof.
  intros Ha. eapply keeps_bind; [apply keeps_readArray|].
  intros vs _. by apply keeps_writeArray.
Qed.

Lemma keeps_readQuote (quote : value) :
  keeps s0 (readQuote quote) (fun _ => True).
Proof.
  intros s Hs. unfold readQuote.
  destruct quote as [|r]; [done|]. by destruct (objects s !! r).
Qed.

Lemma keeps_filterM (p : value → M bool) (vs : list value) :
  (∀ v, keeps s0 (p v) (fun _ => True)) →
  keeps s0 (filterM p vs) (fun _ => True).
Proof.
  intros Hp. induction vs as [|v vs IH]; simpl.
  - by apply keeps_ret.
  - eapply keeps_bind; [apply Hp|]. intros b _.
    eapply keeps_bind; [apply IH|]. intros kept _. by apply keeps_ret.
Qed.

Lemma keeps_filterH (p : value → M bool) (a : loc) :
  (∀ v, keeps s0 (p v) (fun _ => True)) →
  keeps s0 (filterH p a) (callLocal s0).
Proof.
  intros Hp. eapply keeps_bind; [apply keeps_readArray|]. intros vs _.
  eapply keeps_bind; [by apply keeps_filterM|]. intros kept _.
  apply keeps_allocArray.
Qed.

Lemma keeps_forLoop (i n : nat) (body : nat → M unit) :
  (∀ j, keeps s0 (body j) (fun _ => True)) →
  keeps s0 (forLoop i n body) (fun _ => True).
Proof.
  intros Hbody. revert i. induction n as [|n IH]; intros i; simpl.
  - by apply keeps_ret.
  - eapply keeps_bind; [apply Hbody|]. intros _ _. apply IH.
Qed.

End KeepsOperations.

Section KeepsEngine.

Variable unicodeLower : jsstring → jsstring.
Variable random : nat → Fraction.
Variable quotesData : loc.
Variable s0 : Store.

(** A callback that reads the quote and computes on it. *)
Lemma keeps_read {A} (f : Quote.t → M A) (quote : value) :
  (∀ q, keeps s0 (f q) (fun _ => True)) →
  keeps s0 (q ← readQuote quote; f q) (fun _ => True).
Proof.
  intros Hf. eapply keeps_bind; [apply keeps_readQuote|].
  intros q _. apply Hf.
Qed.

Lemma keeps_hasMatchingAuthorH quote authors :
  keeps s0 (hasMatchingAuthorH unicodeLower quote authors) (fun _ => True).
Proof.
  unfold hasMatchingAuthorH. destruct authors; [|by apply keeps_ret].
  apply keeps_read. intros q. apply keeps_lift.
Qed.

Lemma keeps_hasPartialAuthorMatchH quote terms :
  keeps s0 (hasPartialAuthorMatchH unicodeLower quote terms)
        (fun _ => True).
Proof.
  unfold hasPartialAuthorMatchH.
  destruct terms as [terms|]; [|by apply keeps_ret].
  destruct (decide _); [by apply keeps_ret|].
  apply keeps_read. intros q. apply keeps_lift.
Qed.

Lemma keeps_hasMatchingTagsH quote tags :
  keeps s0 (hasMatchingTagsH quote tags) (fun _ => True).
Proof.
  unfold hasMatchingTagsH. destruct tags; [|by apply keeps_ret].
  apply keeps_read. intros q. by apply keeps_ret.
Qed.

Lemma keeps_hasPartialTagMatchH quote terms :
  keeps s0 (hasPartialTagMatchH unicodeLower quote terms) (fun _ => True).
Proof.
  unfold hasPartialTagMatchH.
  destruct terms as [terms|]; [|by apply keeps_ret].
  destruct (decide _); [by apply keeps_ret|].
  apply keeps_read. intros q. by apply keeps_ret.
Qed.

Lemma keeps_filterLengthH minLength maxLength validQuotes :
  callLocal s0 validQuotes →
  keeps s0 (filterLengthH minLength maxLength validQuotes) (callLocal s0).
Proof.
  intros Hv. unfold filterLengthH.
  eapply (keeps_bind _ _ _ (callLocal s0)).
  - destruct minLength; [|by apply keeps_ret].
    apply keeps_filterH. intros v.
    apply keeps_read. intros q. by apply keeps_ret.
  - intros v' Hv'. destruct maxLength; [|by apply keeps_ret].
    apply keeps_filterH. intros v.
    apply keeps_read. intros q. by apply keeps_ret.
Qed.

(** A turn of the loop writes to [quotes] and [tempQuotes] only. *)
Lemma keeps_drawBody quotes tempQuotes i :
  callLocal s0 quotes → callLocal s0 tempQuotes →
  keeps s0 (drawBody random quotes tempQuotes i) (fun _ => True).
Proof.
  intros Hq Ht. unfold drawBody.
  eapply keeps_bind; [apply keeps_lengthOf|]. intros n _. cbv zeta.
  eapply keeps_bind; [apply keeps_index|]. intros picked _.
  eapply keeps_bind; [by apply keeps_push|]. intros _ _.
  by apply keeps_splice.
Qed.

Lemma keeps_drawQuotesH count validQuotes :
  keeps s0 (drawQuotesH random count validQuotes) (callLocal s0).
Proof.
  unfold drawQuotesH.
  eapply keeps_bind; [apply keeps_lengthOf|]. intros n _. cbv zeta.
  eapply keeps_bind; [apply keeps_allocArray|]. intros quotes Hq.
  eapply keeps_bind; [apply keeps_spread|]. intros tempQuotes Ht.
  eapply (keeps_bind _ _ _ (fun _ => True)).
  - apply keeps_forLoop. intros j. by apply keeps_drawBody.
  - intros _ _. by apply keeps_ret.
Qed.

(** The statements after the category filters (lines 93-124, 151-182). *)
Lemma keeps_checkpoints minLength maxLength count validQuotes :
  callLocal s0 validQuotes →
  keeps s0
    (n ← lengthOf validQuotes;
     if decide (n = 0) then mret None
     else
       validQuotes ← filterLengthH minLength maxLength validQuotes;
       n ← lengthOf validQuotes;
       if decide (n = 0) then mret None
       else quotes ← drawQuotesH random count validQuotes;
            mret (Some quotes))
    (fun result => ∀ l, result = Some l → callLocal s0 l).
Proof.
  intros Hv. eapply keeps_bind; [apply keeps_lengthOf|]. intros n _.
  destruct (decide _); [by apply keeps_ret|].
  eapply keeps_bind; [by apply keeps_filterLengthH|]. intros v' Hv'.
  eapply keeps_bind; [apply keeps_lengthOf|]. intros n' _.
  destruct (decide _); [by apply keeps_ret|].
  eapply keeps_bind; [apply keeps_drawQuotesH|]. intros l Hl.
  apply keeps_ret. by intros ? [= <-].
Qed.

Lemma keeps_getQuotesH maxLength minLength tags count authors :
  keeps s0
    (getQuotesH unicodeLower random quotesData maxLength minLength tags
                count authors)
    (fun result => ∀ l, result = Some l → callLocal s0 l).
Proof.
  unfold getQuotesH.
  eapply keeps_bind; [apply keeps_spread|]. intros v0 Hv0.
  eapply (keeps_bind _ _ _ (callLocal s0)).
  { destruct authors; [|by apply keeps_ret].
    apply keeps_filterH. intros v. apply keeps_hasMatchingAuthorH. }
  intros v1 Hv1.
  eapply (keeps_bind _ _ _ (callLocal s0)).
  { destruct tags; [|by apply keeps_ret].
    apply keeps_filterH. intros v. apply keeps_hasMatchingTagsH. }
  intros v2 Hv2. by apply keeps_checkpoints.
Qed.

Lemma keeps_searchQuotesH maxLength minLength tagTerms limit authorTerms :
  keeps s0
    (searchQuotesH unicodeLower random quotesData maxLength minLength
                   tagTerms limit authorTerms)
    (fun result => ∀ l, result = Some l → callLocal s0 l).
Proof.
  unfold searchQuotesH.
  eapply keeps_bind; [apply keeps_spread|]. intros v0 Hv0.
  eapply (keeps_bind _ _ _ (callLocal s0)).
  { destruct (given authorTerms); [|by apply keeps_ret].
    apply keeps_filterH. intros v. apply keeps_hasPartialAuthorMatchH. }
  intros v1 Hv1.
  eapply (keeps_bind _ _ _ (callLocal s0)).
  { destruct (given tagTerms); [|by apply keeps_ret].
    apply keeps_filterH. intros v. apply keeps_hasPartialTagMatchH. }
  intros v2 Hv2. by apply keeps_checkpoints.
Qed.

End KeepsEngine.

(** Claim C9: a call of [getQuotes] or [searchQuotes] leaves every quote
    object and every array that existed before the call, the corpus array
    among them, as it was: the arrays the call writes to, and the array it
    returns, are arrays the call itself allocated. *)
Theorem matchers_keep_corpus (unicodeLower : jsstring → jsstring)
    (random : nat → Fraction) (quotesData : loc) (s : Store) :
  (∀ (maxLength minLength : option Z) (tags : option (list jsstring))
     (count : Z) (authors : option (list jsstring)),
      let run := getQuotesH unicodeLower random quotesData maxLength
                            minLength tags count authors s in
      objects run.2 = objects s
      ∧ (∀ l vs, arrays s !! l = Some vs → arrays run.2 !! l = Some vs)
      ∧ (∀ l, run.1 = Return (Some l) → arrays s !! l = None))
  ∧ (∀ (maxLength minLength : option Z) (tagTerms : option (list jsstring))
       (limit : Z) (authorTerms : option (list jsstring)),
        let run := searchQuotesH unicodeLower random quotesData maxLength
                                 minLength tagTerms limit authorTerms s in
        objects run.2 = objects s
        ∧ (∀ l vs, arrays s !! l = Some vs → arrays run.2 !! l = Some vs)
        ∧ (∀ l, run.1 = Return (Some l) → arrays s !! l = None)).
Proof.
  split.
  - intros maxLength minLength tags count authors run.
    destruct (keeps_getQuotesH unicodeLower random quotesData s maxLength
                minLength tags count authors s (extends_refl s))
      as [[Hobj Harr] Hres].
    split; [done|]. split.
    + intros l vs Hl. by eapply lookup_weaken.
    + intros l Hl. by apply (Hres (Some l)).
  - intros maxLength minLength tagTerms limit authorTerms run.
    destruct (keeps_searchQuotesH unicodeLower random quotesData s maxLength
                minLength tagTerms limit authorTerms s (extends_refl s))
      as [[Hobj Harr] Hres].
    split; [done|]. split.
    + intros l vs Hl. by eapply lookup_weaken.
    + intros l Hl. by apply (Hres (Some l)).
Qed.

Lemma matchers_keep_corpus_witness :
  arrays (getQuotesH Sample.noTables Sample.draws SampleStore.quotesData
                     None None None 2 None SampleStore.store).2
         !! SampleStore.quotesData
  = Some [Ref 1; Ref 2; Ref 3]
  ∧ arrays (searchQuotesH Sample.noTables Sample.draws SampleStore.quotesData
                          None None (Some [str "life"]) 2 None
                          SampleStore.store).2
           !! SampleStore.quotesData
    = Some [Ref 1; Ref 2; Ref 3].
Proof.
  split.
  - apply (proj1 (matchers_keep_corpus Sample.noTables Sample.draws
                    SampleStore.quotesData SampleStore.store)).
    reflexivity.
  - apply (proj2 (matchers_keep_corpus Sample.noTables Sample.draws
                    SampleStore.quotesData SampleStore.store)).
    reflexivity.
Defined.

(* ===================================================================== *)
(** * The store model computes what the model on contents computes *)
(* ===================================================================== *)

Section Simulation.

Variable objs : gmap loc Quote.t.

Lemma sim_ret {A B} (R : Store → A → B → Prop) (a : A) (b : B) s :
  objects s = objs → R s a b → sim objs R (mret a) s (Return b).
Proof. intros Ho HR. split; done. Qed.

Lemma sim_bind {A B A' B'} (R : Store → A → B → Prop)
    (R' : Store → A' → B' → Prop) (m : M A) (k : A → M A') s
    (c : Completion B) (kc : B → Completion B') :
  sim objs R m s c →
  (∀ a b s', objects s' = objs → R s' a b → sim objs R' (k a) s' (kc b)) →
  sim objs R' (m ≫= k) s (c ≫= kc).
Proof.
  intros [Ho Hm] Hk. unfold sim, mbind, M_bind, Completion_bind in *.
  destruct (m s) as [[a|e] s'], c as [b|e']; simpl in *; try done.
  by apply Hk.
Qed.

(** A statement of the store model whose counterpart is a value. *)
Lemma sim_step {A B A' B'} (R : Store → A → B → Prop)
    (R' : Store → A' → B' → Prop) (m : M A) (k : A → M A') s (b : B)
    (c' : Completion B') :
  sim objs R m s (Return b) →
  (∀ a s', objects s' = objs → R s' a b → sim objs R' (k a) s' c') →
  sim objs R' (m ≫= k) s c'.
Proof.
  intros [Ho Hm] Hk. unfold sim, mbind, M_bind in *.
  destruct (m s) as [[a|e] s']; simpl in *; [|done].
  by apply Hk.
Qed.

End Simulation.

(** ** Running the operations on a known store *)

Lemma run_bind {A B} (m : M A) (k : A → M B) (s s' : Store) (a : A) :
  m s = (Return a, s') → (m ≫= k) s = k a s'.
Proof. intros H. unfold mbind, M_bind. by rewrite H. Qed.

Lemma run_bind_Throw {A B} (m : M A) (k : A → M B) (s s' : Store) e :
  m s = (Throw e, s') → (m ≫= k) s = (Throw e, s').
Proof. intros H. unfold mbind, M_bind. by rewrite H. Qed.

Lemma run_readArray (a : loc) (vs : list value) (s : Store) :
  arrays s !! a = Some vs → readArray a s = (Return vs, s).
Proof. intros H. unfold readArray. by rewrite H. Qed.

Lemma run_lengthOf (a : loc) (vs : list value) (s : Store) :
  arrays s !! a = Some vs → lengthOf a s = (Return (length vs), s).
Proof.
  intros H. unfold lengthOf. by rewrite (run_bind _ _ _ _ _ (run_readArray _ _ _ H)).
Qed.

Lemma run_index (a : loc) (i : nat) (vs : list value) (s : Store) :
  arrays s !! a = Some vs → index a i s = (Return (toValue (vs !! i)), s).
Proof.
  intros H. unfold index. by rewrite (run_bind _ _ _ _ _ (run_readArray _ _ _ H)).
Qed.

Lemma run_push (a : loc) (v : value) (vs : list value) (s : Store) :
  arrays s !! a = Some vs →
  push a v s = (Return (), setArray a (vs ++ [v]) s).
Proof.
  intros H. unfold push. by rewrite (run_bind _ _ _ _ _ (run_readArray _ _ _ H)).
Qed.

Lemma run_splice (a : loc) (i : nat) (vs : list value) (s : Store) :
  arrays s !! a = Some vs →
  splice a i s = (Return (), setArray a (delete i vs) s).
Proof.
  intros H. unfold splice. by rewrite (run_bind _ _ _ _ _ (run_readArray _ _ _ H)).
Qed.

Lemma run_spread (a : loc) (vs : list value) (s : Store) :
  arrays s !! a = Some vs →
  spread a s
  = (Return (fresh (dom (arrays s))), setArray (fresh (dom (arrays s))) vs s).
Proof.
  intros H. unfold spread. by rewrite (run_bind _ _ _ _ _ (run_readArray _ _ _ H)).
Qed.

Lemma fresh_unused (s : Store) : arrays s !! fresh (dom (arrays s)) = None.
Proof. apply not_elem_of_dom, is_fresh. Qed.

Lemma lookup_setArray (l : loc) (vs : list value) (s : Store) :
  arrays (setArray l vs s) !! l = Some vs.
Proof. apply lookup_insert_eq. Qed.

Lemma lookup_setArray_ne (l l' : loc) (vs : list value) (s : Store) :
  l ≠ l' → arrays (setArray l vs s) !! l' = arrays s !! l'.
Proof. intros H. by apply lookup_insert_ne. Qed.

Section SimulationOperations.

Variable objs : gmap loc Quote.t.

Lemma sim_spread (a : loc) (qs : list Quote.t) (s : Store) :
  objects s = objs → arrayOf objs s a qs →
  sim objs (arrayOf objs) (spread a) s (Return qs).
Proof.
  intros Ho (vs & Hvs & Hrel). unfold sim. rewrite (run_spread _ _ _ Hvs).
  simpl. split; [done|]. exists vs. split; [apply lookup_insert_eq | done].
Qed.

Lemma sim_lengthOf (a : loc) (qs : list Quote.t) (s : Store) :
  objects s = objs → arrayOf objs s a qs →
  sim objs (fun s' n m => s' = s ∧ n = m) (lengthOf a) s
      (Return (length qs)).
Proof.
  intros Ho (vs & Hvs & Hrel). unfold sim. rewrite (run_lengthOf _ _ _ Hvs).
  simpl. split; [done|]. split; [done|]. by eapply Forall2_length.
Qed.

Abbreviation callbackOf := (callbackOf objs).

Lemma run_filterM (pH : value → M bool) (p : Quote.t → Completion bool)
    (vs : list value) (qs : list Quote.t) (s : Store) :
  callbackOf pH p → objects s = objs → Forall2 (refersTo objs) vs qs →
  match Arr.filter p qs with
  | Return kept =>
    ∃ kvs, filterM pH vs s = (Return kvs, s)
           ∧ Forall2 (refersTo objs) kvs kept
  | Throw e => filterM pH vs s = (Throw e, s)
  end.
Proof.
  intros Hp Ho Hrel. induction Hrel as [|v q vs qs Hvq Hrel IH].
  - exists []. split; [done | constructor].
  - pose proof (Hp v q s Ho Hvq) as Hv. cbn [filterM Arr.filter].
    destruct (p q) as [b|e]; creduce.
    + rewrite (run_bind _ _ _ _ _ Hv).
      destruct (Arr.filter p qs) as [kept|e]; creduce.
      * destruct IH as (kvs & Hrun & Hk).
        exists (if b then v :: kvs else kvs). split.
        -- by rewrite (run_bind _ _ _ _ _ Hrun).
        -- destruct b; [by constructor | done].
      * by rewrite (run_bind_Throw _ _ _ _ _ IH).
    + by rewrite (run_bind_Throw _ _ _ _ _ Hv).
Qed.

Lemma sim_filterH (pH : value → M bool) (p : Quote.t → Completion bool)
    (a : loc) (qs : list Quote.t) (s : Store) :
  callbackOf pH p → objects s = objs → arrayOf objs s a qs →
  sim objs (arrayOf objs) (filterH pH a) s (Arr.filter p qs).
Proof.
  intros Hp Ho (vs & Hvs & Hrel). unfold sim, filterH.
  rewrite (run_bind _ _ _ _ _ (run_readArray _ _ _ Hvs)).
  pose proof (run_filterM pH p vs qs s Hp Ho Hrel) as Hrun.
  destruct (Arr.filter p qs) as [kept|e].
  - destruct Hrun as (kvs & Hrun & Hk).
    rewrite (run_bind _ _ _ _ _ Hrun). simpl. split; [done|].
    exists kvs. split; [apply lookup_insert_eq | done].
  - rewrite (run_bind_Throw _ _ _ _ _ Hrun). done.
Qed.

Lemma filter_pure (f : Quote.t → bool) (qs : list Quote.t) :
  Arr.filter (fun q => Return (f q)) qs = Return (List.filter f qs).
Proof.
  induction qs as [|q qs IH]; simpl; [done|].
  creduce. rewrite IH. creduce. done.
Qed.

(** A filter whose callback cannot throw. *)
Lemma sim_filterH_pure (pH : value → M bool) (f : Quote.t → bool)
    (a : loc) (qs : list Quote.t) (s : Store) :
  callbackOf pH (fun q => Return (f q)) → objects s = objs →
  arrayOf objs s a qs →
  sim objs (arrayOf objs) (filterH pH a) s (Return (List.filter f qs)).
Proof.
  intros Hp Ho Ha. rewrite <- filter_pure. by apply sim_filterH.
Qed.

End SimulationOperations.

Lemma run_readQuote (r : loc) (q : Quote.t) (s : Store) :
  objects s !! r = Some q → readQuote (Ref r) s = (Return q, s).
Proof. intros H. unfold readQuote. by rewrite H. Qed.

Section Callbacks.

Variable unicodeLower : jsstring → jsstring.
Variable objs : gmap loc Quote.t.

(** A callback that reads the quote and computes on it. *)
Lemma callbackOf_read (p : Quote.t → Completion bool) :
  callbackOf objs (fun quote => q ← readQuote quote; lift (p q)) p.
Proof.
  intros v q s Ho (r & -> & Hr). rewrite <- Ho in Hr.
  by rewrite (run_bind _ _ _ _ _ (run_readQuote _ _ _ Hr)).
Qed.

Lemma callbackOf_hasMatchingAuthorH authors :
  callbackOf objs
    (fun quote => hasMatchingAuthorH unicodeLower quote authors)
    (fun q => hasMatchingAuthor unicodeLower q authors).
Proof.
  destruct authors as [requested|].
  - apply callbackOf_read.
  - intros v q s _ _. done.
Qed.

Lemma callbackOf_hasPartialAuthorMatchH terms :
  callbackOf objs
    (fun quote => hasPartialAuthorMatchH unicodeLower quote terms)
    (fun q => hasPartialAuthorMatch unicodeLower q terms).
Proof.
  destruct terms as [terms|]; [|by intros v q s _ _].
  unfold hasPartialAuthorMatchH.
  destruct (decide (length terms = 0)) as [Hlen|Hlen].
  - intros v q s _ _. unfold hasPartialAuthorMatch.
    by destruct (decide _).
  - apply callbackOf_read.
Qed.

Lemma callbackOf_hasMatchingTagsH tags :
  callbackOf objs (fun quote => hasMatchingTagsH quote tags)
             (fun q => Return (hasMatchingTags q tags)).
Proof.
  destruct tags as [requested|].
  - apply (callbackOf_read
             (fun q => Return (hasMatchingTags q (Some requested)))).
  - intros v q s _ _. done.
Qed.

Lemma callbackOf_hasPartialTagMatchH terms :
  callbackOf objs
    (fun quote => hasPartialTagMatchH unicodeLower quote terms)
    (fun q => Return (hasPartialTagMatch unicodeLower q terms)).
Proof.
  destruct terms as [terms|]; [|by intros v q s _ _].
  unfold hasPartialTagMatchH.
  destruct (decide (length terms = 0)) as [Hlen|Hlen].
  - intros v q s _ _. unfold hasPartialTagMatch.
    by destruct (decide _).
  - apply (callbackOf_read
             (fun q => Return (hasPartialTagMatch unicodeLower q
                                                  (Some terms)))).
Qed.

Lemma sim_filterLengthH minLength maxLength (validQuotes : loc)
    (qs : list Quote.t) (s : Store) :
  objects s = objs → arrayOf objs s validQuotes qs →
  sim objs (arrayOf objs) (filterLengthH minLength maxLength validQuotes) s
      (Return (filterLength minLength maxLength qs)).
Proof.
  intros Ho Ha. unfold filterLengthH, filterLength.
  apply (sim_step objs (arrayOf objs) (arrayOf objs) _ _ s
           (match minLength with
            | Some lo =>
              List.filter (fun quote => (Quote.length quote >=? lo)%Z) qs
            | None => qs
            end)).
  - destruct minLength as [lo|].
    + apply (sim_filterH_pure objs _
               (fun q => (Quote.length q >=? lo)%Z)); [|done..].
      apply (callbackOf_read
               (fun q => Return (Quote.length q >=? lo)%Z)).
    + by apply sim_ret.
  - intros v' s' Ho' Ha'. destruct maxLength as [hi|].
    + apply (sim_filterH_pure objs _
               (fun q => (Quote.length q <=? hi)%Z)); [|done..].
      apply (callbackOf_read
               (fun q => Return (Quote.length q <=? hi)%Z)).
    + by apply sim_ret.
Qed.

End Callbacks.

Section SimulationSampler.

Variable random : nat → Fraction.
Variable objs : gmap loc Quote.t.

Abbreviation drawBody := (drawBody random).

Lemma run_drawBody (quotes tempQuotes : loc) (i : nat) (s : Store)
    (qv tv : list value) :
  quotes ≠ tempQuotes →
  arrays s !! quotes = Some qv →
  arrays s !! tempQuotes = Some tv →
  let randomIndex := floorScale (random i) (length tv) in
  drawBody quotes tempQuotes i s
  = (Return (),
     setArray tempQuotes (delete randomIndex tv)
       (setArray quotes (qv ++ [toValue (tv !! randomIndex)]) s)).
Proof.
  intros Hne Hq Ht randomIndex. unfold drawBody.
  rewrite (run_bind _ _ _ _ _ (run_lengthOf _ _ _ Ht)). cbv zeta.
  rewrite (run_bind _ _ _ _ _ (run_index _ _ _ _ Ht)).
  rewrite (run_bind _ _ _ _ _ (run_push _ _ _ _ Hq)).
  apply run_splice. by rewrite lookup_setArray_ne.
Qed.

Lemma run_forLoop_draw (quotes tempQuotes : loc) (n i : nat) (s : Store)
    (drawn : list (option value)) (tv : list value) :
  quotes ≠ tempQuotes →
  arrays s !! quotes = Some (toValue <$> drawn) →
  arrays s !! tempQuotes = Some tv →
  let run := forLoop i n (drawBody quotes tempQuotes) s in
  let st := drawLoop random i n (drawn, tv) in
  run.1 = Return ()
  ∧ objects run.2 = objects s
  ∧ arrays run.2 !! quotes = Some (toValue <$> st.1)
  ∧ arrays run.2 !! tempQuotes = Some st.2.
Proof.
  intros Hne. revert i s drawn tv.
  induction n as [|n IH]; intros i s drawn tv Hq Ht; [done|].
  cbn [forLoop]. rewrite drawLoop_S.
  rewrite (run_bind _ _ _ _ _ (run_drawBody _ _ i _ _ _ Hne Hq Ht)).
  unfold draw, Arr.splice1.
  set (randomIndex := floorScale (random i) (length tv)).
  set (s' := setArray tempQuotes _ _).
  destruct (IH (S i) s' (drawn ++ [tv !! randomIndex])
               (delete randomIndex tv)) as (Hr & Ho & Hq' & Ht').
  - unfold s'. rewrite lookup_setArray_ne by done.
    rewrite lookup_setArray. by rewrite fmap_app.
  - unfold s'. by rewrite lookup_setArray.
  - done.
Qed.

Lemma holdsEntry_toValue (entry : option value) (expected : option Quote.t) :
  option_Forall2 (refersTo objs) entry expected →
  holdsEntry objs (toValue entry) expected.
Proof. intros [v q (r & -> & Hr)|]; done. Qed.

Lemma sim_drawQuotesH (count : Z) (validQuotes : loc) (qs : list Quote.t)
    (s : Store) :
  objects s = objs → arrayOf objs s validQuotes qs →
  sim objs (entriesOf objs) (drawQuotesH random count validQuotes) s
      (Return (drawQuotes random count qs)).
Proof.
  intros Ho (vs & Hvs & Hrel). unfold sim, drawQuotesH.
  rewrite (run_bind _ _ _ _ _ (run_lengthOf _ _ _ Hvs)). cbv zeta.
  set (quotes := fresh (dom (arrays s))).
  set (s1 := setArray quotes [] s).
  assert (allocArray [] s = (Return quotes, s1)) as Hq by done.
  rewrite (run_bind _ _ _ _ _ Hq).
  assert (validQuotes ≠ quotes) as Hvq.
  { intros ->. pose proof (fresh_unused s) as Hf. fold quotes in Hf.
    congruence. }
  assert (arrays s1 !! validQuotes = Some vs) as Hvs1.
  { unfold s1. by rewrite lookup_setArray_ne. }
  rewrite (run_bind _ _ _ _ _ (run_spread _ _ _ Hvs1)).
  set (tempQuotes := fresh (dom (arrays s1))).
  set (s2 := setArray tempQuotes vs s1).
  assert (quotes ≠ tempQuotes) as Hqt.
  { intros Heq. pose proof (fresh_unused s1) as Hf. fold tempQuotes in Hf.
    rewrite <- Heq in Hf. unfold s1 in Hf.
    rewrite lookup_setArray in Hf. done. }
  destruct (run_forLoop_draw quotes tempQuotes
              (Z.to_nat (Z.min count (Z.of_nat (length vs)))) 0 s2 [] vs)
    as (Hr & Ho2 & Hq2 & _).
  { done. }
  { unfold s2. rewrite lookup_setArray_ne by done.
    unfold s1. by rewrite lookup_setArray. }
  { unfold s2. by rewrite lookup_setArray. }
  destruct (forLoop 0 _ (drawBody quotes tempQuotes) s2) as [r s3] eqn:Hrun.
  simpl in Hr, Ho2, Hq2. subst r.
  rewrite (run_bind _ _ _ _ _ Hrun). simpl. split; [by rewrite Ho2|].
  eexists. split; [exact Hq2|].
  apply Forall2_fmap_l. unfold drawQuotes. cbv zeta.
  rewrite <- (Forall2_length _ _ _ Hrel).
  eapply Forall2_impl.
  - apply (drawLoop_related random (refersTo objs)); [constructor | done].
  - intros entry expected. apply holdsEntry_toValue.
Qed.

End SimulationSampler.

Section SimulationMatchers.

Variable unicodeLower : jsstring → jsstring.
Variable random : nat → Fraction.
Variable quotesData : loc.
Variable objs : gmap loc Quote.t.

Lemma getQuotes_unfold (corpus : list Quote.t) maxLength minLength tags
    count authors :
  getQuotes unicodeLower random corpus maxLength minLength tags count
            authors
  = (kept ← match authors with
            | Some _ =>
              Arr.filter
                (fun quote => hasMatchingAuthor unicodeLower quote authors)
                corpus
            | None => Return corpus
            end;
     Return (outcome random count
               (List.filter
                  (fun q => hasMatchingTags q tags
                            && withinLength minLength maxLength q) kept))).
Proof.
  unfold getQuotes. rewrite getQuotes_candidates_unfold.
  destruct (match authors with Some _ => _ | None => _ end) as [kept|e];
    creduce; [|done].
  unfold outcome. by destruct (nonEmpty _).
Qed.

Lemma searchQuotes_unfold (corpus : list Quote.t) maxLength minLength
    tagTerms limit authorTerms :
  searchQuotes unicodeLower random corpus maxLength minLength tagTerms
               limit authorTerms
  = (kept ← (if given authorTerms then
               Arr.filter
                 (fun quote =>
                    hasPartialAuthorMatch unicodeLower quote authorTerms)
                 corpus
             else Return corpus);
     Return (outcome random limit
               (List.filter
                  (fun q => hasPartialTagMatch unicodeLower q tagTerms
                            && withinLength minLength maxLength q) kept))).
Proof.
  unfold searchQuotes. rewrite searchQuotes_candidates_unfold.
  destruct (if given authorTerms then _ else _) as [kept|e];
    creduce; [|done].
  unfold outcome. by destruct (nonEmpty _).
Qed.

(** The statements after the category filters (lines 93-124, 151-182). *)
Lemma sim_checkpoints minLength maxLength count (validQuotes : loc)
    (qs : list Quote.t) (s : Store) :
  objects s = objs → arrayOf objs s validQuotes qs →
  sim objs (resultOf objs)
    (n ← lengthOf validQuotes;
     if decide (n = 0) then mret None
     else
       validQuotes ← filterLengthH minLength maxLength validQuotes;
       n ← lengthOf validQuotes;
       if decide (n = 0) then mret None
       else quotes ← drawQuotesH random count validQuotes;
            mret (Some quotes))
    s
    (Return (outcome random count
               (List.filter (withinLength minLength maxLength) qs))).
Proof.
  intros Ho Ha.
  eapply sim_step; [by apply sim_lengthOf|]. intros n s1 _ [-> ->].
  destruct (decide (length qs = 0)) as [Hlen|Hlen].
  { apply nil_length_inv in Hlen as ->. by apply sim_ret. }
  eapply sim_step; [by apply sim_filterLengthH|]. intros v' s2 Ho2 Ha2.
  rewrite filterLength_spec in Ha2.
  eapply sim_step; [by apply sim_lengthOf|]. intros n s3 _ [-> ->].
  unfold outcome, nonEmpty. destruct (decide _) as [Hlen'|Hlen'].
  { by apply sim_ret. }
  eapply sim_step; [by apply sim_drawQuotesH|]. intros l s4 Ho4 He.
  by apply sim_ret.
Qed.

(** The run of [getQuotes] on the store completes as [getQuotes] on the
    contents of the corpus does: it throws the same exception, or returns
    [null] when that one does, or returns an array whose entries refer to
    the quotes that one returns. *)
Theorem getQuotesH_spec (s : Store) (corpus : list Quote.t)
    maxLength minLength tags count authors :
  objects s = objs → arrayOf objs s quotesData corpus →
  sim objs (resultOf objs)
      (getQuotesH unicodeLower random quotesData maxLength minLength tags
                  count authors) s
      (getQuotes unicodeLower random corpus maxLength minLength tags count
                 authors).
Proof.
  intros Ho Ha. rewrite getQuotes_unfold. unfold getQuotesH.
  eapply sim_step; [by apply sim_spread|]. intros v0 s1 Ho1 Ha1.
  apply (sim_bind objs (arrayOf objs)).
  { destruct authors as [requested|]; [|by apply sim_ret].
    apply sim_filterH; [|done..]. apply callbackOf_hasMatchingAuthorH. }
  intros v1 kept s2 Ho2 Ha2.
  apply (sim_step objs (arrayOf objs) (resultOf objs) _ _ s2
           (List.filter (fun q => hasMatchingTags q tags) kept)).
  { destruct tags as [requested|].
    - apply sim_filterH_pure; [|done..]. apply callbackOf_hasMatchingTagsH.
    - apply sim_ret; [done|]. simpl. by rewrite filter_true. }
  intros v2 s3 Ho3 Ha3. rewrite <- filter_filter_and.
  by apply sim_checkpoints.
Qed.

(** The same for [searchQuotes]. *)
Theorem searchQuotesH_spec (s : Store) (corpus : list Quote.t)
    maxLength minLength tagTerms limit authorTerms :
  objects s = objs → arrayOf objs s quotesData corpus →
  sim objs (resultOf objs)
      (searchQuotesH unicodeLower random quotesData maxLength minLength
                     tagTerms limit authorTerms) s
      (searchQuotes unicodeLower random corpus maxLength minLength tagTerms
                    limit authorTerms).
Proof.
  intros Ho Ha. rewrite searchQuotes_unfold. unfold searchQuotesH.
  eapply sim_step; [by apply sim_spread|]. intros v0 s1 Ho1 Ha1.
  apply (sim_bind objs (arrayOf objs)).
  { destruct (given authorTerms); [|by apply sim_ret].
    apply sim_filterH; [|done..]. apply callbackOf_hasPartialAuthorMatchH. }
  intros v1 kept s2 Ho2 Ha2.
  apply (sim_step objs (arrayOf objs) (resultOf objs) _ _ s2
           (List.filter
              (fun q => hasPartialTagMatch unicodeLower q tagTerms) kept)).
  { destruct (given tagTerms) eqn:Hg.
    - apply sim_filterH_pure; [|done..].
      apply callbackOf_hasPartialTagMatchH.
    - apply sim_ret; [done|].
      rewrite (filter_ext_elem _ (fun _ => true)), filter_true; [done|].
      intros q _. by apply hasPartialTagMatch_not_given. }
  intros v2 s3 Ho3 Ha3. rewrite <- filter_filter_and.
  by apply sim_checkpoints.
Qed.

End SimulationMatchers.

(* ===================================================================== *)
(** * Further properties of the matchers *)
(* ===================================================================== *)

Lemma searchQuotes_Return unicodeLower random (quotesData : list Quote.t)
    maxLength minLength tagTerms limit authorTerms result :
  searchQuotes unicodeLower random quotesData maxLength minLength tagTerms
               limit authorTerms = Return result →
  (∀ q, q ∈ quotesData →
        ∃ b, hasPartialAuthorMatch unicodeLower q authorTerms = Return b)
  ∧ result = outcome random limit
               (List.filter
                  (searchQuotes_matches unicodeLower maxLength minLength
                                        tagTerms authorTerms) quotesData).
Proof.
  intros H.
  assert (∀ q, q ∈ quotesData →
               ∃ b, hasPartialAuthorMatch unicodeLower q authorTerms
                    = Return b) as Hret.
  { rewrite searchQuotes_unfold in H.
    apply bind_Return_inv in H as (kept & Hkept & _).
    destruct (given authorTerms) eqn:Hg.
    - by apply filter_Return in Hkept as [? _].
    - intros q _. exists true. by apply hasPartialAuthorMatch_not_given. }
  split; [done|].
  rewrite (searchQuotes_returns _ _ _ _ _ _ _ _ Hret) in H. congruence.
Qed.

Lemma holds_true (c : Completion bool) : holds c = true ↔ c = Return true.
Proof. destruct c as [[]|]; simpl; split; congruence. Qed.

Lemma withinLength_bounds minLength maxLength (quote : Quote.t) :
  withinLength minLength maxLength quote = true ↔
  (∀ lo, minLength = Some lo → (lo ≤ Quote.length quote)%Z)
  ∧ (∀ hi, maxLength = Some hi → (Quote.length quote ≤ hi)%Z).
Proof.
  unfold withinLength. rewrite andb_true_iff.
  destruct minLength as [lo|], maxLength as [hi|]; split.
  all: try (intros [Hlo Hhi]; split; intros ? [= <-]; lia).
  all: try (intros [Hlo Hhi]; split; intros ? ?; done).
  all: intros [Hlo Hhi]; split; try done.
  all: try (specialize (Hlo _ eq_refl); lia).
  all: try (specialize (Hhi _ eq_refl); lia).
Qed.

(** The entries [searchQuotes] returns: as many as the clamped limit, each
    a quote of the corpus that passes the partial author predicate, the
    partial tag predicate and the inclusive length bounds. *)
Theorem searchQuotes_clamped (unicodeLower : jsstring → jsstring)
    (random : nat → Fraction) (quotesData : list Quote.t)
    (maxLength minLength : option Z) (tagTerms : option (list jsstring))
    (limit : Z) (authorTerms : option (list jsstring))
    (quotes : list (option Quote.t)) :
  searchQuotes unicodeLower random quotesData maxLength minLength tagTerms
               limit authorTerms = Return (Array quotes) →
  let M := length (List.filter
                     (searchQuotes_matches unicodeLower maxLength minLength
                                           tagTerms authorTerms)
                     quotesData) in
  Z.of_nat (length quotes) = Z.max 0 (Z.min limit (Z.of_nat M))
  ∧ Forall (fun entry =>
              ∃ q, entry = Some q
                   ∧ q ∈ quotesData
                   ∧ hasPartialAuthorMatch unicodeLower q authorTerms
                     = Return true
                   ∧ hasPartialTagMatch unicodeLower q tagTerms = true
                   ∧ (∀ lo, minLength = Some lo → (lo ≤ Quote.length q)%Z)
                   ∧ (∀ hi, maxLength = Some hi → (Quote.length q ≤ hi)%Z))
           quotes.
Proof.
  intros H M. apply searchQuotes_Return in H as [_ H]. symmetry in H.
  apply outcome_Array in H as [_ ->]. fold M.
  rewrite drawQuotes_length. fold M. split; [lia|].
  eapply Forall_impl; [apply drawQuotes_elements|].
  intros entry (q & -> & Hq). exists q. split; [done|].
  apply list_elem_of_In, filter_In in Hq as [Hq Hm].
  split; [by apply list_elem_of_In|].
  unfold searchQuotes_matches in Hm.
  apply andb_true_iff in Hm as [Hm Hlen].
  apply andb_true_iff in Hm as [Hauthor Htags].
  split; [by apply holds_true|]. split; [done|].
  by apply withinLength_bounds.
Qed.

Lemma searchQuotes_clamped_witness :
  let M := length (List.filter
                     (searchQuotes_matches Sample.noTables None (Some 43%Z)
                                           (Some [str "LIFE"])
                                           (Some [str "mark"]))
                     Sample.corpus) in
  Z.of_nat (length [Some Sample.twain]) = Z.max 0 (Z.min 10 (Z.of_nat M))
  ∧ Forall (fun entry =>
              ∃ q, entry = Some q
                   ∧ q ∈ Sample.corpus
                   ∧ hasPartialAuthorMatch Sample.noTables q
                                           (Some [str "mark"]) = Return true
                   ∧ hasPartialTagMatch Sample.noTables q (Some [str "LIFE"])
                     = true
                   ∧ (∀ lo, Some 43%Z = Some lo → (lo ≤ Quote.length q)%Z)
                   ∧ (∀ hi, @None Z = Some hi → (Quote.length q ≤ hi)%Z))
           [Some Sample.twain].
Proof.
  apply (searchQuotes_clamped Sample.noTables Sample.draws Sample.corpus
           None (Some 43%Z) (Some [str "LIFE"]) 10 (Some [str "mark"])
           [Some Sample.twain]).
  vm_compute. reflexivity.
Defined.

Lemma drawQuotes_all random {A} (count : Z) (validQuotes : list A) :
  (Z.of_nat (length validQuotes) ≤ count)%Z →
  drawQuotes random count validQuotes ≡ₚ Some <$> validQuotes.
Proof.
  intros Hc. destruct (drawQuotes_moves random count validQuotes)
    as (drawn & rest & -> & Hlen & Hperm).
  apply fmap_Permutation. rewrite <- Hperm.
  assert (rest = []) as ->.
  { apply nil_length_inv. apply Permutation_length in Hperm.
    rewrite length_app in Hperm. lia. }
  by rewrite app_nil_r.
Qed.

(** A count that covers the matching quotes returns all of them: the array
    is a rearrangement of the matching quotes of the corpus, each once. *)
Theorem matchers_return_all_matching (unicodeLower : jsstring → jsstring)
    (random : nat → Fraction) (quotesData : list Quote.t)
    (maxLength minLength : option Z) (filter1 filter2 : option (list jsstring))
    (count : Z) (quotes : list (option Quote.t)) :
  (getQuotes unicodeLower random quotesData maxLength minLength filter1 count
             filter2 = Return (Array quotes) →
   let matching := List.filter
                     (getQuotes_matches unicodeLower maxLength minLength
                                        filter1 filter2) quotesData in
   (Z.of_nat (length matching) ≤ count)%Z →
   quotes ≡ₚ Some <$> matching)
  ∧ (searchQuotes unicodeLower random quotesData maxLength minLength filter1
                  count filter2 = Return (Array quotes) →
     let matching := List.filter
                       (searchQuotes_matches unicodeLower maxLength minLength
                                             filter1 filter2) quotesData in
     (Z.of_nat (length matching) ≤ count)%Z →
     quotes ≡ₚ Some <$> matching).
Proof.
  split.
  - intros H matching Hc. apply getQuotes_Return in H as [_ H].
    symmetry in H. apply outcome_Array in H as [_ ->].
    by apply drawQuotes_all.
  - intros H matching Hc. apply searchQuotes_Return in H as [_ H].
    symmetry in H. apply outcome_Array in H as [_ ->].
    by apply drawQuotes_all.
Qed.

Lemma matchers_return_all_matching_witness :
  [Some Sample.twain; Some Sample.hooks]
  ≡ₚ Some <$> List.filter
                (getQuotes_matches Sample.noTables None None None
                   (Some [str "Mark Twain"; str "Bell Hooks"]))
                Sample.corpus.
Proof.
  apply (proj1 (matchers_return_all_matching Sample.noTables Sample.draws
                  Sample.corpus None None None
                  (Some [str "Mark Twain"; str "Bell Hooks"]) 50
                  [Some Sample.twain; Some Sample.hooks])).
  - vm_compute. reflexivity.
  - vm_compute. discriminate.
Defined.

(* ===================================================================== *)
(** * When the matchers throw *)
(* ===================================================================== *)

Lemma filter_throws_iff {A} (p : A → Completion bool) (l : list A) :
  (∃ e, Arr.filter p l = Throw e) ↔ ∃ x e, x ∈ l ∧ p x = Throw e.
Proof.
  split.
  - intros [e H]. apply filter_Throw in H as (x & Hx & Hp). eauto.
  - intros (x & e & Hx & Hp).
    destruct (Arr.filter p l) as [kept|e'] eqn:Hf; [|eauto].
    apply filter_Return in Hf as [Hret _].
    destruct (Hret x Hx) as [b Hb]. congruence.
Qed.

Lemma some_throws_iff {A} (p : A → Completion bool) (l : list A) :
  (∃ e, Arr.some p l = Throw e) ↔
  ∃ pre a post e,
    l = pre ++ a :: post ∧ p a = Throw e ∧ ∀ b, b ∈ pre → p b ≠ Return true.
Proof.
  induction l as [|x l IH]; simpl.
  - split; [intros [e H]; discriminate|].
    intros (pre & a & post & e & H & _). by destruct pre.
  - destruct (p x) as [[]|e] eqn:Hx; creduce.
    + split; [intros [e H]; discriminate|].
      intros (pre & a & post & e & H & Ha & Hpre).
      destruct pre as [|b pre]; simpl in H; injection H as ? ?; subst;
        [congruence|].
      exfalso. eapply Hpre; [left | done].
    + rewrite IH. split.
      * intros (pre & a & post & e & -> & Ha & Hpre).
        exists (x :: pre), a, post, e. split; [done|]. split; [done|].
        intros b Hb. inversion Hb; subst; [congruence | by apply Hpre].
      * intros (pre & a & post & e & H & Ha & Hpre).
        destruct pre as [|b pre]; simpl in H; injection H as ? ?; subst;
          [congruence|].
        exists pre, a, post, e. split; [done|]. split; [done|].
        intros c Hc. apply Hpre. by right.
    + split; [|by eauto]. intros _.
      exists [], x, l, e. split; [done|]. split; [done|].
      intros b Hb. inversion Hb.
Qed.

Lemma wellFormed_false unicodeLower (s : jsstring) :
  wellFormed s = false ↔ ∃ e, normalizeAuthorName unicodeLower s = Throw e.
Proof.
  unfold wellFormed, normalizeAuthorName.
  destruct (decodeURIComponent s) as [d|e]; creduce.
  - split; [discriminate | intros [e H]; discriminate].
  - split; eauto.
Qed.

(** [hasMatchingAuthor] throws exactly when an array of authors is passed
    and either the author of the quote has a malformed escape or a requested
    author with a malformed escape comes before every requested author that
    matches. *)
Theorem hasMatchingAuthor_throws_iff (unicodeLower : jsstring → jsstring)
    (quote : Quote.t) (authors : option (list jsstring)) :
  (∃ e, hasMatchingAuthor unicodeLower quote authors = Throw e) ↔
  ∃ requested,
    authors = Some requested
    ∧ (wellFormed (Quote.author quote) = false
       ∨ ∃ pre author post,
           requested = pre ++ author :: post
           ∧ wellFormed author = false
           ∧ ∀ b, b ∈ pre →
                  normalizeAuthorName unicodeLower b
                  ≠ normalizeAuthorName unicodeLower (Quote.author quote)).
Proof.
  destruct authors as [requested|]; simpl.
  2: { split; [intros [e H]; discriminate | intros (r & H & _); discriminate]. }
  destruct (normalizeAuthorName unicodeLower (Quote.author quote))
    as [qa|e] eqn:Hqa; creduce.
  - rewrite some_throws_iff. split.
    + intros (pre & a & post & e & -> & Ha & Hpre).
      exists (pre ++ a :: post). split; [done|]. right.
      exists pre, a, post. split; [done|]. split.
      * apply (wellFormed_false unicodeLower).
        destruct (normalizeAuthorName unicodeLower a) as [n|e'];
          creduce; [done | eauto].
      * intros b Hb Heq. apply (Hpre b Hb). rewrite Heq. creduce.
        by rewrite bool_decide_eq_true_2.
    + intros (r & [= <-] & [Hq | (pre & a & post & -> & Ha & Hpre)]).
      { apply (wellFormed_false unicodeLower) in Hq as [e He]. congruence. }
      apply (wellFormed_false unicodeLower) in Ha as [e He].
      exists pre, a, post, e. split; [done|]. split.
      * rewrite He. by creduce.
      * intros b Hb Hp. apply (Hpre b Hb).
        destruct (normalizeAuthorName unicodeLower b) as [n|e'];
          creduce; [|done].
        injection Hp as Hp. apply bool_decide_eq_true in Hp. by subst.
  - split; [|by eauto]. intros _. exists requested. split; [done|]. left.
    apply (wellFormed_false unicodeLower). eauto.
Qed.

Lemma hasMatchingAuthor_throws_iff_witness :
  ∃ e, hasMatchingAuthor Sample.noTables Sample.wilde
                         (Some [str "Mark Twain"; str "%zz"; str "Oscar Wilde"])
       = Throw e.
Proof.
  apply (proj2 (hasMatchingAuthor_throws_iff Sample.noTables Sample.wilde
                  (Some [str "Mark Twain"; str "%zz"; str "Oscar Wilde"]))).
  exists [str "Mark Twain"; str "%zz"; str "Oscar Wilde"].
  split; [reflexivity|]. right.
  exists [str "Mark Twain"], (str "%zz"), [str "Oscar Wilde"].
  split; [reflexivity|]. split; [reflexivity|].
  intros b Hb. apply list_elem_of_singleton in Hb. subst b.
  vm_compute. discriminate.
Defined.

(** [getQuotes] throws exactly when its author predicate throws on some
    quote of the corpus, and [searchQuotes] when its partial author
    predicate does: whether a call throws does not depend on the tag
    filter, the length bounds, the count or the draws, because the author
    filter runs first and over the whole corpus. *)
Theorem matchers_throw_iff (unicodeLower : jsstring → jsstring)
    (random : nat → Fraction) (quotesData : list Quote.t)
    (maxLength minLength : option Z) (filter1 : option (list jsstring))
    (count : Z) (filter2 : option (list jsstring)) :
  ((∃ e, getQuotes unicodeLower random quotesData maxLength minLength filter1
                   count filter2 = Throw e)
   ↔ ∃ q e, q ∈ quotesData
            ∧ hasMatchingAuthor unicodeLower q filter2 = Throw e)
  ∧ ((∃ e, searchQuotes unicodeLower random quotesData maxLength minLength
                        filter1 count filter2 = Throw e)
     ↔ ∃ q e, q ∈ quotesData
              ∧ hasPartialAuthorMatch unicodeLower q filter2 = Throw e).
Proof.
  split; split.
  - intros [e H]. unfold getQuotes in H.
    destruct (getQuotes_candidates _ _ _ _ _ _) as [c|e'] eqn:Hc.
    { creduce. by destruct c. }
    apply getQuotes_candidates_Throw in Hc as (q & Hq & Hp). eauto.
  - intros (q & e & Hq & Hp).
    destruct (getQuotes unicodeLower random quotesData maxLength minLength
                        filter1 count filter2) as [r|e'] eqn:Hg; [|eauto].
    apply getQuotes_Return in Hg as [Hret _].
    destruct (Hret q Hq) as [b Hb]. congruence.
  - intros [e H]. rewrite searchQuotes_unfold in H.
    destruct (given filter2) eqn:Hg; [|done].
    destruct (Arr.filter _ quotesData) as [kept|e'] eqn:Hf; [done|].
    apply filter_Throw in Hf as (q & Hq & Hp). eauto.
  - intros (q & e & Hq & Hp).
    destruct (searchQuotes unicodeLower random quotesData maxLength minLength
                           filter1 count filter2) as [r|e'] eqn:Hg; [|eauto].
    apply searchQuotes_Return in Hg as [Hret _].
    destruct (Hret q Hq) as [b Hb]. congruence.
Qed.

(** Without an author filter nothing is decoded: [getQuotes] with
    [authors = null], and [searchQuotes] with [authorTerms] [null] or empty,
    return for every corpus, whatever its author names. *)
Theorem matchers_without_author_filter_return
    (unicodeLower : jsstring → jsstring) (random : nat → Fraction)
    (quotesData : list Quote.t) (maxLength minLength : option Z)
    (filter1 : option (list jsstring)) (count : Z) :
  (∃ result, getQuotes unicodeLower random quotesData maxLength minLength
                       filter1 count None = Return result)
  ∧ (∃ result, searchQuotes unicodeLower random quotesData maxLength
                            minLength filter1 count None = Return result)
  ∧ (∃ result, searchQuotes unicodeLower random quotesData maxLength
                            minLength filter1 count (Some [])
               = Return result).
Proof.
  split; [|split]; eexists.
  - apply getQuotes_returns. intros q _. by exists true.
  - apply searchQuotes_returns. intros q _. by exists true.
  - apply searchQuotes_returns. intros q _. by exists true.
Qed.

Lemma Decode_plain (s : jsstring) : 37%N ∉ s → URI.Decode s = Return s.
Proof.
  induction s as [|c s IH]; intros Hs; [done|].
  apply not_elem_of_cons in Hs as [Hc Hs]. simpl.
  destruct (N.eqb_spec c 37) as [->|_]; [done|].
  rewrite (IH Hs). by creduce.
Qed.

Lemma wellFormed_plain (s : jsstring) : 37%N ∉ s → wellFormed s = true.
Proof.
  intros Hs. unfold wellFormed, decodeURIComponent.
  by rewrite Decode_plain.
Qed.

(** Author names without a percent sign cannot make the matchers throw: when
    neither an author of the corpus nor a requested author or search term
    contains ["%"], [getQuotes] and [searchQuotes] return. *)
Theorem matchers_return_on_plain_names (unicodeLower : jsstring → jsstring)
    (random : nat → Fraction) (quotesData : list Quote.t)
    (maxLength minLength : option Z) (filter1 : option (list jsstring))
    (count : Z) (filter2 : option (list jsstring)) :
  (∀ q, q ∈ quotesData → 37%N ∉ Quote.author q) →
  (∀ a, a ∈ listed filter2 → 37%N ∉ a) →
  (∃ result, getQuotes unicodeLower random quotesData maxLength minLength
                       filter1 count filter2 = Return result)
  ∧ (∃ result, searchQuotes unicodeLower random quotesData maxLength
                            minLength filter1 count filter2 = Return result).
Proof.
  intros Hcorpus Hreq.
  assert (forallb wellFormed (listed filter2) = true) as Hwf.
  { apply forallb_forall. intros a Ha.
    apply wellFormed_plain, Hreq. by apply list_elem_of_In. }
  split; eexists.
  - apply getQuotes_returns. intros q Hq.
    apply hasMatchingAuthor_returns; [|done].
    by apply wellFormed_plain, Hcorpus.
  - apply searchQuotes_returns. intros q Hq.
    apply hasPartialAuthorMatch_returns; [|done].
    by apply wellFormed_plain, Hcorpus.
Qed.

Lemma matchers_return_on_plain_names_witness :
  (∃ result, getQuotes Sample.noTables Sample.draws Sample.corpus None None
                       None 3 (Some [str "OSCAR WILDE"]) = Return result)
  ∧ (∃ result, searchQuotes Sample.noTables Sample.draws Sample.corpus None
                            None None 3 (Some [str "OSCAR WILDE"])
               = Return result).
Proof.
  apply (matchers_return_on_plain_names Sample.noTables Sample.draws
           Sample.corpus None None None 3 (Some [str "OSCAR WILDE"])).
  - intros q Hq. unfold Sample.corpus in Hq.
    repeat (apply elem_of_cons in Hq as [->|Hq];
            [apply (bool_decide_unpack _); vm_compute; exact I|]).
    inversion Hq.
  - intros a Ha. simpl in Ha.
    repeat (apply elem_of_cons in Ha as [->|Ha];
            [apply (bool_decide_unpack _); vm_compute; exact I|]).
    inversion Ha.
Defined.

(* ===================================================================== *)
(** * How the filters compare *)
(* ===================================================================== *)

Lemma filter_sublist_impl {A} (f g : A → bool) (l : list A) :
  (∀ x, x ∈ l → f x = true → g x = true) →
  List.filter f l `sublist_of` List.filter g l.
Proof.
  induction l as [|x l IH]; intros H; simpl; [done|].
  assert (List.filter f l `sublist_of` List.filter g l) as Hl.
  { apply IH. intros y Hy. apply H. by right. }
  destruct (f x) eqn:Hf.
  - rewrite (H x (list_elem_of_here _ _) Hf). by apply sublist_skip.
  - destruct (g x); [by apply sublist_cons | done].
Qed.


Lemma substring_refl (s : jsstring) : substring s s.
Proof. exists [], []. by rewrite app_nil_r. Qed.

(** Tags narrow: when every tag of one request is also a tag of a second
    request, the quotes that pass the second request's filters are among
    those that pass the first's, in corpus order; the same holds for the
    partial tag terms of [searchQuotes].  In particular the order of the
    requested tags and their repetitions do not matter. *)
Theorem more_tags_fewer_candidates (unicodeLower : jsstring → jsstring)
    (quotesData : list Quote.t) (maxLength minLength : option Z)
    (fewer more : list jsstring) (filter2 : option (list jsstring)) :
  (∀ tag, tag ∈ fewer → tag ∈ more) →
  List.filter (getQuotes_matches unicodeLower maxLength minLength (Some more)
                                 filter2) quotesData
  `sublist_of`
  List.filter (getQuotes_matches unicodeLower maxLength minLength (Some fewer)
                                 filter2) quotesData
  ∧ List.filter (searchQuotes_matches unicodeLower maxLength minLength
                                      (Some more) filter2) quotesData
    `sublist_of`
    List.filter (searchQuotes_matches unicodeLower maxLength minLength
                                      (Some fewer) filter2) quotesData.
Proof.
  intros Hsub. split; apply filter_sublist_impl; intros q _.
  - unfold getQuotes_matches. rewrite !andb_true_iff.
    intros [[Ha Ht] Hl]. split; [split|]; [done| |done].
    rewrite hasMatchingTags_spec in Ht. apply hasMatchingTags_spec.
    intros tag Htag. by apply Ht, Hsub.
  - unfold searchQuotes_matches. rewrite !andb_true_iff.
    intros [[Ha Ht] Hl]. split; [split|]; [done| |done].
    rewrite hasPartialTagMatch_spec in Ht. apply hasPartialTagMatch_spec.
    intros term Hterm. by apply Ht, Hsub.
Qed.

Lemma more_tags_fewer_candidates_witness :
  List.filter (getQuotes_matches Sample.noTables None None
                 (Some [str "life"; str "wisdom"; str "life"]) None)
              Sample.corpus
  `sublist_of`
  List.filter (getQuotes_matches Sample.noTables None None
                 (Some [str "wisdom"]) None) Sample.corpus
  ∧ List.filter (searchQuotes_matches Sample.noTables None None
                   (Some [str "life"; str "wisdom"; str "life"]) None)
                Sample.corpus
    `sublist_of`
    List.filter (searchQuotes_matches Sample.noTables None None
                   (Some [str "wisdom"]) None) Sample.corpus.
Proof.
  apply (more_tags_fewer_candidates Sample.noTables Sample.corpus None None
           [str "wisdom"] [str "life"; str "wisdom"; str "life"] None).
  intros tag Htag. apply list_elem_of_singleton in Htag. subst tag.
  right. left.
Defined.


(** Exact implies partial: a quote that passes the exact tag filter for some
    tags and the exact author filter for one author passes the partial
    filters of [searchQuotes] for the same strings. *)
Theorem exact_candidates_are_partial_candidates
    (unicodeLower : jsstring → jsstring) (quotesData : list Quote.t)
    (maxLength minLength : option Z) (tags : option (list jsstring))
    (author : jsstring) :
  List.filter (getQuotes_matches unicodeLower maxLength minLength tags
                                 (Some [author])) quotesData
  `sublist_of`
  List.filter (searchQuotes_matches unicodeLower maxLength minLength tags
                                    (Some [author])) quotesData.
Proof.
  apply filter_sublist_impl. intros q _.
  unfold getQuotes_matches, searchQuotes_matches. rewrite !andb_true_iff.
  intros [[Ha Ht] Hl]. split; [split|]; [| |done].
  - apply holds_true in Ha. apply holds_true.
    apply hasMatchingAuthor_true in Ha as (a & n & Hin & Hn & Hq).
    apply list_elem_of_singleton in Hin. subst a.
    apply hasPartialAuthorMatch_spec. intros term Hterm.
    apply list_elem_of_singleton in Hterm. subst term.
    exists n, n. split; [done|]. split; [done|]. apply substring_refl.
  - destruct tags as [requested|]; [|done].
    rewrite hasMatchingTags_spec in Ht. apply hasPartialTagMatch_spec.
    intros term Hterm. exists term. split; [by apply Ht|].
    apply substring_refl.
Qed.

(* ===================================================================== *)
(** * What the draws can select *)
(* ===================================================================== *)




(* ===================================================================== *)
(** * Calls one after the other *)
(* ===================================================================== *)

Lemma storeAfter_extends unicodeLower (quotesData : loc) (s0 : Store)
    (calls : list Call) (s : Store) :
  extends s0 s → extends s0 (storeAfter unicodeLower quotesData calls s).
Proof.
  revert s. induction calls as [|call calls IH]; intros s Hs; [done|].
  simpl. apply IH. destruct call.
  - by apply keeps_getQuotesH.
  - by apply keeps_searchQuotesH.
Qed.

Lemma arrayOf_extends (s0 s : Store) (l : loc) (qs : list Quote.t) :
  extends s0 s → arrayOf (objects s0) s0 l qs → arrayOf (objects s0) s l qs.
Proof.
  intros [_ Ha] (vs & Hvs & Hrel). exists vs. split; [|done].
  by eapply lookup_weaken.
Qed.

(** Calls do not interfere: after any sequence of calls of [getQuotes] and
    [searchQuotes], returned or thrown, the quote objects and every array
    that existed before are as they were, and a further call completes as
    the same call on the contents of the corpus does. *)
Theorem calls_do_not_interfere (unicodeLower : jsstring → jsstring)
    (quotesData : loc) (s : Store) (corpus : list Quote.t)
    (calls : list Call) (call : Call) :
  arrayOf (objects s) s quotesData corpus →
  let later := storeAfter unicodeLower quotesData calls s in
  objects later = objects s
  ∧ (∀ l vs, arrays s !! l = Some vs → arrays later !! l = Some vs)
  ∧ sim (objects s) (resultOf (objects s))
        (callOnStore unicodeLower quotesData call) later
        (callOnContents unicodeLower corpus call).
Proof.
  intros Ha later.
  pose proof (storeAfter_extends unicodeLower quotesData s calls s
                (extends_refl s)) as Hext.
  fold later in Hext. pose proof Hext as [Hobj Harr].
  split; [done|]. split.
  - intros l vs Hl. by eapply lookup_weaken.
  - pose proof (arrayOf_extends s later quotesData corpus Hext Ha) as Ha'.
    destruct call.
    + by apply getQuotesH_spec.
    + by apply searchQuotesH_spec.
Qed.

Lemma calls_do_not_interfere_witness :
  let later :=
    storeAfter Sample.noTables SampleStore.quotesData
      [CallGetQuotes Sample.draws None None None 2 None;
       CallSearchQuotes Sample.draws None None None 1 (Some [str "%"])]
      SampleStore.store in
  objects later = objects SampleStore.store
  ∧ (∀ l vs, arrays SampleStore.store !! l = Some vs →
             arrays later !! l = Some vs)
  ∧ sim (objects SampleStore.store) (resultOf (objects SampleStore.store))
        (callOnStore Sample.noTables SampleStore.quotesData
           (CallGetQuotes Sample.draws None None (Some [str "humor"]) 5 None))
        later
        (callOnContents Sample.noTables Sample.corpus
           (CallGetQuotes Sample.draws None None (Some [str "humor"]) 5 None)).
Proof.
  apply (calls_do_not_interfere Sample.noTables SampleStore.quotesData
           SampleStore.store Sample.corpus).
  exists [Ref 1; Ref 2; Ref 3]. split; [reflexivity|].
  repeat constructor; eexists; (split; [reflexivity|]); reflexivity.
Defined.

(* ===================================================================== *)
(** * Numbers, bounds and the matchers the routes call *)
(* ===================================================================== *)

Lemma minNum_Int (a b : Z) : minNum (Int a) (Int b) = Int (Z.min a b).
Proof.
  unfold minNum, ltNum. destruct (Z.ltb_spec b a); f_equal; lia.
Qed.

Lemma drawQuotesNum_Int random {A} (count : Z) (validQuotes : list A) :
  drawQuotesNum random (Int count) validQuotes
  = drawQuotes random count validQuotes.
Proof. unfold drawQuotesNum. by rewrite minNum_Int. Qed.

Lemma withinLengthNum_boundsOf minLength maxLength (quote : Quote.t) :
  withinLengthNum minLength maxLength quote
  = withinLength (boundsOf minLength maxLength).1
                 (boundsOf minLength maxLength).2 quote.
Proof.
  unfold withinLengthNum, withinLength, boundsOf, minBound, maxBound.
  unfold geNum, leNum.
  destruct minLength as [[| | |lo]|], maxLength as [[| | |hi]|]; simpl;
    rewrite ?Z.geb_leb, ?andb_false_r, ?andb_true_r; try done.
  all: by destruct (Z.leb_spec 1 (Quote.length quote)),
                   (Z.leb_spec (Quote.length quote) 0); try lia.
Qed.

Lemma filterLengthNum_spec minLength maxLength (l : list Quote.t) :
  filterLengthNum minLength maxLength l
  = List.filter (withinLengthNum minLength maxLength) l.
Proof.
  unfold filterLengthNum, withinLengthNum.
  destruct minLength as [lo|], maxLength as [hi|]; simpl.
  - apply filter_filter_and.
  - apply filter_ext_elem. intros q _. by rewrite andb_true_r.
  - done.
  - by rewrite filter_true.
Qed.

Lemma filterLengthNum_boundsOf minLength maxLength (l : list Quote.t) :
  filterLengthNum minLength maxLength l
  = List.filter (withinLength (boundsOf minLength maxLength).1
                              (boundsOf minLength maxLength).2) l.
Proof.
  rewrite filterLengthNum_spec. apply filter_ext_elem. intros q _.
  apply withinLengthNum_boundsOf.
Qed.

Lemma checkpointsNum_spec random minLength maxLength (count : Z)
    (l : list Quote.t) :
  (if decide (length l = 0) then Return Null
   else if decide (length (filterLengthNum minLength maxLength l) = 0)
        then Return Null
        else Return (Array (drawQuotesNum random (Int count)
                              (filterLengthNum minLength maxLength l))))
  = Return (outcome random count
              (List.filter (withinLength (boundsOf minLength maxLength).1
                                         (boundsOf minLength maxLength).2)
                           l)).
Proof.
  rewrite filterLengthNum_boundsOf, drawQuotesNum_Int. unfold outcome, nonEmpty.
  destruct (decide (length l = 0)) as [Hl|Hl].
  - apply nil_length_inv in Hl as ->. done.
  - by destruct (decide _).
Qed.

Lemma getQuotesNum_getQuotes unicodeLower random (quotesData : list Quote.t)
    maxLength minLength tags (count : Z) authors :
  getQuotesNum unicodeLower random quotesData maxLength minLength tags
               (Int count) authors
  = getQuotes unicodeLower random quotesData
              (boundsOf minLength maxLength).2
              (boundsOf minLength maxLength).1 tags count authors.
Proof.
  rewrite getQuotes_unfold. unfold getQuotesNum. cbv zeta.
  destruct (match authors with Some _ => _ | None => _ end) as [kept|e];
    creduce; [|done].
  rewrite tagStage_spec, checkpointsNum_spec. by rewrite filter_filter_and.
Qed.

Lemma searchQuotesNum_searchQuotes unicodeLower random
    (quotesData : list Quote.t) maxLength minLength tagTerms (limit : Z)
    authorTerms :
  searchQuotesNum unicodeLower random quotesData maxLength minLength
                  tagTerms (Int limit) authorTerms
  = searchQuotes unicodeLower random quotesData
                 (boundsOf minLength maxLength).2
                 (boundsOf minLength maxLength).1 tagTerms limit authorTerms.
Proof.
  rewrite searchQuotes_unfold. unfold searchQuotesNum. cbv zeta.
  destruct (if given authorTerms then _ else _) as [kept|e];
    creduce; [|done].
  rewrite partialTagStage_spec, checkpointsNum_spec.
  by rewrite filter_filter_and.
Qed.

(* ===================================================================== *)
(** * The validation of authors and tags *)
(* ===================================================================== *)

Lemma splitOn_nonempty (sep : N) (s : jsstring) : splitOn sep s ≠ [].
Proof.
  destruct s as [|c s]; simpl; [done|].
  destruct (c =? sep)%N; [done|]. by destruct (splitOn sep s).
Qed.

Lemma piecesOf_nil (parameter : option jsstring) :
  piecesOf parameter = [] ↔ ifPresent parameter Some None = None.
Proof.
  unfold piecesOf, ifPresent. destruct parameter as [[|c s]|]; try done.
  split; [|done]. intros H. by apply splitOn_nonempty in H.
Qed.

Section AuthorMap.

Variable unicodeLower : jsstring → jsstring.

Abbreviation lower := (toLowerCase unicodeLower).
Abbreviation authorMapOf := (buildAuthorMap unicodeLower).
Abbreviation entryOf := (canonical unicodeLower).
Abbreviation unknownIn := (unknown unicodeLower).

Lemma buildAuthorMap_snoc (keys : list jsstring) (author : jsstring) :
  authorMapOf (keys ++ [author])
  = if decide (lower author = str "__proto__") then authorMapOf keys
    else <[lower author := author]> (authorMapOf keys).
Proof. unfold buildAuthorMap. by rewrite fold_left_app. Qed.

Lemma buildAuthorMap_lookup (keys : list jsstring) (k author : jsstring) :
  authorMapOf keys !! k = Some author →
  author ∈ keys ∧ lower author = k.
Proof.
  induction keys as [|key keys IH] using rev_ind; [done|].
  rewrite buildAuthorMap_snoc. intros H.
  assert (authorMapOf keys !! k = Some author →
          author ∈ keys ++ [key] ∧ lower author = k) as Hold.
  { intros [Hin ?]%IH. split; [|done]. apply elem_of_app. by left. }
  destruct (decide (lower key = str "__proto__")); [by apply Hold|].
  destruct (decide (lower key = k)) as [<-|Hne].
  - rewrite lookup_insert_eq in H. injection H as <-. split; [|done].
    apply elem_of_app. right. apply list_elem_of_singleton. done.
  - rewrite lookup_insert_ne in H by done. by apply Hold.
Qed.


Lemma canonical_Some (keys : list jsstring) (author : jsstring)
    (p : Property) :
  entryOf (authorMapOf keys) author = Some p →
  (∃ key, p = Own key ∧ key ∈ keys
          ∧ lower key = lower author)
  ∨ (p = Inherited (lower author)
     ∧ lower author ∈ objectPrototypeNames).
Proof.
  unfold canonical, getProperty.
  destruct (authorMapOf keys !! lower author) as [key|] eqn:Hkey.
  - destruct (truthy (Own key)); [|done]. intros [= <-]. left.
    apply buildAuthorMap_lookup in Hkey as [? ?]. by exists key.
  - destruct (decide _) as [Hin|]; [|done]. simpl. intros [= <-].
    right. done.
Qed.


Lemma sortAuthors_spec (authorMap : gmap jsstring jsstring)
    (authors : list jsstring) :
  sortAuthors unicodeLower authorMap authors
  = (omap (entryOf authorMap) authors,
     List.filter (unknownIn authorMap) authors).
Proof.
  induction authors as [|author authors IH]; [done|].
  cbn [sortAuthors omap list_omap List.filter]. rewrite IH.
  unfold unknown, canonical.
  destruct (getProperty authorMap (lower author)) as [p|]; [|done].
  by destruct (truthy p).
Qed.

Lemma omap_canonical (authorMap : gmap jsstring jsstring)
    (authors : list jsstring) :
  List.filter (unknownIn authorMap) authors = [] →
  Forall2 (fun author p => entryOf authorMap author = Some p) authors
          (omap (entryOf authorMap) authors).
Proof.
  induction authors as [|author authors IH]; [constructor|].
  cbn [omap list_omap List.filter]. unfold unknown at 1.
  destruct (entryOf authorMap author) as [p|] eqn:Hp; [|done].
  intros H. constructor; [done|]. by apply IH.
Qed.

Lemma validateAuthors_Accepted authorsFile authors processed :
  validateAuthors unicodeLower authorsFile authors = Accepted processed →
  (authors = None ∧ processed = None)
  ∨ ∃ requested keys entries,
      authors = Some requested ∧ authorsFile = Some keys
      ∧ processed = Some entries
      ∧ Forall2 (fun author p =>
                   entryOf (authorMapOf keys) author = Some p)
                requested entries.
Proof.
  unfold validateAuthors. destruct authors as [requested|].
  - destruct authorsFile as [keys|]; [|done]. rewrite sortAuthors_spec.
    destruct (List.filter _ requested) as [|a invalid] eqn:Hinv; [|done].
    simpl. intros [= <-]. right.
    exists requested, keys, (omap (entryOf (authorMapOf keys)) requested).
    repeat split; try done. by apply omap_canonical.
  - intros [= <-]. by left.
Qed.

Lemma validateAuthors_Rejected authorsFile authors response :
  validateAuthors unicodeLower authorsFile authors = Rejected response →
  ∃ requested,
    authors = Some requested
    ∧ ((authorsFile = None
        ∧ response
          = Respond 500 (ErrorJson (str "Error validating authors")))
       ∨ ∃ keys,
           authorsFile = Some keys
           ∧ List.filter (unknownIn (authorMapOf keys)) requested ≠ []
           ∧ response
             = Respond 400
                 (ErrorJson
                    (str "Invalid author(s): "
                     ++ join (str ", ")
                          (List.filter (unknownIn (authorMapOf keys))
                                       requested)))).
Proof.
  unfold validateAuthors. destruct authors as [requested|]; [|done].
  intros H. exists requested. split; [done|].
  destruct authorsFile as [keys|].
  - right. exists keys. split; [done|]. rewrite sortAuthors_spec in H.
    destruct (List.filter _ requested) as [|a invalid] eqn:Hinv; [done|].
    simpl in H. injection H as <-. done.
  - left. injection H as <-. done.
Qed.

Lemma validateAuthors_status authorsFile authors response :
  validateAuthors unicodeLower authorsFile authors = Rejected response →
  status response = 400%Z ∨ status response = 500%Z.
Proof.
  intros (requested & _ & [[_ ->]|(keys & _ & _ & ->)])%validateAuthors_Rejected.
  - by right.
  - by left.
Qed.

End AuthorMap.

Lemma validateTags_status tagsFile tags response :
  validateTags tagsFile tags = Some response →
  status response = 400%Z ∨ status response = 500%Z.
Proof.
  unfold validateTags. destruct tagsFile as [names|].
  - destruct (0 <? length _); [|done]. intros [= <-]. by left.
  - intros [= <-]. by right.
Qed.

Lemma validateTags_None tagsFile tags :
  validateTags tagsFile tags = None →
  ∃ names, tagsFile = Some names ∧ ∀ tag, tag ∈ tags → tag ∈ names.
Proof.
  unfold validateTags. destruct tagsFile as [names|]; [|done].
  destruct (List.filter _ tags) as [|t invalid] eqn:Hinv; [|done].
  intros _. exists names. split; [done|]. intros tag Htag.
  destruct (decide (tag ∈ names)) as [|Hno]; [done|].
  assert (tag ∈ List.filter
                  (fun tag => negb (bool_decide
                                      (tag ∈ (list_to_set names
                                                : gset jsstring)))) tags)
    as Hin.
  { apply list_elem_of_In, filter_In. split; [by apply list_elem_of_In|].
    apply negb_true_iff, bool_decide_eq_false.
    by rewrite elem_of_list_to_set. }
  rewrite Hinv in Hin. by apply elem_of_nil in Hin.
Qed.

(* ===================================================================== *)
(** * What the routes answer *)
(* ===================================================================== *)

Lemma inRange_Int (count : Num) (most : Z) :
  isNaN count || ltNum count (Int 1) || gtNum count (Int most) = false →
  ∃ k : Z, count = Int k ∧ (1 ≤ k ≤ most)%Z.
Proof.
  destruct count as [| | |k]; try done. unfold gtNum. simpl. intros H.
  exists k. split; [done|].
  apply orb_false_iff in H as [?%Z.ltb_ge ?%Z.ltb_ge]. lia.
Qed.

Lemma decide_Int {A} (k n : Z) (x y : A) :
  (if decide (Int k = Int n) then x else y) = if decide (k = n) then x else y.
Proof. destruct (decide (k = n)) as [->|]; repeat case_decide; congruence. Qed.

Section Arrays.

Variable unicodeLower : jsstring → jsstring.
Variable random : nat → Fraction.
Variable quotesData : list Quote.t.

Lemma outcome_drawn (count : Z) (candidates : list Quote.t)
    (quotes : list (option Quote.t)) :
  (1 ≤ count)%Z →
  outcome random count candidates = Array quotes →
  ∃ drawn,
    quotes = Some <$> drawn
    ∧ 1 ≤ length drawn ≤ Z.to_nat count
    ∧ ∀ quote, quote ∈ drawn → quote ∈ candidates.
Proof.
  intros Hc [Hne ->]%outcome_Array.
  destruct (drawQuotes_moves random count candidates)
    as (drawn & rest & -> & Hlen & Hperm).
  exists drawn. split; [done|]. split.
  - destruct candidates; [done|]. simpl in Hlen. lia.
  - intros quote Hq. rewrite <- Hperm. apply elem_of_app. by left.
Qed.

Lemma getQuotes_Array maxLength minLength tags (count : Z) authors quotes :
  (1 ≤ count)%Z →
  getQuotes unicodeLower random quotesData maxLength minLength tags count
            authors = Return (Array quotes) →
  ∃ drawn,
    quotes = Some <$> drawn
    ∧ 1 ≤ length drawn ≤ Z.to_nat count
    ∧ ∀ quote, quote ∈ drawn →
        quote ∈ quotesData
        ∧ hasMatchingAuthor unicodeLower quote authors = Return true
        ∧ hasMatchingTags quote tags = true
        ∧ withinLength minLength maxLength quote = true.
Proof.
  intros Hc [_ Hout]%getQuotes_Return. symmetry in Hout.
  apply outcome_drawn in Hout as (drawn & -> & Hlen & Hin); [|done].
  exists drawn. split; [done|]. split; [lia|]. intros quote Hq.
  apply Hin, list_elem_of_In, filter_In in Hq as [Hq Hm].
  unfold getQuotes_matches in Hm.
  apply andb_true_iff in Hm as [[Ha Ht]%andb_true_iff Hl].
  split; [by apply list_elem_of_In|]. split; [by apply holds_true|]. done.
Qed.

Lemma searchQuotes_Array maxLength minLength tagTerms (limit : Z) authorTerms
    quotes :
  (1 ≤ limit)%Z →
  searchQuotes unicodeLower random quotesData maxLength minLength tagTerms
               limit authorTerms = Return (Array quotes) →
  ∃ drawn,
    quotes = Some <$> drawn
    ∧ 1 ≤ length drawn ≤ Z.to_nat limit
    ∧ ∀ quote, quote ∈ drawn →
        quote ∈ quotesData
        ∧ hasPartialAuthorMatch unicodeLower quote authorTerms = Return true
        ∧ hasPartialTagMatch unicodeLower quote tagTerms = true
        ∧ withinLength minLength maxLength quote = true.
Proof.
  intros Hc [_ Hout]%searchQuotes_Return. symmetry in Hout.
  apply outcome_drawn in Hout as (drawn & -> & Hlen & Hin); [|done].
  exists drawn. split; [done|]. split; [lia|]. intros quote Hq.
  apply Hin, list_elem_of_In, filter_In in Hq as [Hq Hm].
  unfold searchQuotes_matches in Hm.
  apply andb_true_iff in Hm as [[Ha Ht]%andb_true_iff Hl].
  split; [by apply list_elem_of_In|]. split; [by apply holds_true|]. done.
Qed.

End Arrays.

Section Answers.

Variable unicodeLower : jsstring → jsstring.
Variable toDouble : N → Z → Num.
Variable inheritedText : jsstring → jsstring.
Variable random : nat → Fraction.
Variable quotesData : list Quote.t.
Variables authorsFile tagsFile : option (list jsstring).

(** The steps of the random route, written with the vocabulary. *)
Lemma randomRoute_unfold (query : Query.t) :
  randomRoute unicodeLower toDouble inheritedText random quotesData
              authorsFile tagsFile query
  = let maxLength := boundOf toDouble (Query.maxLength query) in
    let minLength := boundOf toDouble (Query.minLength query) in
    let tags :=
      ifPresent (Query.tags query)
                (fun s => Some (map (toLowerCase unicodeLower) (commas s)))
                None in
    let authors := ifPresent (Query.authors query)
                             (fun s => Some (commas s)) None in
    let count := countOf toDouble (Query.count query) 1 in
    if isNaN count || ltNum count (Int 1) || gtNum count (Int 50) then
      Return (Respond 400
                (ErrorJson (str "Count must be a number between 1 and 50.")))
    else
      match validateAuthors unicodeLower authorsFile authors with
      | Rejected response => Return response
      | Accepted authors =>
        match tags ≫= validateTags tagsFile with
        | Some response => Return response
        | None =>
          if lengthsInverted minLength maxLength then Return invertedResponse
          else
            quotes ← getQuotesNum unicodeLower random quotesData maxLength
                                  minLength tags count
                                  (map (textOf inheritedText) <$> authors);
            match quotes with
            | Array quotes =>
              Return (Respond 200
                        (if decide (count = Int 1)
                         then QuoteJson (mjoin (quotes !! 0))
                         else QuotesJson quotes))
            | Null => Return notFound
            end
        end
      end.
Proof.
  unfold randomRoute. cbv zeta.
  by destruct (ifPresent (Query.tags query) _ None).
Qed.

Lemma listRoute_unfold (query : Query.t) :
  listRoute unicodeLower toDouble inheritedText random quotesData
            authorsFile tagsFile query
  = let maxLength := boundOf toDouble (Query.maxLength query) in
    let minLength := boundOf toDouble (Query.minLength query) in
    let exactTags :=
      bool_decide (Query.exactTags query = Some (str "true")) in
    let tags :=
      ifPresent (Query.tags query)
                (fun s => Some (map (toLowerCase unicodeLower) (commas s)))
                None in
    let authors := ifPresent (Query.authors query)
                             (fun s => Some (commas s)) None in
    let limit := countOf toDouble (Query.limit query) 10 in
    if isNaN limit || ltNum limit (Int 1) || gtNum limit (Int 100) then
      Return (Respond 400
                (ErrorJson (str "Limit must be a number between 1 and 100.")))
    else
      match validateAuthors unicodeLower authorsFile authors with
      | Rejected response => Return response
      | Accepted authors =>
        if exactTags then
          match tags ≫= validateTags tagsFile with
          | Some response => Return response
          | None =>
            if lengthsInverted minLength maxLength
            then Return invertedResponse
            else
              quotes ← getQuotesNum unicodeLower random quotesData maxLength
                                    minLength tags limit
                                    (map (textOf inheritedText) <$> authors);
              match quotes with
              | Array quotes => Return (Respond 200 (QuotesJson quotes))
              | Null => Return notFound
              end
          end
        else
          if lengthsInverted minLength maxLength then Return invertedResponse
          else
            quotes ← searchQuotesNum unicodeLower random quotesData maxLength
                                     minLength
                                     (Some (piecesOf (Query.tags query)))
                                     limit (Some []);
            match quotes with
            | Array quotes => Return (Respond 200 (QuotesJson quotes))
            | Null => Return notFound
            end
      end.
Proof.
  unfold listRoute. cbv zeta.
  destruct (bool_decide (Query.exactTags query = Some (str "true"))).
  - by destruct (ifPresent (Query.tags query) _ None).
  - by destruct (ifPresent (Query.tags query) _ None).
Qed.

End Answers.

Lemma ifPresent_pieces (parameter : option jsstring)
    (f : list jsstring → list jsstring) (pieces : list jsstring) :
  ifPresent parameter (fun s => Some (f (commas s))) None = Some pieces →
  pieces = f (piecesOf parameter).
Proof.
  unfold piecesOf, ifPresent. destruct parameter as [[|c s]|]; try done.
  by intros [= <-].
Qed.

Lemma ifPresent_no_pieces (parameter : option jsstring)
    (f : list jsstring → list jsstring) :
  ifPresent parameter (fun s => Some (f (commas s))) None = None →
  piecesOf parameter = [].
Proof.
  unfold piecesOf, ifPresent. by destruct parameter as [[|c s]|].
Qed.

Section Served.

Variable unicodeLower : jsstring → jsstring.
Variable toDouble : N → Z → Num.
Variable inheritedText : jsstring → jsstring.
Variable quotesData : list Quote.t.
Variables authorsFile tagsFile : option (list jsstring).

Lemma served_intro (query : Query.t) entries (quote : Quote.t) :
  validateAuthors unicodeLower authorsFile
    (ifPresent (Query.authors query) (fun s => Some (commas s)) None)
  = Accepted entries →
  ifPresent (Query.tags query)
            (fun s => Some (map (toLowerCase unicodeLower) (commas s))) None
    ≫= validateTags tagsFile = None →
  quote ∈ quotesData →
  hasMatchingAuthor unicodeLower quote
                    (map (textOf inheritedText) <$> entries) = Return true →
  hasMatchingTags quote
    (ifPresent (Query.tags query)
               (fun s => Some (map (toLowerCase unicodeLower) (commas s)))
               None) = true →
  withinLengthNum (boundOf toDouble (Query.minLength query))
                  (boundOf toDouble (Query.maxLength query)) quote = true →
  served unicodeLower toDouble inheritedText quotesData authorsFile tagsFile
         query quote.
Proof.
  intros Hva Hvt Hq Ha Ht Hl. split; [done|]. split; [done|]. split.
  - intros tag Htag.
    destruct (ifPresent (Query.tags query) _ None) as [tags|] eqn:Htags.
    + apply ifPresent_pieces in Htags as ->. simpl in Hvt.
      apply validateTags_None in Hvt as (names & -> & Hnames).
      split.
      * apply (proj1 (hasMatchingTags_spec _ _) Ht).
        by apply list_elem_of_fmap_2.
      * exists names. split; [done|]. by apply Hnames, list_elem_of_fmap_2.
    + apply ifPresent_no_pieces in Htags. rewrite Htags in Htag.
      by apply elem_of_nil in Htag.
  - intros Hne.
    apply validateAuthors_Accepted
      in Hva as [[Hnone _]|(requested & keys & ps & Hreq & -> & -> & Hall)].
    { by apply (ifPresent_no_pieces _ (fun l => l)) in Hnone. }
    apply (ifPresent_pieces _ (fun l => l)) in Hreq as ->.
    apply hasMatchingAuthor_true in Ha as (text & n & Htext & Hn & Hqn).
    apply list_elem_of_fmap in Htext as (p & -> & Hp).
    apply list_elem_of_lookup in Hp as [i Hi].
    destruct (Forall2_lookup_r _ _ _ _ _ Hall Hi) as (author & Hai & Hcan).
    exists author, (textOf inheritedText p), n.
    split; [by eapply list_elem_of_lookup_2|]. split; [|done].
    apply canonical_Some in Hcan as [(key & -> & Hkey & Hlow)|[-> Hproto]].
    + left. by exists keys.
    + by right.
Qed.

End Served.

Section Found.

Variable unicodeLower : jsstring → jsstring.
Variable toDouble : N → Z → Num.
Variable quotesData : list Quote.t.

Lemma found_intro (query : Query.t) (authorTerms : option jsstring)
    (quote : Quote.t) :
  quote ∈ quotesData →
  hasPartialAuthorMatch unicodeLower quote (Some (piecesOf authorTerms))
  = Return true →
  hasPartialTagMatch unicodeLower quote (Some (piecesOf (Query.tags query)))
  = true →
  withinLengthNum (boundOf toDouble (Query.minLength query))
                  (boundOf toDouble (Query.maxLength query)) quote = true →
  found unicodeLower toDouble quotesData query authorTerms quote.
Proof.
  intros Hq Ha Ht Hl. split; [done|]. split; [done|]. split.
  - by apply hasPartialTagMatch_spec.
  - by apply hasPartialAuthorMatch_spec.
Qed.

End Found.

Lemma bind_validateTags_status tagsFile (tags : option (list jsstring))
    response :
  tags ≫= validateTags tagsFile = Some response →
  status response = 400%Z ∨ status response = 500%Z.
Proof.
  destruct tags as [tags|]; [|done]. apply validateTags_status.
Qed.

(** The random route answers 200 with quotes that meet the request: the
    count read from the query is between 1 and 50, the body is one quote
    when the count is 1 and otherwise an array, of at least one and at most
    [count] quotes, and every quote sent is a quote of the corpus within
    the bounds that carries every requested tag and whose author is one of
    the requested authors. *)
Theorem randomRoute_ok (unicodeLower : jsstring → jsstring)
    (toDouble : N → Z → Num) (inheritedText : jsstring → jsstring)
    (random : nat → Fraction) (quotesData : list Quote.t)
    (authorsFile tagsFile : option (list jsstring)) (query : Query.t)
    (body : Json) :
  randomRoute unicodeLower toDouble inheritedText random quotesData
              authorsFile tagsFile query = Return (Respond 200 body) →
  ∃ (count : Z) (quotes : list Quote.t),
    countOf toDouble (Query.count query) 1 = Int count
    ∧ (1 ≤ count ≤ 50)%Z
    ∧ 1 ≤ length quotes ≤ Z.to_nat count
    ∧ body = (if decide (count = 1%Z) then QuoteJson (head quotes)
              else QuotesJson (Some <$> quotes))
    ∧ Forall (served unicodeLower toDouble inheritedText quotesData
                     authorsFile tagsFile query) quotes.
Proof.
  rewrite randomRoute_unfold. cbv zeta. intros H.
  destruct (isNaN _ || _ || _) eqn:Hc; [done|].
  apply inRange_Int in Hc as (k & Hk & Hrange). rewrite Hk in H.
  destruct (validateAuthors _ _ _) as [r|entries] eqn:Hva.
  { injection H as ->. by apply validateAuthors_status in Hva as [|]. }
  destruct (_ ≫= validateTags tagsFile) as [r|] eqn:Hvt.
  { injection H as ->. by apply bind_validateTags_status in Hvt as [|]. }
  destruct (lengthsInverted _ _); [done|].
  rewrite getQuotesNum_getQuotes in H.
  apply bind_Return_inv in H as ([|quotes] & Hg & H); [done|].
  injection H as <-.
  apply getQuotes_Array in Hg as (drawn & -> & Hlen & Hin); [|lia].
  exists k, drawn. split; [done|]. split; [done|]. split; [done|].
  rewrite decide_Int. split.
  - destruct (decide (k = 1%Z)); [|done]. by destruct drawn.
  - apply Forall_forall. intros quote Hq.
    destruct (Hin _ Hq) as (? & ? & ? & ?).
    apply served_intro with entries; try done.
    by rewrite withinLengthNum_boundsOf.
Qed.

Lemma randomRoute_ok_witness :
  ∃ (count : Z) (quotes : list Quote.t),
    countOf SampleRoutes.exact (Query.count SampleQueries.exact) 1
    = Int count
    ∧ (1 ≤ count ≤ 50)%Z
    ∧ 1 ≤ length quotes ≤ Z.to_nat count
    ∧ QuotesJson [Some Sample.twain]
      = (if decide (count = 1%Z) then QuoteJson (head quotes)
         else QuotesJson (Some <$> quotes))
    ∧ Forall (served Sample.noTables SampleRoutes.exact
                     SampleRoutes.nativeText Sample.corpus
                     SampleRoutes.authorsFile SampleRoutes.tagsFile
                     SampleQueries.exact) quotes.
Proof.
  apply (randomRoute_ok Sample.noTables SampleRoutes.exact
           SampleRoutes.nativeText Sample.draws Sample.corpus
           SampleRoutes.authorsFile SampleRoutes.tagsFile
           SampleQueries.exact (QuotesJson [Some Sample.twain])).
  vm_compute. reflexivity.
Defined.

Section ArrayAnswers.

Variable unicodeLower : jsstring → jsstring.
Variable toDouble : N → Z → Num.
Variable random : nat → Fraction.
Variable quotesData : list Quote.t.

Lemma search_200 (query : Query.t) (authorTerms : option jsstring)
    (body : Json) :
  (let maxLength := boundOf toDouble (Query.maxLength query) in
   let minLength := boundOf toDouble (Query.minLength query) in
   let limit := countOf toDouble (Query.limit query) 10 in
   if isNaN limit || ltNum limit (Int 1) || gtNum limit (Int 100) then
     Return (Respond 400
               (ErrorJson (str "Limit must be a number between 1 and 100.")))
   else if lengthsInverted minLength maxLength then Return invertedResponse
   else
     quotes ← searchQuotesNum unicodeLower random quotesData maxLength
                              minLength (Some (piecesOf (Query.tags query)))
                              limit (Some (piecesOf authorTerms));
     match quotes with
     | Array quotes => Return (Respond 200 (QuotesJson quotes))
     | Null => Return notFound
     end) = Return (Respond 200 body) →
  arrayAnswer toDouble query
              (found unicodeLower toDouble quotesData query authorTerms) body.
Proof.
  cbv zeta. intros H.
  destruct (isNaN _ || _ || _) eqn:Hc; [done|].
  apply inRange_Int in Hc as (k & Hk & Hrange). rewrite Hk in H.
  destruct (lengthsInverted _ _); [done|].
  rewrite searchQuotesNum_searchQuotes in H.
  apply bind_Return_inv in H as ([|quotes] & Hg & H); [done|].
  injection H as <-.
  apply searchQuotes_Array in Hg as (drawn & -> & Hlen & Hin); [|lia].
  exists k, drawn. repeat (split; [done|]).
  apply Forall_forall. intros quote Hq.
  destruct (Hin _ Hq) as (? & ? & ? & ?).
  apply found_intro; try done. by rewrite withinLengthNum_boundsOf.
Qed.

End ArrayAnswers.

(** The two search routes answer 200 with an array of quotes that meet the
    search: between one quote and as many as the limit, which is between 1
    and 100; every quote is a quote of the corpus within the bounds, every
    tag term is part of one of its tags and every author term part of its
    author.  The author terms are the parameter [authors] for
    [/api/quotes/search] and [terms] for [/api/quotes/author-search]. *)
Theorem search_routes_ok (unicodeLower : jsstring → jsstring)
    (toDouble : N → Z → Num) (random : nat → Fraction)
    (quotesData : list Quote.t) (query : Query.t) (body : Json) :
  (searchRoute unicodeLower toDouble random quotesData query
   = Return (Respond 200 body) →
   arrayAnswer toDouble query
     (found unicodeLower toDouble quotesData query (Query.authors query))
     body)
  ∧ (authorSearchRoute unicodeLower toDouble random quotesData query
     = Return (Respond 200 body) →
     arrayAnswer toDouble query
       (found unicodeLower toDouble quotesData query (Query.terms query))
       body).
Proof.
  split.
  - exact (search_200 unicodeLower toDouble random quotesData query
                      (Query.authors query) body).
  - exact (search_200 unicodeLower toDouble random quotesData query
                      (Query.terms query) body).
Qed.

Lemma search_routes_ok_witness :
  arrayAnswer SampleRoutes.exact SampleQueries.partial
    (found Sample.noTables SampleRoutes.exact Sample.corpus
           SampleQueries.partial (Query.authors SampleQueries.partial))
    (QuotesJson [Some Sample.hooks])
  ∧ arrayAnswer SampleRoutes.exact SampleQueries.partial
      (found Sample.noTables SampleRoutes.exact Sample.corpus
             SampleQueries.partial (Query.terms SampleQueries.partial))
      (QuotesJson [Some Sample.hooks]).
Proof.
  destruct (search_routes_ok Sample.noTables SampleRoutes.exact Sample.draws
              Sample.corpus SampleQueries.partial
              (QuotesJson [Some Sample.hooks])) as [Hsearch Hauthor].
  split.
  - apply Hsearch. vm_compute. reflexivity.
  - apply Hauthor. vm_compute. reflexivity.
Defined.

(** The list route answers 200 with an array of at least one quote and at
    most as many as the limit, which is between 1 and 100.  With
    [exactTags=true] every quote meets the request as in the random route
    (a quote of the corpus within the bounds that carries every requested
    tag and whose author is requested); otherwise every quote is a quote of
    the corpus within the bounds, and every tag term is part of one of its
    tags. *)
Theorem listRoute_ok (unicodeLower : jsstring → jsstring)
    (toDouble : N → Z → Num) (inheritedText : jsstring → jsstring)
    (random : nat → Fraction) (quotesData : list Quote.t)
    (authorsFile tagsFile : option (list jsstring)) (query : Query.t)
    (body : Json) :
  listRoute unicodeLower toDouble inheritedText random quotesData authorsFile
            tagsFile query = Return (Respond 200 body) →
  arrayAnswer toDouble query
    (if bool_decide (Query.exactTags query = Some (str "true"))
     then served unicodeLower toDouble inheritedText quotesData authorsFile
                 tagsFile query
     else found unicodeLower toDouble quotesData query None) body.
Proof.
  rewrite listRoute_unfold. cbv zeta. intros H.
  destruct (isNaN _ || _ || _) eqn:Hc; [done|].
  destruct (validateAuthors _ _ _) as [r|entries] eqn:Hva.
  { injection H as ->. by apply validateAuthors_status in Hva as [|]. }
  destruct (bool_decide _).
  - apply inRange_Int in Hc as (k & Hk & Hrange). rewrite Hk in H.
    destruct (_ ≫= validateTags tagsFile) as [r|] eqn:Hvt.
    { injection H as ->. by apply bind_validateTags_status in Hvt as [|]. }
    destruct (lengthsInverted _ _); [done|].
    rewrite getQuotesNum_getQuotes in H.
    apply bind_Return_inv in H as ([|quotes] & Hg & H); [done|].
    injection H as <-.
    apply getQuotes_Array in Hg as (drawn & -> & Hlen & Hin); [|lia].
    exists k, drawn. repeat (split; [done|]).
    apply Forall_forall. intros quote Hq.
    destruct (Hin _ Hq) as (? & ? & ? & ?).
    apply served_intro with entries; try done.
    by rewrite withinLengthNum_boundsOf.
  - apply (search_200 unicodeLower toDouble random quotesData query None).
    cbv zeta. by rewrite Hc.
Qed.

Lemma listRoute_ok_witness :
  arrayAnswer SampleRoutes.exact SampleQueries.exact
    (if bool_decide (Query.exactTags SampleQueries.exact = Some (str "true"))
     then served Sample.noTables SampleRoutes.exact SampleRoutes.nativeText
                 Sample.corpus SampleRoutes.authorsFile SampleRoutes.tagsFile
                 SampleQueries.exact
     else found Sample.noTables SampleRoutes.exact Sample.corpus
                SampleQueries.exact None)
    (QuotesJson [Some Sample.twain]).
Proof.
  apply (listRoute_ok Sample.noTables SampleRoutes.exact
           SampleRoutes.nativeText Sample.draws Sample.corpus
           SampleRoutes.authorsFile SampleRoutes.tagsFile
           SampleQueries.exact (QuotesJson [Some Sample.twain])).
  vm_compute. reflexivity.
Defined.

(* ===================================================================== *)
(** * Bounds that are no number *)
(* ===================================================================== *)

Lemma withinLengthNum_NaN minLength maxLength (quote : Quote.t) :
  minLength = Some NaN ∨ maxLength = Some NaN →
  withinLengthNum minLength maxLength quote = false.
Proof.
  unfold withinLengthNum. intros [-> | ->]; [done|].
  by rewrite andb_false_r.
Qed.

Lemma filterLengthNum_NaN minLength maxLength (l : list Quote.t) :
  minLength = Some NaN ∨ maxLength = Some NaN →
  filterLengthNum minLength maxLength l = [].
Proof.
  intros H. rewrite filterLengthNum_spec. apply filter_nil_iff.
  intros q _. by apply withinLengthNum_NaN.
Qed.

Section NoNumber.

Variable unicodeLower : jsstring → jsstring.
Variable toDouble : N → Z → Num.
Variable inheritedText : jsstring → jsstring.
Variable random : nat → Fraction.
Variable quotesData : list Quote.t.
Variables authorsFile tagsFile : option (list jsstring).

Lemma checkpoints_NaN minLength maxLength (count : Num) (l : list Quote.t)
    (quotes : Quotes) :
  minLength = Some NaN ∨ maxLength = Some NaN →
  (if decide (length l = 0) then Return Null
   else if decide (length (filterLengthNum minLength maxLength l) = 0)
        then Return Null
        else Return (Array (drawQuotesNum random count
                              (filterLengthNum minLength maxLength l))))
  = Return quotes →
  quotes = Null.
Proof.
  intros Hnan. rewrite (filterLengthNum_NaN _ _ _ Hnan). simpl.
  destruct (decide _); congruence.
Qed.

Lemma getQuotesNum_NaN maxLength minLength tags count authors quotes :
  minLength = Some NaN ∨ maxLength = Some NaN →
  getQuotesNum unicodeLower random quotesData maxLength minLength tags count
               authors = Return quotes →
  quotes = Null.
Proof.
  intros Hnan H. unfold getQuotesNum in H. cbv zeta in H.
  apply bind_Return_inv in H as (kept & _ & H).
  by apply checkpoints_NaN in H.
Qed.

Lemma searchQuotesNum_NaN maxLength minLength tagTerms limit authorTerms
    quotes :
  minLength = Some NaN ∨ maxLength = Some NaN →
  searchQuotesNum unicodeLower random quotesData maxLength minLength
                  tagTerms limit authorTerms = Return quotes →
  quotes = Null.
Proof.
  intros Hnan H. unfold searchQuotesNum in H. cbv zeta in H.
  apply bind_Return_inv in H as (kept & _ & H).
  by apply checkpoints_NaN in H.
Qed.

End NoNumber.

(** A bound that is no number is not refused and lets no quote through: when
    [minLength] or [maxLength] is given and [parseInt] reads no number from
    it, a route that answers sends the 404 of a search without result, or
    one of the refusals 400 and 500 of the other validations; it never sends
    quotes. *)
Theorem routes_bound_no_number (unicodeLower : jsstring → jsstring)
    (toDouble : N → Z → Num) (inheritedText : jsstring → jsstring)
    (random : nat → Fraction) (quotesData : list Quote.t)
    (authorsFile tagsFile : option (list jsstring)) (query : Query.t)
    (response : Response) :
  boundOf toDouble (Query.minLength query) = Some NaN
  ∨ boundOf toDouble (Query.maxLength query) = Some NaN →
  randomRoute unicodeLower toDouble inheritedText random quotesData
              authorsFile tagsFile query = Return response
  ∨ listRoute unicodeLower toDouble inheritedText random quotesData
              authorsFile tagsFile query = Return response
  ∨ authorSearchRoute unicodeLower toDouble random quotesData query
    = Return response
  ∨ searchRoute unicodeLower toDouble random quotesData query
    = Return response →
  response = notFound
  ∨ status response = 400%Z
  ∨ status response = 500%Z.
Proof.
  intros Hnan [H|[H|[H|H]]].
  - rewrite randomRoute_unfold in H. cbv zeta in H.
    destruct (isNaN _ || _ || _); [injection H as <-; by right; left|].
    destruct (validateAuthors _ _ _) as [r|entries] eqn:Hva.
    { injection H as ->. right. by apply validateAuthors_status in Hva. }
    destruct (_ ≫= validateTags tagsFile) as [r|] eqn:Hvt.
    { injection H as ->. right. by apply bind_validateTags_status in Hvt. }
    destruct (lengthsInverted _ _); [injection H as <-; by right; left|].
    apply bind_Return_inv in H as (quotes & Hg & H).
    apply getQuotesNum_NaN in Hg as ->; [|done]. injection H as <-. by left.
  - rewrite listRoute_unfold in H. cbv zeta in H.
    destruct (isNaN _ || _ || _); [injection H as <-; by right; left|].
    destruct (validateAuthors _ _ _) as [r|entries] eqn:Hva.
    { injection H as ->. right. by apply validateAuthors_status in Hva. }
    destruct (bool_decide _).
    + destruct (_ ≫= validateTags tagsFile) as [r|] eqn:Hvt.
      { injection H as ->. right.
        by apply bind_validateTags_status in Hvt. }
      destruct (lengthsInverted _ _); [injection H as <-; by right; left|].
      apply bind_Return_inv in H as (quotes & Hg & H).
      apply getQuotesNum_NaN in Hg as ->; [|done]. injection H as <-.
      by left.
    + destruct (lengthsInverted _ _); [injection H as <-; by right; left|].
      apply bind_Return_inv in H as (quotes & Hg & H).
      apply searchQuotesNum_NaN in Hg as ->; [|done]. injection H as <-.
      by left.
  - unfold authorSearchRoute in H. cbv zeta in H.
    destruct (isNaN _ || _ || _); [injection H as <-; by right; left|].
    destruct (lengthsInverted _ _); [injection H as <-; by right; left|].
    apply bind_Return_inv in H as (quotes & Hg & H).
    apply searchQuotesNum_NaN in Hg as ->; [|done]. injection H as <-.
    by left.
  - unfold searchRoute in H. cbv zeta in H.
    destruct (isNaN _ || _ || _); [injection H as <-; by right; left|].
    destruct (lengthsInverted _ _); [injection H as <-; by right; left|].
    apply bind_Return_inv in H as (quotes & Hg & H).
    apply searchQuotesNum_NaN in Hg as ->; [|done]. injection H as <-.
    by left.
Qed.

Lemma routes_bound_no_number_witness :
  notFound = notFound
  ∨ status notFound = 400%Z
  ∨ status notFound = 500%Z.
Proof.
  apply (routes_bound_no_number Sample.noTables SampleRoutes.exact
           SampleRoutes.nativeText Sample.draws Sample.corpus
           SampleRoutes.authorsFile SampleRoutes.tagsFile
           SampleQueries.noNumber notFound).
  - left. vm_compute. reflexivity.
  - left. vm_compute. reflexivity.
Defined.

(* ===================================================================== *)
(** * Names the validation refuses *)
(* ===================================================================== *)

Lemma inRange_false (k most : Z) :
  (1 ≤ k ≤ most)%Z →
  isNaN (Int k) || ltNum (Int k) (Int 1) || gtNum (Int k) (Int most) = false.
Proof.
  intros H. unfold gtNum. simpl. apply orb_false_iff. split.
  - apply Z.ltb_ge. lia.
  - apply Z.ltb_ge. lia.
Qed.


Lemma elem_of_filter {A} (f : A → bool) (l : list A) (x : A) :
  x ∈ List.filter f l ↔ x ∈ l ∧ f x = true.
Proof. rewrite !list_elem_of_In. apply filter_In. Qed.




Lemma validateTags_unknown (names tags : list jsstring) (tag : jsstring) :
  tag ∈ tags → tag ∉ names →
  validateTags (Some names) tags
  = Some (Respond 400
            (ErrorJson
               (str "Invalid tag(s): "
                ++ join (str ", ")
                     (List.filter (fun tag => bool_decide (tag ∉ names))
                                  tags)))).
Proof.
  intros Hin Hno. unfold validateTags.
  rewrite (filter_ext_elem _ (fun tag => bool_decide (tag ∉ names))).
  2: { intros t _. destruct (decide (t ∈ names)) as [Hyes|Hnot].
       - rewrite (bool_decide_eq_true_2 (t ∈ _))
           by by apply elem_of_list_to_set.
         by rewrite bool_decide_eq_false_2 by auto.
       - rewrite (bool_decide_eq_false_2 (t ∈ _))
           by by rewrite elem_of_list_to_set.
         by rewrite bool_decide_eq_true_2 by auto. }
  destruct (List.filter _ tags) as [|t invalid] eqn:Hinv; [|done].
  assert (tag ∈ List.filter (fun tag => bool_decide (tag ∉ names)) tags)
    as Hf.
  { apply elem_of_filter. split; [done|]. by apply bool_decide_eq_true_2. }
  rewrite Hinv in Hf. by apply elem_of_nil in Hf.
Qed.

(** A requested tag that [tags.json] does not know is refused where tags
    are matched exactly: when the count (the limit) is valid, the requested
    authors are accepted and one of the requested tags is, in lowercase, no
    name of [tags.json], the random route, and the list route with
    [exactTags=true], answer 400 with a message that lists, in lowercase and
    in the order of the request, the requested tags that are no name of
    [tags.json]. *)
Theorem routes_refuse_unknown_tag (unicodeLower : jsstring → jsstring)
    (toDouble : N → Z → Num) (inheritedText : jsstring → jsstring)
    (random : nat → Fraction) (quotesData : list Quote.t)
    (authorsFile : option (list jsstring)) (names : list jsstring)
    (query : Query.t) (tag : jsstring) entries :
  validateAuthors unicodeLower authorsFile
    (ifPresent (Query.authors query) (fun s => Some (commas s)) None)
  = Accepted entries →
  tag ∈ piecesOf (Query.tags query) →
  toLowerCase unicodeLower tag ∉ names →
  let refusal :=
    Return (Respond 400
              (ErrorJson
                 (str "Invalid tag(s): "
                  ++ join (str ", ")
                       (List.filter
                          (fun tag => bool_decide (tag ∉ names))
                          (map (toLowerCase unicodeLower)
                               (piecesOf (Query.tags query))))))) in
  (∀ count : Z,
     countOf toDouble (Query.count query) 1 = Int count →
     (1 ≤ count ≤ 50)%Z →
     randomRoute unicodeLower toDouble inheritedText random quotesData
                 authorsFile (Some names) query = refusal)
  ∧ (∀ limit : Z,
       countOf toDouble (Query.limit query) 10 = Int limit →
       (1 ≤ limit ≤ 100)%Z →
       Query.exactTags query = Some (str "true") →
       listRoute unicodeLower toDouble inheritedText random quotesData
                 authorsFile (Some names) query = refusal).
Proof.
  intros Hva Hin Hno refusal. subst refusal.
  assert (ifPresent (Query.tags query)
                    (fun s => Some (map (toLowerCase unicodeLower) (commas s)))
                    None
          = Some (map (toLowerCase unicodeLower)
                      (piecesOf (Query.tags query)))) as Htags.
  { unfold piecesOf, ifPresent in *.
    destruct (Query.tags query) as [[|c s]|]; try done.
    all: by apply elem_of_nil in Hin. }
  assert (toLowerCase unicodeLower tag
          ∈ map (toLowerCase unicodeLower) (piecesOf (Query.tags query)))
    as Hlow by by apply list_elem_of_fmap_2.
  split.
  - intros count Hcount Hrange. rewrite randomRoute_unfold. cbv zeta.
    rewrite Hcount, (inRange_false count 50 Hrange), Hva, Htags.
    cbn [mbind option_bind].
    by rewrite (validateTags_unknown _ _ _ Hlow Hno).
  - intros limit Hlimit Hrange Hexact. rewrite listRoute_unfold. cbv zeta.
    rewrite Hlimit, (inRange_false limit 100 Hrange), Hva, Htags.
    rewrite bool_decide_eq_true_2 by done. cbn [mbind option_bind].
    by rewrite (validateTags_unknown _ _ _ Hlow Hno).
Qed.

Lemma routes_refuse_unknown_tag_witness :
  let refusal :=
    Return (Respond 400 (ErrorJson (str "Invalid tag(s): nope, zen"))) in
  randomRoute Sample.noTables SampleRoutes.exact SampleRoutes.nativeText
              Sample.draws Sample.corpus SampleRoutes.authorsFile
              SampleRoutes.tagsFile SampleQueries.strangeTags = refusal
  ∧ listRoute Sample.noTables SampleRoutes.exact SampleRoutes.nativeText
              Sample.draws Sample.corpus SampleRoutes.authorsFile
              SampleRoutes.tagsFile SampleQueries.strangeTags = refusal.
Proof.
  destruct (routes_refuse_unknown_tag Sample.noTables SampleRoutes.exact
              SampleRoutes.nativeText Sample.draws Sample.corpus
              SampleRoutes.authorsFile
              [str "wisdom"; str "life"; str "humor"; str "tough-love";
               str "lifestyle"]
              SampleQueries.strangeTags (str "Zen")
              (Some [Own (str "Mark Twain")]))
    as [Hrandom Hlist].
  - vm_compute. reflexivity.
  - apply (bool_decide_unpack _). vm_compute. exact I.
  - apply (bool_decide_unpack _). vm_compute. exact I.
  - split.
    + apply (Hrandom 2%Z); [vm_compute; reflexivity|lia].
    + apply (Hlist 5%Z); [vm_compute; reflexivity|lia|reflexivity].
Defined.



(* ===================================================================== *)
(** * Requests the validation shields the matcher from *)
(* ===================================================================== *)

Section Shield.

Variable unicodeLower : jsstring → jsstring.
Variable toDouble : N → Z → Num.
Variable inheritedText : jsstring → jsstring.
Variable random : nat → Fraction.
Variable quotesData : list Quote.t.
Variables authorsFile tagsFile : option (list jsstring).

Hypothesis corpus_decodes :
  ∀ quote, quote ∈ quotesData → wellFormed (Quote.author quote) = true.
Hypothesis keys_decode :
  ∀ keys key, authorsFile = Some keys → key ∈ keys → wellFormed key = true.
Hypothesis inherited_decode :
  ∀ name, name ∈ objectPrototypeNames →
          wellFormed (inheritedText name) = true.



End Shield.



(* ===================================================================== *)
(** * The case of the request *)
(* ===================================================================== *)

Lemma lowerBasicLatin_comma (c : N) :
  (lowerBasicLatin c =? 44)%N = (c =? 44)%N.
Proof.
  unfold lowerBasicLatin.
  destruct ((65 <=? c)%N && (c <=? 90)%N) eqn:Hc; [|done].
  apply andb_true_iff in Hc as [?%N.leb_le ?%N.leb_le].
  destruct (N.eqb_spec (c + 32) 44), (N.eqb_spec c 44); try done; lia.
Qed.

Lemma commas_lower (s : jsstring) :
  commas (map lowerBasicLatin s) = map (map lowerBasicLatin) (commas s).
Proof.
  unfold commas. induction s as [|c s IH]; [done|].
  cbn [map splitOn]. rewrite lowerBasicLatin_comma, IH.
  destruct (c =? 44)%N; [done|].
  by destruct (splitOn 44 s).
Qed.

Lemma commas_BasicLatin (s : jsstring) :
  forallb isBasicLatin s = true →
  Forall (fun piece => forallb isBasicLatin piece = true) (commas s).
Proof.
  unfold commas. induction s as [|c s IH]; intros H.
  - by repeat constructor.
  - cbn [forallb] in H. apply andb_true_iff in H as [Hc Hs].
    specialize (IH Hs). cbn [splitOn]. destruct (c =? 44)%N.
    + by constructor.
    + destruct (splitOn 44 s) as [|piece pieces].
      * constructor; [|done]. cbn [forallb]. by rewrite Hc.
      * inversion IH; subst. constructor; [|done].
        cbn [forallb]. by rewrite Hc.
Qed.

Section Case.

Variable unicodeLower : jsstring → jsstring.

Lemma toLowerCase_BasicLatin (s : jsstring) :
  forallb isBasicLatin s = true →
  toLowerCase unicodeLower s = map lowerBasicLatin s.
Proof. intros H. unfold toLowerCase. by rewrite H. Qed.

Lemma lower_commas (s : jsstring) :
  forallb isBasicLatin s = true →
  map (toLowerCase unicodeLower) (commas s) = commas (map lowerBasicLatin s).
Proof.
  intros H. rewrite commas_lower. apply map_ext_Forall.
  eapply Forall_impl; [by apply commas_BasicLatin|].
  intros piece Hp. by apply toLowerCase_BasicLatin.
Qed.

Lemma ifPresent_lower (p1 p2 : option jsstring) :
  forallb isBasicLatin (default [] p1) = true →
  forallb isBasicLatin (default [] p2) = true →
  map lowerBasicLatin <$> p1 = map lowerBasicLatin <$> p2 →
  ifPresent p1 (fun s => Some (map (toLowerCase unicodeLower) (commas s)))
            None
  = ifPresent p2 (fun s => Some (map (toLowerCase unicodeLower) (commas s)))
              None.
Proof.
  intros H1 H2 Heq.
  destruct p1 as [s1|], p2 as [s2|]; try done. simpl in *.
  injection Heq as Heq.
  destruct s1 as [|c1 s1], s2 as [|c2 s2]; try done.
  unfold ifPresent. by rewrite !lower_commas, Heq.
Qed.

Lemma ifPresent_fmap (p : option jsstring) :
  map (toLowerCase unicodeLower)
    <$> ifPresent p (fun s => Some (commas s)) None
  = ifPresent p (fun s => Some (map (toLowerCase unicodeLower) (commas s)))
              None.
Proof. by destruct p as [[|c s]|]. Qed.

Lemma sortAuthors_lower (authorMap : gmap jsstring jsstring)
    (r1 r2 : list jsstring) :
  map (toLowerCase unicodeLower) r1 = map (toLowerCase unicodeLower) r2 →
  omap (canonical unicodeLower authorMap) r1
  = omap (canonical unicodeLower authorMap) r2
  ∧ (List.filter (unknown unicodeLower authorMap) r1 = []
     → List.filter (unknown unicodeLower authorMap) r2 = []).
Proof.
  revert r2. induction r1 as [|a1 r1 IH]; intros [|a2 r2] Heq; try done.
  injection Heq as Ha Hr. destruct (IH _ Hr) as [IHo IHf].
  cbn [omap list_omap List.filter]. unfold unknown, canonical.
  rewrite Ha.
  destruct (getProperty authorMap (toLowerCase unicodeLower a2)) as [p|].
  - destruct (truthy p); [|done]. split; [|done].
    fold (canonical unicodeLower authorMap). by rewrite IHo.
  - done.
Qed.

Lemma validateAuthors_lower authorsFile (a1 a2 : option (list jsstring)) :
  map (toLowerCase unicodeLower) <$> a1
  = map (toLowerCase unicodeLower) <$> a2 →
  validateAuthors unicodeLower authorsFile a2
  = validateAuthors unicodeLower authorsFile a1
  ∨ ∃ invalid,
      validateAuthors unicodeLower authorsFile a1
      = Rejected (Respond 400
                    (ErrorJson (str "Invalid author(s): "
                                ++ join (str ", ") invalid))).
Proof.
  intros Heq. destruct a1 as [r1|], a2 as [r2|]; try done; [|by left].
  injection Heq as Heq. unfold validateAuthors.
  destruct authorsFile as [keys|]; [|by left].
  rewrite !sortAuthors_spec.
  destruct (sortAuthors_lower (buildAuthorMap unicodeLower keys) _ _ Heq)
    as [Ho Hf].
  destruct (List.filter _ r1) as [|a invalid] eqn:Hinv.
  - left. by rewrite Hf, Ho.
  - right. by eexists.
Qed.

End Case.

(** The random route does not see the case of Basic Latin letters in
    [tags] and [authors]: two queries whose tags and authors differ in the
    case of such letters only get the same answer from the same draws,
    unless the answer is the refusal of an unknown author, which repeats the
    authors as they were written. *)
Theorem randomRoute_case_insensitive (unicodeLower : jsstring → jsstring)
    (toDouble : N → Z → Num) (inheritedText : jsstring → jsstring)
    (random : nat → Fraction) (quotesData : list Quote.t)
    (authorsFile tagsFile : option (list jsstring))
    (maxLength minLength tags authors tags' authors' count limit exactTags
       terms : option jsstring) :
  let route :=
    randomRoute unicodeLower toDouble inheritedText random quotesData
                authorsFile tagsFile in
  let asked :=
    Query.Build maxLength minLength tags authors count limit exactTags
                terms in
  let other :=
    Query.Build maxLength minLength tags' authors' count limit exactTags
                terms in
  (∀ parameter, parameter ∈ [tags; authors; tags'; authors'] →
                forallb isBasicLatin (default [] parameter) = true) →
  map lowerBasicLatin <$> tags = map lowerBasicLatin <$> tags' →
  map lowerBasicLatin <$> authors = map lowerBasicLatin <$> authors' →
  route other = route asked
  ∨ ∃ invalid,
      route asked
      = Return (Respond 400
                  (ErrorJson (str "Invalid author(s): "
                              ++ join (str ", ") invalid))).
Proof.
  intros route asked other Hlatin Htags Hauthors. subst route asked other.
  assert (∀ p, p ∈ [tags; authors; tags'; authors'] →
               forallb isBasicLatin (default [] p) = true) as Hl by done.
  assert (forallb isBasicLatin (default [] tags) = true) as Ht.
  { apply Hl. set_solver. }
  assert (forallb isBasicLatin (default [] authors) = true) as Ha.
  { apply Hl. set_solver. }
  assert (forallb isBasicLatin (default [] tags') = true) as Ht'.
  { apply Hl. set_solver. }
  assert (forallb isBasicLatin (default [] authors') = true) as Ha'.
  { apply Hl. set_solver. }
  rewrite !randomRoute_unfold. cbv zeta.
  cbn [Query.maxLength Query.minLength Query.tags Query.authors Query.count].
  destruct (isNaN _ || _ || _); [by left|].
  rewrite (ifPresent_lower unicodeLower tags' tags) by done.
  destruct (validateAuthors_lower unicodeLower authorsFile
              (ifPresent authors (fun s => Some (commas s)) None)
              (ifPresent authors' (fun s => Some (commas s)) None))
    as [-> | [invalid ->]].
  - rewrite !ifPresent_fmap. by apply ifPresent_lower.
  - by left.
  - right. by exists invalid.
Qed.

Lemma randomRoute_case_insensitive_witness :
  let route :=
    randomRoute Sample.noTables SampleRoutes.exact SampleRoutes.nativeText
                Sample.draws Sample.corpus SampleRoutes.authorsFile
                SampleRoutes.tagsFile in
  let asked :=
    Query.Build None None (Some (str "Wisdom,life"))
                (Some (str "Mark Twain")) (Some (str "2")) None None None in
  let other :=
    Query.Build None None (Some (str "WISDOM,Life"))
                (Some (str "mark TWAIN")) (Some (str "2")) None None None in
  route other = route asked
  ∨ ∃ invalid,
      route asked
      = Return (Respond 400
                  (ErrorJson (str "Invalid author(s): "
                              ++ join (str ", ") invalid))).
Proof.
  apply (randomRoute_case_insensitive Sample.noTables SampleRoutes.exact
           SampleRoutes.nativeText Sample.draws Sample.corpus
           SampleRoutes.authorsFile SampleRoutes.tagsFile None None
           (Some (str "Wisdom,life")) (Some (str "Mark Twain"))
           (Some (str "WISDOM,Life")) (Some (str "mark TWAIN"))
           (Some (str "2")) None None None).
  - intros parameter Hp.
    repeat (apply elem_of_cons in Hp as [->|Hp];
            [vm_compute; reflexivity|]).
    inversion Hp.
  - vm_compute. reflexivity.
  - vm_compute. reflexivity.
Defined.

(* ===================================================================== *)
(** * Search terms reach the matcher as they were written *)
(* ===================================================================== *)

Section Unshielded.

Variable unicodeLower : jsstring → jsstring.
Variable toDouble : N → Z → Num.
Variable random : nat → Fraction.
Variable quotesData : list Quote.t.

Lemma hasPartialAuthorMatch_malformed (quote : Quote.t)
    (term : jsstring) (rest : list jsstring) :
  wellFormed term = false →
  ∃ e, hasPartialAuthorMatch unicodeLower quote (Some (term :: rest))
       = Throw e.
Proof.
  intros [e He]%(wellFormed_false unicodeLower).
  unfold hasPartialAuthorMatch. cbn [length]. rewrite decide_False by done.
  destruct (normalizeAuthorName unicodeLower (Quote.author quote))
    as [quoteAuthor|e']; creduce; [|by eexists].
  cbn [Arr.every]. rewrite He. creduce. by eexists.
Qed.

Lemma searchQuotesNum_malformed maxLength minLength tagTerms limit
    (term : jsstring) (rest : list jsstring) :
  quotesData ≠ [] →
  wellFormed term = false →
  ∃ e, searchQuotesNum unicodeLower random quotesData maxLength minLength
                       tagTerms limit (Some (term :: rest)) = Throw e.
Proof.
  intros Hne Hterm. unfold searchQuotesNum. cbv zeta.
  destruct quotesData as [|quote l]; [done|].
  cbn [given length Nat.ltb Nat.leb Arr.filter].
  destruct (hasPartialAuthorMatch_malformed quote term rest Hterm)
    as [e ->].
  creduce. by eexists.
Qed.

Lemma search_throws (query : Query.t) (authorTerms : option jsstring)
    (limit : Z) (term : jsstring) (rest : list jsstring) :
  quotesData ≠ [] →
  countOf toDouble (Query.limit query) 10 = Int limit →
  (1 ≤ limit ≤ 100)%Z →
  lengthsInverted (boundOf toDouble (Query.minLength query))
                  (boundOf toDouble (Query.maxLength query)) = false →
  piecesOf authorTerms = term :: rest →
  wellFormed term = false →
  ∃ e,
    (let maxLength := boundOf toDouble (Query.maxLength query) in
     let minLength := boundOf toDouble (Query.minLength query) in
     let limit := countOf toDouble (Query.limit query) 10 in
     if isNaN limit || ltNum limit (Int 1) || gtNum limit (Int 100) then
       Return (Respond 400
                 (ErrorJson
                    (str "Limit must be a number between 1 and 100.")))
     else if lengthsInverted minLength maxLength then Return invertedResponse
     else
       quotes ← searchQuotesNum unicodeLower random quotesData maxLength
                                minLength
                                (Some (piecesOf (Query.tags query)))
                                limit (Some (piecesOf authorTerms));
       match quotes with
       | Array quotes => Return (Respond 200 (QuotesJson quotes))
       | Null => Return notFound
       end) = Throw e.
Proof.
  intros Hne Hlimit Hrange Hbounds Hterms Hterm. cbv zeta.
  rewrite Hlimit, (inRange_false limit 100 Hrange), Hbounds, Hterms.
  destruct (searchQuotesNum_malformed
              (boundOf toDouble (Query.maxLength query))
              (boundOf toDouble (Query.minLength query))
              (Some (piecesOf (Query.tags query))) (Int limit) term rest
              Hne Hterm) as [e ->].
  creduce. by eexists.
Qed.

End Unshielded.

(** The search routes hand the author terms to the matcher as they were
    written, and an exception escapes the handler when the first of them
    has a malformed percent-escape (as in [?authors=%25], which reaches the
    route as the string of one percent sign): with a corpus that is not
    empty, a valid limit and bounds that are not inverted, the call of
    [/api/quotes/search] throws when the first piece of [authors] is
    malformed, and the call of [/api/quotes/author-search] when the first
    piece of [terms] is. *)
Theorem search_routes_throw (unicodeLower : jsstring → jsstring)
    (toDouble : N → Z → Num) (random : nat → Fraction)
    (quotesData : list Quote.t) (query : Query.t) (limit : Z)
    (term : jsstring) (rest : list jsstring) :
  quotesData ≠ [] →
  countOf toDouble (Query.limit query) 10 = Int limit →
  (1 ≤ limit ≤ 100)%Z →
  lengthsInverted (boundOf toDouble (Query.minLength query))
                  (boundOf toDouble (Query.maxLength query)) = false →
  wellFormed term = false →
  (piecesOf (Query.authors query) = term :: rest →
   ∃ e, searchRoute unicodeLower toDouble random quotesData query = Throw e)
  ∧ (piecesOf (Query.terms query) = term :: rest →
     ∃ e, authorSearchRoute unicodeLower toDouble random quotesData query
          = Throw e).
Proof.
  intros Hne Hlimit Hrange Hbounds Hterm. split; intros Hterms.
  - exact (search_throws unicodeLower toDouble random quotesData query
             (Query.authors query) limit term rest Hne Hlimit Hrange Hbounds
             Hterms Hterm).
  - exact (search_throws unicodeLower toDouble random quotesData query
             (Query.terms query) limit term rest Hne Hlimit Hrange Hbounds
             Hterms Hterm).
Qed.

Lemma search_routes_throw_witness :
  let query :=
    Query.Build None None None (Some (str "%")) None None None
                (Some (str "%,mark")) in
  (∃ e, searchRoute Sample.noTables SampleRoutes.exact Sample.draws
                    Sample.corpus query = Throw e)
  ∧ (∃ e, authorSearchRoute Sample.noTables SampleRoutes.exact Sample.draws
                            Sample.corpus query = Throw e).
Proof.
  intros query.
  assert (Sample.corpus ≠ []) as Hne by done.
  assert (countOf SampleRoutes.exact (Query.limit query) 10 = Int 10)
    as Hlimit by reflexivity.
  assert (1 ≤ 10 ≤ 100)%Z as Hrange by lia.
  assert (lengthsInverted
            (boundOf SampleRoutes.exact (Query.minLength query))
            (boundOf SampleRoutes.exact (Query.maxLength query)) = false)
    as Hbounds by reflexivity.
  assert (wellFormed (str "%") = false) as Hterm by (vm_compute; reflexivity).
  split.
  - apply (proj1 (search_routes_throw Sample.noTables SampleRoutes.exact
                    Sample.draws Sample.corpus query 10 (str "%") []
                    Hne Hlimit Hrange Hbounds Hterm)).
    vm_compute. reflexivity.
  - apply (proj2 (search_routes_throw Sample.noTables SampleRoutes.exact
                    Sample.draws Sample.corpus query 10 (str "%")
                    [str "mark"] Hne Hlimit Hrange Hbounds Hterm)).
    vm_compute. reflexivity.
Defined.

(* ===================================================================== *)
(** * A search without result *)
(* ===================================================================== *)

Section NotFound.

Variable unicodeLower : jsstring → jsstring.
Variable toDouble : N → Z → Num.
Variable random : nat → Fraction.
Variable quotesData : list Quote.t.



End NotFound.



(** The random route answers 404 exactly when nothing matches: when the
    count is valid, the requested authors and tags pass their validation,
    the bounds are not inverted and neither an author of the corpus nor a
    validated author has a malformed percent-escape, the route sends the
    404 "No quotes found matching the criteria." if and only if no quote of
    the corpus passes the three filters, and it sends quotes with 200
    otherwise. *)
Theorem randomRoute_not_found (unicodeLower : jsstring → jsstring)
    (toDouble : N → Z → Num) (inheritedText : jsstring → jsstring)
    (random : nat → Fraction) (quotesData : list Quote.t)
    (authorsFile tagsFile : option (list jsstring)) (query : Query.t)
    (count : Z) (entries : option (list Property)) :
  countOf toDouble (Query.count query) 1 = Int count →
  (1 ≤ count ≤ 50)%Z →
  validateAuthors unicodeLower authorsFile
    (ifPresent (Query.authors query) (fun s => Some (commas s)) None)
  = Accepted entries →
  ifPresent (Query.tags query)
            (fun s => Some (map (toLowerCase unicodeLower) (commas s))) None
    ≫= validateTags tagsFile = None →
  lengthsInverted (boundOf toDouble (Query.minLength query))
                  (boundOf toDouble (Query.maxLength query)) = false →
  (∀ quote, quote ∈ quotesData → wellFormed (Quote.author quote) = true) →
  (∀ p, p ∈ default [] entries →
        wellFormed (textOf inheritedText p) = true) →
  let answer :=
    randomRoute unicodeLower toDouble inheritedText random quotesData
                authorsFile tagsFile query in
  (answer = Return notFound
   ↔ ∀ quote, quote ∈ quotesData →
              meets unicodeLower toDouble inheritedText query entries quote
              = false)
  ∧ (answer = Return notFound
     ∨ ∃ body, answer = Return (Respond 200 body)).
Proof.
  intros Hcount Hrange Hva Hvt Hbounds Hcorpus Htexts answer. subst answer.
  rewrite randomRoute_unfold. cbv zeta.
  rewrite Hcount, (inRange_false count 50 Hrange), Hva, Hvt, Hbounds.
  rewrite getQuotesNum_getQuotes, getQuotes_returns.
  2: { intros q Hq. apply hasMatchingAuthor_returns; [by apply Hcorpus|].
       apply forallb_forall. intros text Htext.
       destruct entries as [ps|]; [|done]. simpl in Htext.
       apply list_elem_of_In, list_elem_of_fmap in Htext as (p & -> & Hp).
       by apply Htexts. }
  creduce.
  assert (∀ quote,
            getQuotes_matches unicodeLower
              (boundsOf (boundOf toDouble (Query.minLength query))
                        (boundOf toDouble (Query.maxLength query))).2
              (boundsOf (boundOf toDouble (Query.minLength query))
                        (boundOf toDouble (Query.maxLength query))).1
              (ifPresent (Query.tags query)
                 (fun s => Some (map (toLowerCase unicodeLower) (commas s)))
                 None)
              (map (textOf inheritedText) <$> entries) quote
            = meets unicodeLower toDouble inheritedText query entries quote)
    as Hmeets.
  { intros quote. unfold getQuotes_matches, meets.
    by rewrite withinLengthNum_boundsOf. }
  destruct (outcome _ _ _) as [|quotes] eqn:Hout.
  - apply outcome_Null in Hout. split; [|by left]. split; [|done].
    intros _ quote Hq. rewrite <- Hmeets.
    by apply (proj1 (filter_nil_iff _ _) Hout).
  - apply outcome_Array in Hout as [Hne _]. split; [|right; by eexists].
    split; [done|]. intros Hnone. destruct Hne.
    apply filter_nil_iff. intros quote Hq. rewrite Hmeets. by apply Hnone.
Qed.

Lemma randomRoute_not_found_witness :
  let query :=
    Query.Build None (Some (str "45")) (Some (str "HUMOR"))
                (Some (str "oscar wilde")) None None None None in
  let answer :=
    randomRoute Sample.noTables SampleRoutes.exact SampleRoutes.nativeText
                Sample.draws Sample.corpus SampleRoutes.authorsFile
                SampleRoutes.tagsFile query in
  (answer = Return notFound
   ↔ ∀ quote, quote ∈ Sample.corpus →
              meets Sample.noTables SampleRoutes.exact SampleRoutes.nativeText
                    query (Some [Own (str "Oscar Wilde")]) quote
              = false)
  ∧ (answer = Return notFound
     ∨ ∃ body, answer = Return (Respond 200 body)).
Proof.
  apply (randomRoute_not_found Sample.noTables SampleRoutes.exact
           SampleRoutes.nativeText Sample.draws Sample.corpus
           SampleRoutes.authorsFile SampleRoutes.tagsFile
           (Query.Build None (Some (str "45")) (Some (str "HUMOR"))
                        (Some (str "oscar wilde")) None None None None)
           1 (Some [Own (str "Oscar Wilde")])).
  - reflexivity.
  - lia.
  - vm_compute. reflexivity.
  - vm_compute. reflexivity.
  - reflexivity.
  - intros q Hq. unfold Sample.corpus in Hq.
    repeat (apply elem_of_cons in Hq as [->|Hq];
            [apply (bool_decide_unpack _); vm_compute; exact I|]).
    inversion Hq.
  - intros p Hp. simpl in Hp.
    repeat (apply elem_of_cons in Hp as [->|Hp];
            [apply (bool_decide_unpack _); vm_compute; exact I|]).
    inversion Hp.
Defined.
